(** * Extraction and enrichment pipeline of the website scraper

    A shallow embedding of the scraping edge function (its request handler,
    [generateAISummary] and [parseHtml]) and of the client's [normalizeUrl],
    [validateUrl] and [handleSubmit], followed by the properties of the
    pipeline that are established on it.

    JavaScript strings are sequences of UTF-16 code units; they are modelled
    as lists of code units.  Regular expressions are modelled by their syntax
    tree and a backtracking matcher that lists the matches of a pattern in the
    order in which the ECMAScript matcher tries them. *)

From Stdlib Require Import String Ascii DecimalString.
From Stdlib Require Import List NArith Arith Lia Bool.
Import ListNotations.

(* ===================================================================== *)
(** ** JavaScript strings *)
(* ===================================================================== *)

Module JS.

(** A string is the list of its UTF-16 code units. *)
Definition str := list N.

(** An ASCII literal of the source as a JavaScript string. *)
Definition lit (s : string) : str := map N_of_ascii (list_ascii_of_string s).

(** Code units of the characters the source names explicitly. *)
Definition dquote : N := 34.
Definition squote : N := 39.
Definition lt : N := 60.
Definition gt : N := 62.
Definition newline : N := 10.

Definition str_eqb (a b : str) : bool :=
  if list_eq_dec N.eq_dec a b then true else false.

(** WhiteSpace and LineTerminator code units: what [\s] matches and what
    [String.prototype.trim] strips. *)
Definition is_space (c : N) : bool :=
  ((9 <=? c) && (c <=? 13) || (c =? 32) || (c =? 160) || (c =? 5760)
   || (8192 <=? c) && (c <=? 8202) || (c =? 8232) || (c =? 8233)
   || (c =? 8239) || (c =? 8287) || (c =? 12288) || (c =? 65279))%N.

(** [\w]: ASCII letters, digits and underscore. *)
Definition is_word (c : N) : bool :=
  ((48 <=? c) && (c <=? 57) || (65 <=? c) && (c <=? 90)
   || (97 <=? c) && (c <=? 122) || (c =? 95))%N.

Fixpoint dropWhile (p : N -> bool) (s : str) : str :=
  match s with
  | [] => []
  | c :: t => if p c then dropWhile p t else s
  end.

Definition trimStart (s : str) : str := dropWhile is_space s.
Definition trimEnd (s : str) : str := rev (dropWhile is_space (rev s)).

(** [s.trim()] *)
Definition trim (s : str) : str := trimEnd (trimStart s).

(** [s.startsWith(p)] *)
Fixpoint startsWith (p s : str) : bool :=
  match p, s with
  | [], _ => true
  | a :: p', b :: s' => (a =? b)%N && startsWith p' s'
  | _ :: _, [] => false
  end.

(** [s.includes(p)] *)
Fixpoint includes (p s : str) : bool :=
  startsWith p s ||
  match s with
  | [] => false
  | _ :: t => includes p t
  end.

(** [s.substring(0, n)] for [n] a non-negative integer. *)
Definition substring0 (n : nat) (s : str) : str := firstn n s.

(** [s.replace(p, by)] with a string pattern: the first occurrence only. *)
Fixpoint replaceFirst (p by_ s : str) : str :=
  if startsWith p s then by_ ++ skipn (length p) s
  else match s with
       | [] => []
       | c :: t => c :: replaceFirst p by_ t
       end.

(** A string is truthy when it is not empty. *)
Definition truthy (s : str) : bool :=
  match s with [] => false | _ :: _ => true end.

(** [a || b] on strings. *)
Definition orElse (a b : str) : str := if truthy a then a else b.

(** Template interpolation of a non-negative integer: its decimal digits. *)
Definition ofNat (n : nat) : str := lit (NilZero.string_of_uint (Nat.to_uint n)).

End JS.

Import JS.

(* ===================================================================== *)
(** ** Regular expressions *)
(* ===================================================================== *)

Module RegExp.

(** Members of a character class. *)
Inductive citem : Type :=
| CChar (c : N)            (* a single character *)
| CRange (lo hi : N)       (* lo-hi *)
| CSpace                   (* \s *)
| CNotSpace.               (* \S *)

(** A one-character matcher: a literal character or a class, possibly
    negated. *)
Record atom : Type := Atom { negated : bool; members : list citem }.

(** The patterns of the source quantify one-character matchers only, so a
    quantifier carries an atom. *)
Inductive regex : Type :=
| Eps
| One (a : atom)
| Rep (a : atom) (min : nat) (max : option nat) (greedy : bool)
| Seq (r1 r2 : regex)
| Alt (r1 r2 : regex)
| Group (i : nat) (r : regex)     (* the i-th capturing parenthesis *)
| WordB                           (* \b *)
| Bos.                            (* ^ without the m flag *)

(** Canonicalize of the specification, for a pattern without the u flag.
    Only ASCII letters are folded here: a code unit of 128 or more never
    canonicalizes to one below 128, so the comparison with the ASCII
    characters of the patterns is the same. *)
Definition canonicalize (ic : bool) (c : N) : N :=
  if (ic && (97 <=? c) && (c <=? 122))%N then (c - 32)%N else c.

(** Is some member [a] of the item such that
    [canonicalize a = canonicalize c]? *)
Definition item_matches (ic : bool) (c : N) (it : citem) : bool :=
  let cc := canonicalize ic c in
  match it with
  | CChar a => (canonicalize ic a =? cc)%N
  | CRange lo hi =>
      ((lo <=? cc) && (cc <=? hi)
       || ic && (65 <=? cc) && (cc <=? 90) && (lo <=? cc + 32) && (cc + 32 <=? hi))%N
  | CSpace => is_space c
  | CNotSpace => negb (is_space c)
  end.

(** CharacterSetMatcher *)
Definition atom_matches (ic : bool) (a : atom) (c : N) : bool :=
  xorb (negated a) (existsb (item_matches ic c) (members a)).

(** A matcher state: the input already passed (most recent first), the input
    still ahead, and the captures made so far. *)
Record mstate : Type := MState {
  seen : str;
  todo : str;
  groups : list (nat * str)
}.

(** The text consumed between a state and a later one. *)
Definition consumed (s s' : mstate) : str :=
  firstn (length (todo s) - length (todo s')) (todo s).

(** RepeatMatcher on a one-character matcher: the end positions in the order
    in which they are tried (longest first when greedy, shortest first when
    lazy). *)
Fixpoint rep (ic : bool) (a : atom) (min : nat) (max : option nat) (greedy : bool)
             (sn td : str) {struct td} : list (str * str) :=
  let stop := if (min =? 0)%nat then [(sn, td)] else [] in
  match max with
  | Some 0%nat => stop
  | _ =>
      match td with
      | c :: td' =>
          if atom_matches ic a c then
            let more := rep ic a (pred min) (option_map pred max) greedy (c :: sn) td' in
            if (min =? 0)%nat then (if greedy then more ++ stop else stop ++ more)
            else more
          else stop
      | [] => stop
      end
  end.

Definition is_word_before (s : mstate) : bool :=
  match seen s with c :: _ => is_word c | [] => false end.
Definition is_word_after (s : mstate) : bool :=
  match todo s with c :: _ => is_word c | [] => false end.

Definition set_group (i : nat) (w : str) (s : mstate) : mstate :=
  MState (seen s) (todo s) ((i, w) :: groups s).

(** The matcher: all the ways the pattern matches at the state, in the order
    of the backtracking search; the first one is the match. *)
Fixpoint run (ic : bool) (r : regex) (s : mstate) : list mstate :=
  match r with
  | Eps => [s]
  | One a =>
      match todo s with
      | c :: t => if atom_matches ic a c then [MState (c :: seen s) t (groups s)] else []
      | [] => []
      end
  | Rep a mn mx g =>
      map (fun e => MState (fst e) (snd e) (groups s)) (rep ic a mn mx g (seen s) (todo s))
  | Seq r1 r2 => flat_map (run ic r2) (run ic r1 s)
  | Alt r1 r2 => run ic r1 s ++ run ic r2 s
  | Group i r1 => map (fun s' => set_group i (consumed s s') s') (run ic r1 s)
  | WordB => if xorb (is_word_before s) (is_word_after s) then [s] else []
  | Bos => match seen s with [] => [s] | _ :: _ => [] end
  end.

(** A match: the matched text and the captures. *)
Record result : Type := Result { whole : str; captures : list (nat * str) }.

(** The capture of group [i] ([m[i]]); the groups of the patterns used with
    it always take part in the match. *)
Fixpoint group_of (i : nat) (gs : list (nat * str)) : str :=
  match gs with
  | [] => []
  | (j, w) :: t => if (i =? j)%nat then w else group_of i t
  end.

Definition capture (i : nat) (m : result) : str := group_of i (captures m).

(** The match attempt at one position. *)
Definition match_at (ic : bool) (r : regex) (sn td : str) : option result :=
  match run ic r (MState sn td []) with
  | e :: _ => Some (Result (consumed (MState sn td []) e) (groups e))
  | [] => None
  end.

(** RegExpBuiltinExec from a position on: the first position with a match. *)
Fixpoint search (ic : bool) (r : regex) (sn td : str) {struct td} : option result :=
  match match_at ic r sn td with
  | Some m => Some m
  | None =>
      match td with
      | c :: t => search ic r (c :: sn) t
      | [] => None
      end
  end.

(** [s.match(re)] for a pattern without the g flag. *)
Definition exec (ic : bool) (r : regex) (s : str) : option result := search ic r [] s.

(** The matches of a pattern with the g flag, left to right and not
    overlapping.  [skip] counts the characters of the last match that are
    still to be passed; after an empty match the scan moves on by one. *)
Fixpoint scan (ic : bool) (r : regex) (skip : nat) (sn td : str) {struct td} : list str :=
  match skip with
  | S k =>
      match td with
      | c :: t => scan ic r k (c :: sn) t
      | [] => []
      end
  | O =>
      match match_at ic r sn td with
      | Some m =>
          whole m ::
          match td with
          | c :: t => scan ic r (pred (length (whole m))) (c :: sn) t
          | [] => []
          end
      | None =>
          match td with
          | c :: t => scan ic r 0 (c :: sn) t
          | [] => []
          end
      end
  end.

(** [s.match(re) || []] for a pattern with the g flag. *)
Definition matchAll (ic : bool) (r : regex) (s : str) : list str := scan ic r 0 [] s.

(** [s.replace(re, by)] for a pattern with the g flag and a replacement
    without [$]. *)
Fixpoint replace_scan (ic : bool) (r : regex) (by_ : str) (skip : nat) (sn td : str)
                      {struct td} : str :=
  match skip with
  | S k =>
      match td with
      | c :: t => replace_scan ic r by_ k (c :: sn) t
      | [] => []
      end
  | O =>
      match match_at ic r sn td with
      | Some m =>
          by_ ++
          match td with
          | c :: t =>
              match length (whole m) with
              | O => c :: replace_scan ic r by_ 0 (c :: sn) t
              | S k => replace_scan ic r by_ k (c :: sn) t
              end
          | [] => []
          end
      | None =>
          match td with
          | c :: t => c :: replace_scan ic r by_ 0 (c :: sn) t
          | [] => []
          end
      end
  end.

Definition replaceAll (ic : bool) (r : regex) (by_ : str) (s : str) : str :=
  replace_scan ic r by_ 0 [] s.

(** *** Pattern syntax *)

Definition chr (c : N) : regex := One (Atom false [CChar c]).
Definition any_of (cs : list N) : atom := Atom false (map CChar cs).
Definition none_of (cs : list N) : atom := Atom true (map CChar cs).
Definition star (a : atom) : regex := Rep a 0 None true.
Definition plus (a : atom) : regex := Rep a 1 None true.
Definition lazy_star (a : atom) : regex := Rep a 0 None false.
Definition opt (c : N) : regex := Rep (Atom false [CChar c]) 0 (Some 1%nat) true.

(** A run of literal characters. *)
Fixpoint chars (s : str) : regex :=
  match s with
  | [] => Eps
  | c :: t => Seq (chr c) (chars t)
  end.
Definition word (s : string) : regex := chars (lit s).

Fixpoint seqs (rs : list regex) : regex :=
  match rs with
  | [] => Eps
  | r :: t => Seq r (seqs t)
  end.

Fixpoint alts (r : regex) (rs : list regex) : regex :=
  match rs with
  | [] => r
  | r' :: t => Alt r (alts r' t)
  end.

End RegExp.

Import RegExp.

(* ===================================================================== *)
(** ** The extractor: [parseHtml] *)
(* ===================================================================== *)

Module Extractor.

Record Link : Type := { text : str; url : str }.

(** interface ScrapedData *)
Record ScrapedData : Type := {
  title : str;
  content : str;
  headings : list str;
  links : list Link
}.

(** What the code reads of a [URL] object of the runtime; [href] is what
    [toString()] returns. *)
Record URL : Type := { protocol : str; host : str; href : str }.

(** *** The patterns of [parseHtml] *)

Definition quotes : list N := [dquote; squote].
Definition anything : atom := Atom false [CSpace; CNotSpace].     (* [\s\S] *)
Definition digit_1_6 : atom := Atom false [CRange 49 54].          (* [1-6] *)

(** /<title[^>]*>([^<]+)<\/title>/i *)
Definition title_re : regex :=
  seqs [word "<title"; star (none_of [gt]); chr gt;
        Group 1 (plus (none_of [lt])); word "</title>"].

(** /<script[^>]*>[\s\S]*?<\/script>/gi and its two siblings *)
Definition block_re (name : string) : regex :=
  seqs [chr lt; word name; star (none_of [gt]); chr gt;
        lazy_star anything; word "</"; word name; chr gt].

(** /<[^>]+>/g *)
Definition tag_re : regex := seqs [chr lt; plus (none_of [gt]); chr gt].

(** /\s+/g *)
Definition spaces_re : regex := plus (Atom false [CSpace]).

(** /\b(home|about|contact|privacy|terms|cookies?|login|register|sign up|sign in|menu|navigation|footer|header)\b/gi *)
Definition nav_re : regex :=
  seqs [WordB;
        Group 1 (alts (word "home")
                   [word "about"; word "contact"; word "privacy"; word "terms";
                    Seq (word "cookie") (opt 115); word "login"; word "register";
                    word "sign up"; word "sign in"; word "menu"; word "navigation";
                    word "footer"; word "header"]);
        WordB].

(** /<h[1-6][^>]*>([^<]+)<\/h[1-6]>/gi *)
Definition heading_re : regex :=
  seqs [word "<h"; One digit_1_6; star (none_of [gt]); chr gt;
        Group 1 (plus (none_of [lt])); word "</h"; One digit_1_6; chr gt].

(** />([^<]+)</ *)
Definition heading_text_re : regex :=
  seqs [chr gt; Group 1 (plus (none_of [lt])); chr lt].

(** /<a [^>]+ href= [Q'] ([^Q']+) [Q'] [^>]* > ( [^<]* ) <\/a>/gi, written
    here with blanks between its parts and Q for the double quote
    character *)
Definition link_re : regex :=
  seqs [word "<a"; plus (none_of [gt]); word "href="; One (any_of quotes);
        Group 1 (plus (none_of quotes)); One (any_of quotes);
        star (none_of [gt]); chr gt; Group 2 (star (none_of [lt])); word "</a>"].

(** /href=[Q']([^Q']+)[Q']/i, with Q written for the double quote
    character *)
Definition href_re : regex :=
  seqs [word "href="; One (any_of quotes); Group 1 (plus (none_of quotes));
        One (any_of quotes)].

(** /> ( [^<]* ) </, written here with blanks between its parts *)
Definition link_text_re : regex :=
  seqs [chr gt; Group 1 (star (none_of [lt])); chr lt].

(** The array methods: a callback that throws ends the whole [map]. *)
Fixpoint mapM {A B : Type} (f : A -> option B) (l : list A) : option (list B) :=
  match l with
  | [] => Some []
  | a :: t =>
      match f a with
      | None => None
      | Some b =>
          match mapM f t with
          | None => None
          | Some bs => Some (b :: bs)
          end
      end
  end.

(** [a.filter(x => x !== null && p(x))] *)
Fixpoint filterSome {A : Type} (p : A -> bool) (l : list (option A)) : list A :=
  match l with
  | [] => []
  | None :: t => filterSome p t
  | Some a :: t => if p a then a :: filterSome p t else filterSome p t
  end.

Section WithURL.

(** [new URL(input)] and [new URL(input, base)] of the runtime: [None] when
    the constructor throws. *)
Variable newURL : str -> option str -> option URL.

(** The callback of [headingMatches.map]. *)
Definition headingOf (m : str) : str :=
  match exec false heading_text_re m with
  | Some textMatch => trim (capture 1 textMatch)
  | None => []
  end.

(** The callback of [linkMatches.map]: [None] when it throws, [Some None]
    when it returns [null]. *)
Definition linkOf (baseUrl : str) (m : str) : option (option Link) :=
  match exec true href_re m with
  | None => Some None
  | Some hrefMatch =>
      let href0 := capture 1 hrefMatch in
      let text0 :=
        match exec false link_text_re m with
        | Some textMatch => trim (capture 1 textMatch)
        | None => href0
        end in
      if startsWith (lit "/") href0 then
        match newURL baseUrl None with
        | None => None
        | Some base =>
            let href1 := protocol base ++ lit "//" ++ host base ++ href0 in
            Some (Some {| text := orElse text0 href1; url := href1 |})
        end
      else if startsWith (lit "./") href0 || negb (includes (lit "://") href0) then
        match newURL href0 (Some baseUrl) with
        | None => Some None
        | Some u => Some (Some {| text := orElse text0 (href u); url := href u |})
        end
      else Some (Some {| text := orElse text0 href0; url := href0 |})
  end.

(** The predicate of [.filter] on links (besides [link !== null]). *)
Definition keepLink (l : Link) : bool :=
  (0 <? length (text l))%nat && (0 <? length (url l))%nat
  && negb (startsWith (lit "javascript:") (url l))
  && negb (startsWith (lit "mailto:") (url l)).

(** The bounds of the source. *)
Definition maxContent : nat := 15000.
Definition maxHeadings : nat := 20.
Definition maxLinks : nat := 50.

(** "Extract title" *)
Definition extractTitle (html : str) : str :=
  match exec true title_re html with
  | Some titleMatch => trim (capture 1 titleMatch)
  | None => lit "Untitled"
  end.

(** "Extract main content text" *)
Definition extractContent (html : str) : str :=
  let content := html in
  let content := replaceAll true (block_re "script") [] content in
  let content := replaceAll true (block_re "style") [] content in
  let content := replaceAll true (block_re "noscript") [] content in
  let content := replaceAll false tag_re (lit " ") content in
  let content := trim (replaceAll false spaces_re (lit " ") content) in
  let content := replaceAll true nav_re [] content in
  if (maxContent <? length content)%nat then substring0 maxContent content else content.

(** "Extract headings (h1-h6)" *)
Definition extractHeadings (html : str) : list str :=
  let headingMatches := matchAll true heading_re html in
  firstn maxHeadings
    (filter (fun heading => (0 <? length heading)%nat) (map headingOf headingMatches)).

(** "Extract links"; [None] when a callback throws. *)
Definition extractLinks (html baseUrl : str) : option (list Link) :=
  let linkMatches := matchAll true link_re html in
  match mapM (linkOf baseUrl) linkMatches with
  | None => None
  | Some mapped => Some (firstn maxLinks (filterSome keepLink mapped))
  end.

(** [parseHtml(html, baseUrl)]; [None] when it throws. *)
Definition parseHtml (html baseUrl : str) : option ScrapedData :=
  let title := extractTitle html in
  let content := extractContent html in
  let headings := extractHeadings html in
  match extractLinks html baseUrl with
  | None => None
  | Some links =>
      Some {| title := title; content := content; headings := headings; links := links |}
  end.

End WithURL.

End Extractor.

Import Extractor.

(* ===================================================================== *)
(** ** The edge function: enrichment and the request handler *)
(* ===================================================================== *)

Module Pipeline.

(** *** What the function exchanges with the outside *)

(** The result of [await fetch(...)]: the promise rejects, or a response
    arrives with a status and a body. *)
Inductive FetchResult (B : Type) : Type :=
| Rejected (message : str)
| Responded (status : nat) (body : B).
Arguments Rejected {B} message.
Arguments Responded {B} status body.

(** [response.ok] *)
Definition ok (status : nat) : bool := (200 <=? status)%nat && (status <=? 299)%nat.

(** What the code finds at [message.content] of a choice: nothing (the
    choice, its message or the content is null or undefined), a string, or
    another JSON value (a number, a boolean, an array or an object). *)
Inductive Content : Type :=
| NoContent
| Text (s : str)
| NotText.

(** What [await response.json()] gives for a chat completion: the body is
    not JSON; or it is a value whose [choices] cannot be indexed (it is null
    or undefined, or the value itself is null or has no properties); or it
    is a value with [choices], of which an entry tells what the code finds
    at [message.content] of the choice. *)
Inductive ChatBody : Type :=
| NotJson (message : str)
| Json (choices : option (list Content)).

(** [supabaseClient.auth.getUser(token)] *)
Record AuthReply : Type := { user : option str (* user.id *); authError : bool }.

(** The row given to [insert]. *)
Record Row : Type := {
  user_id : str;
  row_url : str;
  row_title : str;
  row_content : str;
  row_headings : list str;
  row_links : list Link;
  ai_summary : option str;
  analysis_status : str
}.

(** The row the store returns. *)
Record SavedRow : Type := {
  id : str;
  saved_url : str;
  saved_title : str;
  saved_content : str;
  saved_headings : list str;
  saved_links : list Link;
  saved_ai_summary : option str;
  saved_analysis_status : str;
  created_at : str
}.

(** One request and the answers of the collaborators during it. *)
Record World : Type := {
  OPENAI_API_KEY : option str;                 (* Deno.env.get('OPENAI_API_KEY') *)
  newURL : str -> option str -> option URL;    (* new URL(...) *)
  method : str;                                (* req.method *)
  authorization : option str;                  (* req.headers.get('Authorization') *)
  getUser : str -> AuthReply;
  requestJson : option (option str);           (* await req.json(): throws, or the url field *)
  fetchPage : str -> FetchResult str;
  fetchOpenAI : str -> FetchResult ChatBody;   (* by the prompt sent *)
  insertRow : Row -> str + SavedRow            (* dbError.message, or the saved row *)
}.

(** The calls that leave the function, in order. *)
Inductive Event : Type :=
| EvGetUser (token : str)
| EvFetchPage (target : str)
| EvOpenAI (prompt : str)
| EvInsert (row : Row).

(** *** Exceptions and the trace of calls *)

Inductive outcome (A : Type) : Type :=
| Ok (a : A)
| Throw (message : str).
Arguments Ok {A} a.
Arguments Throw {A} message.

Definition M (A : Type) : Type := list Event -> outcome A * list Event.

Definition ret {A : Type} (a : A) : M A := fun tr => (Ok a, tr).
Definition throw {A : Type} (message : str) : M A := fun tr => (Throw message, tr).
Definition bind {A B : Type} (m : M A) (k : A -> M B) : M B :=
  fun tr =>
    match m tr with
    | (Ok a, tr') => k a tr'
    | (Throw e, tr') => (Throw e, tr')
    end.
Definition emit (e : Event) : M unit := fun tr => (Ok tt, tr ++ [e]).
Definition tryCatch {A : Type} (m : M A) (h : str -> M A) : M A :=
  fun tr =>
    match m tr with
    | (Ok a, tr') => (Ok a, tr')
    | (Throw e, tr') => h e tr'
    end.

Declare Scope js_scope.
Delimit Scope js_scope with js.
Notation "x <- m ;; k" := (bind m (fun x => k))
  (at level 61, m at next level, right associativity) : js_scope.
Notation "m ;; k" := (bind m (fun _ => k))
  (at level 61, right associativity) : js_scope.
Local Open Scope js_scope.

(** [await fetch(...)] followed by the reading of the body. *)
Definition await {B : Type} (r : FetchResult B) : M (nat * B) :=
  match r with
  | Rejected message => throw message
  | Responded status body => ret (status, body)
  end.

(** *** The enricher *)

Definition maxContentLength : nat := 12000.

Definition prompt_of (content title : str) : str :=
  let truncatedContent :=
    if (maxContentLength <? length content)%nat
    then substring0 maxContentLength content ++ lit "..."
    else content in
  lit "Please provide a comprehensive yet concise summary of the following webpage content. Focus on the key points, main topics, and important takeaways. Make it informative and well-structured. Limit to 250 words maximum."
  ++ [newline; newline] ++ lit "Title: " ++ title
  ++ [newline; newline] ++ lit "Content: " ++ truncatedContent
  ++ [newline; newline]
  ++ lit "Please provide a summary that captures the essence and main points of this content:".

(** [generateAISummary(content, title)] *)
Definition generateAISummary (w : World) (content title : str) : M str :=
  match OPENAI_API_KEY w with
  | None => throw (lit "OpenAI API key not configured")
  | Some openaiApiKey =>
      if negb (truthy openaiApiKey) then throw (lit "OpenAI API key not configured")
      else
        let prompt := prompt_of content title in
        emit (EvOpenAI prompt) ;;
        response <- await (fetchOpenAI w prompt) ;;
        if negb (ok (fst response)) then
          throw (lit "OpenAI API error: " ++ ofNat (fst response))
        else
          match snd response with
          | NotJson message => throw message
          | Json None => throw (lit "Cannot read properties of undefined (reading '0')")
          | Json (Some (NotText :: _)) =>
              throw (lit "data.choices[0]?.message?.content?.trim is not a function")
          | Json (Some choices) =>
              ret (orElse
                     (match choices with
                      | Text c :: _ => trim c
                      | _ => []
                      end)
                     (lit "Summary could not be generated."))
          end
  end.

(** *** The handler *)

(** The JSON body of a reply. *)
Inductive Body : Type :=
| NoBody
| Success (saved : SavedRow)     (* success: true, data: the saved row's fields *)
| Failure (error : str).         (* success: false, error *)

Record Response : Type := { statusCode : nat; body : Body }.

Definition key_configured (w : World) : bool :=
  match OPENAI_API_KEY w with
  | Some k => truthy k
  | None => false
  end.

(** The [try] block of the handler. *)
Definition serve (w : World) : M Response :=
  authHeader <-
    match authorization w with
    | Some h => if truthy h then ret h else throw (lit "No authorization header")
    | None => throw (lit "No authorization header")
    end ;;
  let token := replaceFirst (lit "Bearer ") [] authHeader in
  emit (EvGetUser token) ;;
  let reply := getUser w token in
  user_id <-
    match user reply with
    | Some u => if authError reply then throw (lit "Invalid authentication") else ret u
    | None => throw (lit "Invalid authentication")
    end ;;
  url <-
    match requestJson w with
    | None => throw (lit "Unexpected end of JSON input")
    | Some None => throw (lit "URL is required")
    | Some (Some u) => if truthy u then ret u else throw (lit "URL is required")
    end ;;
  targetUrl <-
    match newURL w url None with
    | Some u => ret u
    | None => throw (lit "Invalid URL format")
    end ;;
  emit (EvFetchPage (href targetUrl)) ;;
  response <- await (fetchPage w (href targetUrl)) ;;
  if negb (ok (fst response)) then
    throw (lit "Failed to fetch webpage: " ++ ofNat (fst response))
  else
    let html := snd response in
    scrapedData <-
      match parseHtml (newURL w) html (href targetUrl) with
      | Some d => ret d
      | None => throw (lit "Invalid URL")
      end ;;
    enriched <-
      (if key_configured w && truthy (trim (content scrapedData)) then
         tryCatch
           (aiSummary <- generateAISummary w (content scrapedData) (title scrapedData) ;;
            ret (aiSummary, lit "completed"))
           (fun _ => ret ([], lit "failed"))
       else ret ([], lit "pending")) ;;
    let row := {|
      user_id := user_id;
      row_url := href targetUrl;
      row_title := title scrapedData;
      row_content := content scrapedData;
      row_headings := headings scrapedData;
      row_links := links scrapedData;
      ai_summary := if truthy (fst enriched) then Some (fst enriched) else None;
      analysis_status := snd enriched
    |} in
    emit (EvInsert row) ;;
    match insertRow w row with
    | inl message => throw (lit "Database error: " ++ message)
    | inr savedResult => ret {| statusCode := 200; body := Success savedResult |}
    end.

(** The handler given to [Deno.serve]: the reply and the calls made. *)
Definition handler (w : World) : Response * list Event :=
  if str_eqb (method w) (lit "OPTIONS") then ({| statusCode := 200; body := NoBody |}, [])
  else
    match serve w [] with
    | (Ok r, tr) => (r, tr)
    | (Throw message, tr) =>
        ({| statusCode := 400;
            body := Failure (orElse message (lit "An unexpected error occurred")) |}, tr)
    end.

End Pipeline.

(* ===================================================================== *)
(** ** The client: normalisation and validation of the URL typed in *)
(* ===================================================================== *)

Module Client.

(** /^https?:\/\//i *)
Definition scheme_re : regex := seqs [Bos; word "http"; opt 115; word "://"].

Section WithURL.

Variable newURL : str -> option str -> option URL.

Definition validateUrl (url : str) : bool :=
  match newURL url None with
  | Some _ => true
  | None => false
  end.

Definition normalizeUrl (inputUrl : str) : str :=
  let normalizedUrl := trim inputUrl in
  match exec true scheme_re normalizedUrl with
  | None => lit "https://" ++ normalizedUrl
  | Some _ => normalizedUrl
  end.

(** What [handleSubmit] does with the text of the input field: it shows an
    error, or posts the URL to the scraping function. *)
Inductive Submission : Type :=
| SetError (message : str)
| PostScrape (url : str).

(** [handleSubmit], up to the request it sends; [session] tells whether
    [supabase.auth.getSession()] gave a session. *)
Definition handleSubmit (session : bool) (url : str) : Submission :=
  if negb (truthy (trim url)) then SetError (lit "Please enter a URL")
  else
    let normalizedUrl := normalizeUrl url in
    if negb (validateUrl normalizedUrl) then
      SetError (lit "Please enter a valid URL (e.g., google.com, www.example.com, or https://example.com)")
    else if negb session then SetError (lit "Not authenticated")
    else PostScrape normalizedUrl.

End WithURL.

End Client.

(* ===================================================================== *)
(** ** The vocabulary of the properties *)
(* ===================================================================== *)

Module Spec.

(** Prefix test up to the case of ASCII letters. *)
Fixpoint prefix_ci (p s : str) : bool :=
  match p, s with
  | [], _ => true
  | a :: p', c :: s' =>
      (canonicalize true a =? canonicalize true c)%N && prefix_ci p' s'
  | _ :: _, [] => false
  end.

(** Equality up to the case of ASCII letters. *)
Definition eqb_ci (a b : str) : bool :=
  (length a =? length b)%nat && prefix_ci a b.

(** The longest prefix whose characters satisfy [p], and what follows it. *)
Fixpoint span (p : N -> bool) (s : str) : str * str :=
  match s with
  | [] => ([], [])
  | c :: t =>
      if p c then let (w, r) := span p t in (c :: w, r) else ([], s)
  end.

Definition is_not (c x : N) : bool := negb (x =? c)%N.

(** Does the text start with a title element whose inner text is not empty
    and holds no tag?  The element is [<title], the rest of its opening tag
    up to the first [>], the inner text up to the first [<], and [</title>];
    the answer is the inner text. *)
Definition title_element (s : str) : option str :=
  if prefix_ci (lit "<title") s then
    match snd (span (is_not gt) (skipn 6 s)) with
    | [] => None
    | _ :: inner =>
        let (t, r) := span (is_not lt) inner in
        if truthy t && prefix_ci (lit "</title>") r then Some t else None
    end
  else None.

(** The first position of the text, from the left, at which [f] finds
    something. *)
Fixpoint first_at {A : Type} (f : str -> option A) (s : str) : option A :=
  match f s with
  | Some a => Some a
  | None =>
      match s with
      | [] => None
      | _ :: t => first_at f t
      end
  end.

(** The text starts with [http://] or [https://], in any case: the schemes
    the client recognizes. *)
Definition has_recognized_scheme (s : str) : bool :=
  prefix_ci (lit "http://") s || prefix_ci (lit "https://") s.

Definition is_alpha (c : N) : bool :=
  ((65 <=? c) && (c <=? 90) || (97 <=? c) && (c <=? 122))%N.
Definition is_scheme_char (c : N) : bool :=
  (is_alpha c || (48 <=? c) && (c <=? 57) || (c =? 43) || (c =? 45) || (c =? 46))%N.

(** An absolute URL starts with a scheme: a letter, then letters, digits,
    [+], [-] or [.], then a colon. *)
Definition absolute (s : str) : bool :=
  match span is_scheme_char s with
  | (c :: _, d :: _) => is_alpha c && (d =? 58)%N
  | _ => false
  end.

Definition is_quote (c : N) : bool := (c =? dquote)%N || (c =? squote)%N.

(** Does the text hold [href=] directly followed by a quote? *)
Fixpoint has_quoted_href (s : str) : bool :=
  match s with
  | [] => false
  | _ :: t =>
      prefix_ci (lit "href=") s && match skipn 5 s with q :: _ => is_quote q | [] => false end
      || has_quoted_href t
  end.

(** Is every [href=] directly followed by a quote also followed, later in
    the text, by a second quote? *)
Fixpoint hrefs_closed (s : str) : bool :=
  match s with
  | [] => true
  | _ :: t =>
      (if prefix_ci (lit "href=") s then
         match skipn 5 s with
         | q :: v => negb (is_quote q) || existsb is_quote v
         | [] => true
         end
       else true)
      && hrefs_closed t
  end.

(** The shape of a text the link pattern matches: [<a], characters other
    than [>], [href=], a quote, a value without quotes, a quote, characters
    other than [>], [>], an inner text without [<], and [</a>]. *)
Definition link_shape (m : str) : Prop :=
  exists o x h q v q' y t e,
    m = o ++ x ++ h ++ [q] ++ v ++ [q'] ++ y ++ [gt] ++ t ++ e
    /\ eqb_ci (lit "<a") o = true
    /\ x <> [] /\ forallb (is_not gt) x = true
    /\ eqb_ci (lit "href=") h = true
    /\ is_quote q = true
    /\ v <> [] /\ forallb (fun c => negb (is_quote c)) v = true
    /\ is_quote q' = true
    /\ forallb (is_not gt) y = true
    /\ forallb (is_not lt) t = true
    /\ eqb_ci (lit "</a>") e = true.

(** The regular language of a pattern, without the conditions that [\b]
    and [^] put on what surrounds the match. *)
Fixpoint denotes (ic : bool) (r : regex) (w : str) : Prop :=
  match r with
  | Eps => w = []
  | One a => exists c, w = [c] /\ atom_matches ic a c = true
  | Rep a mn mx _ =>
      forallb (atom_matches ic a) w = true /\ (mn <= length w)%nat
      /\ match mx with Some k => (length w <= k)%nat | None => True end
  | Seq r1 r2 => exists w1 w2, w = w1 ++ w2 /\ denotes ic r1 w1 /\ denotes ic r2 w2
  | Alt r1 r2 => denotes ic r1 w \/ denotes ic r2 w
  | Group _ r1 => denotes ic r1 w
  | WordB => w = []
  | Bos => w = []
  end.

(** *** The stages of a request *)

Import Pipeline.

(** The token the handler reads in the Authorization header. *)
Definition token_of (h : str) : str := replaceFirst (lit "Bearer ") [] h.

(** The request is not a preflight and carries the header [h] of the user
    [uid]. *)
Record Authorized (w : World) (h uid : str) : Prop := {
  not_preflight : str_eqb (method w) (lit "OPTIONS") = false;
  has_header : authorization w = Some h;
  header_set : truthy h = true;
  user_found : user (getUser w (token_of h)) = Some uid;
  no_auth_error : authError (getUser w (token_of h)) = false
}.

(** The body asks for [u], which the runtime reads as the URL [target]. *)
Record Requested (w : World) (u : str) (target : URL) : Prop := {
  body_url : requestJson w = Some (Some u);
  url_set : truthy u = true;
  url_valid : newURL w u None = Some target
}.

(** The page answers with the success status [status] and the text [html],
    from which the extractor returns [d]. *)
Record Extracted (w : World) (target : URL) (status : nat) (html : str)
       (d : ScrapedData) : Prop := {
  page_fetched : fetchPage w (href target) = Responded status html;
  page_ok : ok status = true;
  page_parsed : parseHtml (newURL w) html (href target) = Some d
}.

(** The message the client shows for a URL that is not valid. *)
Definition invalid_url_message : str :=
  lit "Please enter a valid URL (e.g., google.com, www.example.com, or https://example.com)".

(** The call of the summarization service errors: the request is rejected,
    the status is not a success, the body is not JSON, it has no
    [choices], or the content of its first choice is neither missing nor a
    string. *)
Definition call_errors (r : FetchResult ChatBody) : bool :=
  match r with
  | Rejected _ => true
  | Responded status b =>
      negb (ok status)
      || match b with
         | NotJson _ => true
         | Json None => true
         | Json (Some (NotText :: _)) => true
         | Json (Some _) => false
         end
  end.

(** The row the handler writes for the user [uid], the URL [target] and the
    extraction [d]. *)
Definition row_of (uid : str) (target : URL) (d : ScrapedData)
           (summary : option str) (status : str) : Row := {|
  user_id := uid;
  row_url := href target;
  row_title := title d;
  row_content := content d;
  row_headings := headings d;
  row_links := links d;
  ai_summary := summary;
  analysis_status := status
|}.

End Spec.

(* ===================================================================== *)
(** ** A runtime for the examples *)
(* ===================================================================== *)

Module Platform.

Import Spec.

Definition lower (c : N) : N :=
  if ((65 <=? c) && (c <=? 90))%N then (c + 32)%N else c.

Definition ends_host (c : N) : bool := (c =? 47)%N || (c =? 63)%N || (c =? 35)%N.

(** [scheme://host] followed by a path, a query or a fragment. *)
Definition parse_absolute (input : str) : option URL :=
  match span is_scheme_char input with
  | (c :: sch, 58%N :: 47%N :: 47%N :: rest) =>
      let (h, tail) := span (fun x => negb (ends_host x)) rest in
      if is_alpha c && truthy h then
        let p := map lower (c :: sch) ++ [58%N] in
        let hst := map lower h in
        Some {| protocol := p; host := hst;
                href := p ++ lit "//" ++ hst ++
                        (match tail with
                         | 47%N :: _ => tail
                         | _ => 47%N :: tail
                         end) |}
      else None
  | _ => None
  end.

(** The directory of a path: up to and including its last slash. *)
Definition directory (path : str) : str :=
  rev (dropWhile (fun c => negb (c =? 47)%N) (rev (fst (span (fun c => negb ((c =? 63) || (c =? 35))%N) path)))).

(** A URL class for the examples.  It accepts [scheme://host...] as an
    absolute URL and resolves against a base an input that starts with one
    slash or is a plain relative path; it stands for the runtime's class on
    the URLs of the examples, which are of these forms. *)
Definition newURL (input : str) (base : option str) : option URL :=
  match parse_absolute input with
  | Some u => Some u
  | None =>
      match base with
      | None => None
      | Some b =>
          match parse_absolute b with
          | None => None
          | Some bu =>
              let origin := protocol bu ++ lit "//" ++ host bu in
              let path := skipn (length origin) (href bu) in
              if startsWith (lit "/") input
              then parse_absolute (origin ++ input)
              else parse_absolute (origin ++ directory path ++ input)
          end
      end
  end.

End Platform.

(* ===================================================================== *)
(** ** Documents and requests of the examples *)
(* ===================================================================== *)

Module Examples.

Import Pipeline.

Definition base : str := lit "https://site.test/page".

(** <html><body><h1>A</h1><a href=Q/xQ>Go</a></body></html>, with Q
    written for the double quote character *)
Definition doc_scenario : str :=
  lit "<html><body><h1>A</h1><a href=" ++ [dquote] ++ lit "/x" ++ [dquote]
  ++ lit ">Go</a></body></html>".

Definition doc_title_foo : str := lit "<html><head><title>Foo</title></head></html>".

(** An empty title element, then the title of an inline drawing. *)
Definition doc_empty_title_then_svg : str :=
  lit "<title></title><svg><title>Icon</title></svg>".

Definition doc_empty_title : str := lit "<html><title></title></html>".

(** A relative reference whose query holds a URL. *)
Definition doc_relative_query : str := lit "<a href='?u=http://b'>Go</a>".

(** An anchor with an unquoted href and a second, quoted attribute whose
    name ends in href. *)
Definition doc_unquoted_href : str := lit "<a href=/x data-href='http://h/y'>Go</a>".

(** An anchor around an image, with an attribute value that holds [>]. *)
Definition doc_child_tag : str := lit "<a href='http://h/x' data-y='>Go</a>'><img></a>".

(** The two anchors of the kind the pattern is meant to leave out. *)
Definition doc_image_link : str := lit "<a href='/x'><img src='i.png'></a>".
Definition doc_span_link : str := lit "<a href='/x'><span>Go</span></a>".

(** What the runtime reads in the base URL, and what the extractor returns
    for the document of the scenario. *)
Definition target_scenario : URL :=
  {| protocol := lit "https:"; host := lit "site.test"; href := base |}.
Definition data_scenario : ScrapedData := {|
  title := lit "Untitled";
  content := lit "A Go";
  headings := [lit "A"];
  links := [{| text := lit "Go"; url := lit "https://site.test/x" |}]
|}.

Definition stored (row : Row) : SavedRow := {|
  id := lit "1";
  saved_url := row_url row;
  saved_title := row_title row;
  saved_content := row_content row;
  saved_headings := row_headings row;
  saved_links := row_links row;
  saved_ai_summary := ai_summary row;
  saved_analysis_status := analysis_status row;
  created_at := lit "2025-07-04T18:09:02Z"
|}.

(** A request for the scenario page by a signed-in user; the page answers
    with [status], the summarization service with [reply]. *)
Definition world (key : option str) (status : nat) (reply : FetchResult ChatBody) : World := {|
  OPENAI_API_KEY := key;
  newURL := Platform.newURL;
  method := lit "POST";
  authorization := Some (lit "Bearer token-1");
  getUser := fun _ => {| user := Some (lit "user-1"); authError := false |};
  requestJson := Some (Some base);
  fetchPage := fun _ => Responded status doc_scenario;
  fetchOpenAI := fun _ => reply;
  insertRow := fun row => inr (stored row)
|}.

Definition world_enrichment_fails : World :=
  world (Some (lit "sk-test")) 200 (Responded 500 (NotJson [])).
Definition world_no_key : World :=
  world None 200 (Responded 200 (Json (Some [Text (lit "A page.")]))).
Definition world_not_found : World :=
  world (Some (lit "sk-test")) 404 (Responded 200 (Json (Some [Text (lit "A page.")]))).

End Examples.

(* ===================================================================== *)
(** ** The client: saved results and their selection *)
(* ===================================================================== *)

Module App.

(** interface ScrapedResult *)
Record ScrapedResult : Type := {
  id : str;
  url : str;
  title : str;
  headings : list str;
  links : list Extractor.Link;
  timestamp : str
}.

(** A JavaScript [Set] of strings: its elements in the order of their
    insertion, each one once. *)
Definition StrSet : Type := list str.

Definition has (s : StrSet) (x : str) : bool := existsb (str_eqb x) s.
Definition add (s : StrSet) (x : str) : StrSet := if has s x then s else s ++ [x].
Definition delete (s : StrSet) (x : str) : StrSet :=
  filter (fun y => negb (str_eqb x y)) s.
Definition size (s : StrSet) : nat := length s.

(** [new Set(array)] *)
Definition newSet (l : list str) : StrSet := fold_left add l [].

(** The state of [WebScraperApp], in the order of its [useState] calls;
    [url'] is the state variable [url], the text of the input field, and
    [expandedSections] holds [headings] and [links].  A function below is
    one call of the function of the component, from the state of the render
    it was made in to the state after its updates, no other update coming
    in between; the answers of [confirm], of the store and of the scraping
    function are arguments. *)
Record State : Type := {
  url' : str;
  isLoading : bool;
  error : str;
  successMessage : str;
  currentResult : option ScrapedResult;
  savedResults : list ScrapedResult;
  showSavedResults : bool;
  loadingSavedResults : bool;
  selectedResults : StrSet;
  isSelectionMode : bool;
  deletingResults : StrSet;
  expandedSections : bool * bool
}.

Definition setUrl (v : str) (st : State) : State :=
  {| url' := v;
     isLoading := isLoading st;
     error := error st;
     successMessage := successMessage st;
     currentResult := currentResult st;
     savedResults := savedResults st;
     showSavedResults := showSavedResults st;
     loadingSavedResults := loadingSavedResults st;
     selectedResults := selectedResults st;
     isSelectionMode := isSelectionMode st;
     deletingResults := deletingResults st;
     expandedSections := expandedSections st |}.

Definition setIsLoading (v : bool) (st : State) : State :=
  {| url' := url' st;
     isLoading := v;
     error := error st;
     successMessage := successMessage st;
     currentResult := currentResult st;
     savedResults := savedResults st;
     showSavedResults := showSavedResults st;
     loadingSavedResults := loadingSavedResults st;
     selectedResults := selectedResults st;
     isSelectionMode := isSelectionMode st;
     deletingResults := deletingResults st;
     expandedSections := expandedSections st |}.

Definition setError (v : str) (st : State) : State :=
  {| url' := url' st;
     isLoading := isLoading st;
     error := v;
     successMessage := successMessage st;
     currentResult := currentResult st;
     savedResults := savedResults st;
     showSavedResults := showSavedResults st;
     loadingSavedResults := loadingSavedResults st;
     selectedResults := selectedResults st;
     isSelectionMode := isSelectionMode st;
     deletingResults := deletingResults st;
     expandedSections := expandedSections st |}.

Definition setSuccessMessage (v : str) (st : State) : State :=
  {| url' := url' st;
     isLoading := isLoading st;
     error := error st;
     successMessage := v;
     currentResult := currentResult st;
     savedResults := savedResults st;
     showSavedResults := showSavedResults st;
     loadingSavedResults := loadingSavedResults st;
     selectedResults := selectedResults st;
     isSelectionMode := isSelectionMode st;
     deletingResults := deletingResults st;
     expandedSections := expandedSections st |}.

Definition setCurrentResult (v : option ScrapedResult) (st : State) : State :=
  {| url' := url' st;
     isLoading := isLoading st;
     error := error st;
     successMessage := successMessage st;
     currentResult := v;
     savedResults := savedResults st;
     showSavedResults := showSavedResults st;
     loadingSavedResults := loadingSavedResults st;
     selectedResults := selectedResults st;
     isSelectionMode := isSelectionMode st;
     deletingResults := deletingResults st;
     expandedSections := expandedSections st |}.

Definition setSavedResults (v : list ScrapedResult) (st : State) : State :=
  {| url' := url' st;
     isLoading := isLoading st;
     error := error st;
     successMessage := successMessage st;
     currentResult := currentResult st;
     savedResults := v;
     showSavedResults := showSavedResults st;
     loadingSavedResults := loadingSavedResults st;
     selectedResults := selectedResults st;
     isSelectionMode := isSelectionMode st;
     deletingResults := deletingResults st;
     expandedSections := expandedSections st |}.

Definition setShowSavedResults (v : bool) (st : State) : State :=
  {| url' := url' st;
     isLoading := isLoading st;
     error := error st;
     successMessage := successMessage st;
     currentResult := currentResult st;
     savedResults := savedResults st;
     showSavedResults := v;
     loadingSavedResults := loadingSavedResults st;
     selectedResults := selectedResults st;
     isSelectionMode := isSelectionMode st;
     deletingResults := deletingResults st;
     expandedSections := expandedSections st |}.

Definition setLoadingSavedResults (v : bool) (st : State) : State :=
  {| url' := url' st;
     isLoading := isLoading st;
     error := error st;
     successMessage := successMessage st;
     currentResult := currentResult st;
     savedResults := savedResults st;
     showSavedResults := showSavedResults st;
     loadingSavedResults := v;
     selectedResults := selectedResults st;
     isSelectionMode := isSelectionMode st;
     deletingResults := deletingResults st;
     expandedSections := expandedSections st |}.

Definition setSelectedResults (v : StrSet) (st : State) : State :=
  {| url' := url' st;
     isLoading := isLoading st;
     error := error st;
     successMessage := successMessage st;
     currentResult := currentResult st;
     savedResults := savedResults st;
     showSavedResults := showSavedResults st;
     loadingSavedResults := loadingSavedResults st;
     selectedResults := v;
     isSelectionMode := isSelectionMode st;
     deletingResults := deletingResults st;
     expandedSections := expandedSections st |}.

Definition setIsSelectionMode (v : bool) (st : State) : State :=
  {| url' := url' st;
     isLoading := isLoading st;
     error := error st;
     successMessage := successMessage st;
     currentResult := currentResult st;
     savedResults := savedResults st;
     showSavedResults := showSavedResults st;
     loadingSavedResults := loadingSavedResults st;
     selectedResults := selectedResults st;
     isSelectionMode := v;
     deletingResults := deletingResults st;
     expandedSections := expandedSections st |}.

Definition setDeletingResults (v : StrSet) (st : State) : State :=
  {| url' := url' st;
     isLoading := isLoading st;
     error := error st;
     successMessage := successMessage st;
     currentResult := currentResult st;
     savedResults := savedResults st;
     showSavedResults := showSavedResults st;
     loadingSavedResults := loadingSavedResults st;
     selectedResults := selectedResults st;
     isSelectionMode := isSelectionMode st;
     deletingResults := v;
     expandedSections := expandedSections st |}.

Definition setExpandedSections (v : bool * bool) (st : State) : State :=
  {| url' := url' st;
     isLoading := isLoading st;
     error := error st;
     successMessage := successMessage st;
     currentResult := currentResult st;
     savedResults := savedResults st;
     showSavedResults := showSavedResults st;
     loadingSavedResults := loadingSavedResults st;
     selectedResults := selectedResults st;
     isSelectionMode := isSelectionMode st;
     deletingResults := deletingResults st;
     expandedSections := v |}.

(** The deletions asked of the store. *)
Inductive StoreCall : Type :=
| DeleteOfUser                     (* .delete().eq('user_id', user.id) *)
| DeleteIn (ids : list str)        (* .delete().in('id', ids) *)
| DeleteOne (resultId : str).      (* .delete().eq('id', resultId) *)

(** [toggleResultSelection(resultId)] *)
Definition toggleResultSelection (resultId : str) (st : State) : State :=
  let prev := selectedResults st in
  setSelectedResults
    (if has prev resultId then delete prev resultId else add prev resultId) st.

(** [toggleSelectAll()] *)
Definition toggleSelectAll (st : State) : State :=
  if (size (selectedResults st) =? length (savedResults st))%nat then
    setSelectedResults [] st
  else
    setSelectedResults (newSet (map id (savedResults st))) st.

(** [exitSelectionMode()] *)
Definition exitSelectionMode (st : State) : State :=
  setSelectedResults [] (setIsSelectionMode false st).

(** [viewSavedResult(result)] *)
Definition viewSavedResult (result : ScrapedResult) (st : State) : State :=
  if isSelectionMode st then toggleResultSelection (id result) st
  else
    setExpandedSections (true, true)
      (setShowSavedResults false (setCurrentResult (Some result) st)).

(** [toggleSection(section)]; [true] stands for ['headings'] and [false] for
    ['links']. *)
Definition toggleSection (section : bool) (st : State) : State :=
  let prev := expandedSections st in
  setExpandedSections
    (if section then (negb (fst prev), snd prev) else (fst prev, negb (snd prev))) st.

(** The message of [deleteSelectedResults] after [count] deletions. *)
Definition deleted_message (count : nat) : str :=
  ofNat count ++ lit " result" ++ (if (1 <? count)%nat then lit "s" else [])
  ++ lit " deleted successfully!".

(** [clearSavedResults()]: [confirmed] is the answer to [confirm], [failed]
    tells whether the store answers with an error or the call is
    rejected. *)
Definition clearSavedResults (confirmed failed : bool) (st : State)
  : State * list StoreCall :=
  if negb confirmed then (st, [])
  else if failed then
    (setError (lit "Failed to clear saved results. Please try again.") st, [DeleteOfUser])
  else
    (setSuccessMessage (lit "All saved results cleared successfully!")
       (setShowSavedResults false (setSavedResults [] st)),
     [DeleteOfUser]).

(** [deleteSelectedResults()] *)
Definition deleteSelectedResults (confirmed failed : bool) (st : State)
  : State * list StoreCall :=
  let selected := selectedResults st in
  if (size selected =? 0)%nat then (st, [])
  else
    let count := size selected in
    if negb confirmed then (st, [])
    else
      let st1 := setDeletingResults selected st in
      let st2 :=
        if failed then
          setError (lit "Failed to delete selected results. Please try again.") st1
        else
          setSuccessMessage (deleted_message count)
            (setIsSelectionMode false
               (setSelectedResults []
                  (setSavedResults
                     (filter (fun result => negb (has selected (id result)))
                        (savedResults st1))
                     st1))) in
      (setDeletingResults [] st2, [DeleteIn selected]).

(** [deleteIndividualResult(resultId, e)] *)
Definition deleteIndividualResult (resultId : str) (confirmed failed : bool) (st : State)
  : State * list StoreCall :=
  if negb confirmed then (st, [])
  else
    let st1 := setDeletingResults (newSet [resultId]) st in
    let st2 :=
      if failed then setError (lit "Failed to delete result. Please try again.") st1
      else
        setSuccessMessage (lit "Result deleted successfully!")
          (setSelectedResults (delete (selectedResults st1) resultId)
             (setSavedResults
                (filter (fun result => negb (str_eqb (id result) resultId))
                   (savedResults st1))
                st1)) in
    (setDeletingResults (delete (deletingResults st2) resultId) st2, [DeleteOne resultId]).

(** A row of [scraped_results] as the client reads it: the title, the
    headings and the links may be null. *)
Record Item : Type := {
  item_id : str;
  item_url : str;
  item_title : option str;
  item_headings : option (list str);
  item_links : option (list Extractor.Link);
  created_at : str
}.

(** The callback of [data.map] in [loadSavedResults]. *)
Definition formatted (item : Item) : ScrapedResult := {|
  id := item_id item;
  url := item_url item;
  title := orElse (match item_title item with Some t => t | None => [] end)
             (lit "Untitled");
  headings := match item_headings item with Some hs => hs | None => [] end;
  links := match item_links item with Some ls => ls | None => [] end;
  timestamp := created_at item
|}.

(** [loadSavedResults()]: [answer] is the rows the store returns, or nothing
    when the store answers with an error, the call is rejected or the data
    is null. *)
Definition loadSavedResults (answer : option (list Item)) (st : State) : State :=
  let st1 := setLoadingSavedResults true st in
  let st2 :=
    match answer with
    | Some data => setSavedResults (map formatted data) st1
    | None => st1
    end in
  setLoadingSavedResults false st2.

(** What [handleSubmit] gets from the scraping function: the call or the
    reading of the reply throws; or the reply says [success: false], with
    an error that may be empty; or it says [success: true], with the result
    in [data]. *)
Inductive ScrapeReply : Type :=
| ScrapeThrows (message : str)
| ScrapeFailure (error : str)
| ScrapeSuccess (data : ScrapedResult).

(** [handleSubmit(e)] on the state of the component; [session] tells whether
    [supabase.auth.getSession()] gave a session. *)
Definition handleSubmit (newURL : str -> option str -> option Extractor.URL)
           (session : bool) (reply : ScrapeReply) (st : State) : State :=
  let st0 := setSuccessMessage [] (setError [] st) in
  if negb (truthy (trim (url' st))) then setError (lit "Please enter a URL") st0
  else
    let normalizedUrl := Client.normalizeUrl (url' st) in
    if negb (Client.validateUrl newURL normalizedUrl) then
      setError (lit "Please enter a valid URL (e.g., google.com, www.example.com, or https://example.com)") st0
    else
      let st1 :=
        setShowSavedResults false
          (setCurrentResult None (setIsLoading true (setUrl normalizedUrl st0))) in
      let caught message :=
        setError (orElse message (lit "Failed to scrape website. Please try again.")) st1 in
      let st2 :=
        if negb session then caught (lit "Not authenticated")
        else
          match reply with
          | ScrapeThrows message => caught message
          | ScrapeFailure error => caught (orElse error (lit "Failed to scrape website"))
          | ScrapeSuccess scrapedResult =>
              setUrl []
                (setSuccessMessage (lit "Website scraped and saved successfully!")
                   (setSavedResults (scrapedResult :: savedResults st1)
                      (setCurrentResult (Some scrapedResult) st1)))
          end in
      setIsLoading false st2.

(** The selection names saved results only, and the saved results have
    distinct identifiers. *)
Definition selection_valid (st : State) : Prop :=
  NoDup (map id (savedResults st))
  /\ NoDup (selectedResults st)
  /\ incl (selectedResults st) (map id (savedResults st)).

(** The deletion asked of the store names the result. *)
Definition covers (call : StoreCall) (result : ScrapedResult) : bool :=
  match call with
  | DeleteOfUser => true
  | DeleteIn ids => has ids (id result)
  | DeleteOne resultId => str_eqb (id result) resultId
  end.

(** The results that a run removes from the list: those named by a deletion
    that the store carried out. *)
Definition removed (failed : bool) (calls : list StoreCall) (result : ScrapedResult) : bool :=
  negb failed && existsb (fun call => covers call result) calls.

End App.

(* ===================================================================== *)
(** ** The handler before the content and the summary were added *)
(* ===================================================================== *)

Module Legacy.

Import Extractor Pipeline.

(** interface ScrapedData *)
Record ScrapedData : Type := {
  title : str;
  headings : list str;
  links : list Link
}.

(** The row given to [insert]. *)
Record Row : Type := {
  user_id : str;
  row_url : str;
  row_title : str;
  row_headings : list str;
  row_links : list Link
}.

(** The row the store returns. *)
Record SavedRow : Type := {
  id : str;
  saved_url : str;
  saved_title : str;
  saved_headings : list str;
  saved_links : list Link;
  created_at : str
}.

Inductive Event : Type :=
| EvGetUser (token : str)
| EvFetchPage (target : str)
| EvInsert (row : Row).

Inductive Body : Type :=
| NoBody
| Success (saved : SavedRow)
| Failure (error : str).

Record Response : Type := { statusCode : nat; body : Body }.

(** [parseHtml(html, baseUrl)]: the title, the headings and the links are
    extracted by the statements of the later version. *)
Definition parseHtml (newURL : str -> option str -> option URL) (html baseUrl : str)
  : option ScrapedData :=
  let title := extractTitle html in
  let headings := extractHeadings html in
  match extractLinks newURL html baseUrl with
  | None => None
  | Some links => Some {| title := title; headings := headings; links := links |}
  end.

(** The [catch] block. *)
Definition caught (message : str) (tr : list Event) : Response * list Event :=
  ({| statusCode := 400;
      body := Failure (orElse message (lit "An unexpected error occurred")) |}, tr).

(** The handler given to [Deno.serve]; [insertRow] is the store of this
    version, the other collaborators are those of [w]. *)
Definition handler (w : World) (insertRow : Row -> str + SavedRow)
  : Response * list Event :=
  if str_eqb (method w) (lit "OPTIONS") then ({| statusCode := 200; body := NoBody |}, [])
  else
    match authorization w with
    | None => caught (lit "No authorization header") []
    | Some authHeader =>
        if truthy authHeader then
          let token := replaceFirst (lit "Bearer ") [] authHeader in
          let tr1 := [EvGetUser token] in
          let reply := getUser w token in
          match user reply with
          | None => caught (lit "Invalid authentication") tr1
          | Some user_id =>
              if authError reply then caught (lit "Invalid authentication") tr1
              else
                match requestJson w with
                | None => caught (lit "Unexpected end of JSON input") tr1
                | Some None => caught (lit "URL is required") tr1
                | Some (Some url) =>
                    if truthy url then
                      match newURL w url None with
                      | None => caught (lit "Invalid URL format") tr1
                      | Some targetUrl =>
                          let tr2 := tr1 ++ [EvFetchPage (href targetUrl)] in
                          match fetchPage w (href targetUrl) with
                          | Rejected message => caught message tr2
                          | Responded status html =>
                              if negb (ok status) then
                                caught (lit "Failed to fetch webpage: " ++ ofNat status) tr2
                              else
                                match parseHtml (newURL w) html (href targetUrl) with
                                | None => caught (lit "Invalid URL") tr2
                                | Some scrapedData =>
                                    let row := {|
                                      user_id := user_id;
                                      row_url := href targetUrl;
                                      row_title := title scrapedData;
                                      row_headings := headings scrapedData;
                                      row_links := links scrapedData
                                    |} in
                                    let tr3 := tr2 ++ [EvInsert row] in
                                    match insertRow row with
                                    | inl message =>
                                        caught (lit "Database error: " ++ message) tr3
                                    | inr savedResult =>
                                        ({| statusCode := 200; body := Success savedResult |},
                                         tr3)
                                    end
                                end
                          end
                      end
                    else caught (lit "URL is required") tr1
                end
          end
        else caught (lit "No authorization header") []
    end.

(** What a row of the later version keeps of it in this one. *)
Definition earlier_row (row : Pipeline.Row) : Row := {|
  user_id := Pipeline.user_id row;
  row_url := Pipeline.row_url row;
  row_title := Pipeline.row_title row;
  row_headings := Pipeline.row_headings row;
  row_links := Pipeline.row_links row
|}.

(** The calls of the later version that this one makes too. *)
Fixpoint earlier_calls (tr : list Pipeline.Event) : list Event :=
  match tr with
  | [] => []
  | Pipeline.EvGetUser token :: t => EvGetUser token :: earlier_calls t
  | Pipeline.EvFetchPage target :: t => EvFetchPage target :: earlier_calls t
  | Pipeline.EvOpenAI _ :: t => earlier_calls t
  | Pipeline.EvInsert row :: t => EvInsert (earlier_row row) :: earlier_calls t
  end.

(** The error of a reply, when it is a failure. *)
Definition error_of (r : Response) : option str :=
  match body r with
  | Failure error => Some error
  | _ => None
  end.

Definition later_error_of (r : Pipeline.Response) : option str :=
  match Pipeline.body r with
  | Pipeline.Failure error => Some error
  | _ => None
  end.

(** The two stores answer alike: both accept the row, or both refuse it
    with the same message. *)
Definition stores_agree (w : World) (insertRow : Row -> str + SavedRow) : Prop :=
  forall row,
    match Pipeline.insertRow w row, insertRow (earlier_row row) with
    | inl message, inl message' => message = message'
    | inr _, inr _ => True
    | _, _ => False
    end.

End Legacy.

(* ===================================================================== *)
(** ** The vocabulary of the further properties *)
(* ===================================================================== *)

Module Invariants.

Import Pipeline Spec.

(** The calls of one run, in the orders in which the handler makes them. *)
Definition calls_in_order (tr : list Event) : bool :=
  match tr with
  | [] => true
  | [EvGetUser _] => true
  | [EvGetUser _; EvFetchPage _] => true
  | [EvGetUser _; EvFetchPage _; EvInsert _] => true
  | [EvGetUser _; EvFetchPage _; EvOpenAI _; EvInsert _] => true
  | _ => false
  end.

(** The rows written during a run. *)
Fixpoint rows_written (tr : list Event) : list Row :=
  match tr with
  | [] => []
  | EvInsert row :: t => row :: rows_written t
  | _ :: t => rows_written t
  end.

(** The summary the enricher gives when the service answers nothing. *)
Definition summary_fallback : str := lit "Summary could not be generated.".

(** The reply to a request that failed. *)
Definition fail (message : str) : Response :=
  {| statusCode := 400; body := Failure message |}.

(** The text between a [>] at the head of [s] and the next [<], when it has
    [mn] characters or more; nothing when [s] does not start with [>] or
    holds no [<] after it. *)
Definition text_after (mn : nat) (s : str) : option str :=
  match s with
  | [] => None
  | c :: r =>
      if (c =? gt)%N then
        if (mn <=? length (fst (span (is_not lt) r)))%nat then
          match snd (span (is_not lt) r) with
          | [] => None
          | _ :: _ => Some (fst (span (is_not lt) r))
          end
        else None
      else None
  end.

(** The value of the first quoted [href=] of a matched anchor starts with a
    slash: the case in which the extractor reads the base URL. *)
Definition rooted (m : str) : bool :=
  match exec true Extractor.href_re m with
  | Some hrefMatch => startsWith (lit "/") (capture 1 hrefMatch)
  | None => false
  end.

End Invariants.

(* ===================================================================== *)
(** ** Further requests and states, for the examples *)
(* ===================================================================== *)

Module Cases.

Import Pipeline Examples.

(** The service answers with one choice. *)
Definition world_summarized : World :=
  world (Some (lit "sk-test")) 200 (Responded 200 (Json (Some [Text (lit " A page. ")]))).

(** A request with the header [auth] and the body [json], for which the page
    answers [page]; no key is configured. *)
Definition request (auth : option str) (json : option (option str))
           (page : FetchResult str) : World := {|
  OPENAI_API_KEY := None;
  newURL := Platform.newURL;
  method := lit "POST";
  authorization := auth;
  getUser := fun _ => {| user := Some (lit "user-1"); authError := false |};
  requestJson := json;
  fetchPage := fun _ => page;
  fetchOpenAI := fun _ => Rejected (lit "not called");
  insertRow := fun row => inr (stored row)
|}.

Definition world_without_header : World :=
  request None (Some (Some base)) (Responded 200 doc_scenario).
Definition world_without_url : World :=
  request (Some (lit "Bearer token-1")) (Some None) (Responded 200 doc_scenario).
Definition world_unreachable : World :=
  request (Some (lit "Bearer token-1")) (Some (Some base))
    (Rejected (lit "connection refused")).

(** A text without any tag, with a tab and a line end. *)
Definition doc_plain : str := lit "Plain" ++ [9%N; newline] ++ lit "text".

(** Two saved results, the first of which is selected. *)
Definition result_of (resultId : str) : App.ScrapedResult := {|
  App.id := resultId;
  App.url := base;
  App.title := lit "Untitled";
  App.headings := [lit "A"];
  App.links := [];
  App.timestamp := lit "2025-07-04T18:09:02Z"
|}.

Definition state_one_selected : App.State := {|
  App.url' := [];
  App.isLoading := false;
  App.error := [];
  App.successMessage := [];
  App.currentResult := None;
  App.savedResults := [result_of (lit "r1"); result_of (lit "r2")];
  App.showSavedResults := true;
  App.loadingSavedResults := false;
  App.selectedResults := [lit "r1"];
  App.isSelectionMode := true;
  App.deletingResults := [];
  App.expandedSections := (true, true)
|}.

End Cases.

(* ===================================================================== *)
(** ** Lists of characters *)
(* ===================================================================== *)

Import Spec Pipeline Client Examples.

Section Lists.

Variable p : N -> bool.

(** [span] splits the text, its first part satisfies [p] throughout, and
    what follows starts with a character that fails [p]. *)
Lemma span_app (s : str) : fst (span p s) ++ snd (span p s) = s.
Proof.
  induction s as [|c t IH]; simpl; [reflexivity|].
  destruct (p c); [|reflexivity].
  destruct (span p t) as [w r]; simpl in *. now rewrite IH.
Qed.

Lemma span_all (s : str) : forallb p (fst (span p s)) = true.
Proof.
  induction s as [|c t IH]; simpl; [reflexivity|].
  destruct (p c) eqn:E; [|reflexivity].
  destruct (span p t) as [w r]; simpl in *. now rewrite E, IH.
Qed.

Lemma span_stop (s : str) :
  match snd (span p s) with [] => True | c :: _ => p c = false end.
Proof.
  induction s as [|c t IH]; simpl; [exact I|].
  destruct (p c) eqn:E; [|exact E].
  destruct (span p t) as [w r]; simpl in *. exact IH.
Qed.

(** The split at the first failure is the one [span] finds. *)
Lemma span_unique (w r : str) :
  forallb p w = true ->
  match r with [] => True | c :: _ => p c = false end ->
  span p (w ++ r) = (w, r).
Proof.
  intros Hw Hr. induction w as [|c w IH]; simpl in *.
  - destruct r as [|c r]; [reflexivity|]. simpl. now rewrite Hr.
  - apply andb_prop in Hw as [Hc Hw]. rewrite Hc, (IH Hw). reflexivity.
Qed.

(** Two splits of one text at the first character that fails [p] agree. *)
Lemma first_failure_unique (a1 a2 b1 b2 : str) (c1 c2 : N) :
  a1 ++ c1 :: b1 = a2 ++ c2 :: b2 ->
  forallb p a1 = true -> forallb p a2 = true ->
  p c1 = false -> p c2 = false ->
  a1 = a2 /\ c1 = c2 /\ b1 = b2.
Proof.
  intros E H1 H2 F1 F2.
  assert (S1 := span_unique a1 (c1 :: b1) H1 F1).
  assert (S2 := span_unique a2 (c2 :: b2) H2 F2).
  rewrite E in S1. rewrite S1 in S2. inversion S2. auto.
Qed.

(** A prefix free of failures stays before the first failure. *)
Lemma prefix_before_failure (x r a b : str) (c : N) :
  x ++ r = a ++ c :: b ->
  forallb p x = true -> p c = false ->
  exists a', a = x ++ a' /\ r = a' ++ c :: b.
Proof.
  revert a. induction x as [|d x IH]; intros a E Hx Hc; simpl in *.
  - exists a. auto.
  - apply andb_prop in Hx as [Hd Hx].
    destruct a as [|d' a]; simpl in E; inversion E; subst.
    + congruence.
    + destruct (IH a H1 Hx Hc) as (a' & -> & ->). exists a'. auto.
Qed.

Lemma dropWhile_idem (s : str) : dropWhile p (dropWhile p s) = dropWhile p s.
Proof.
  induction s as [|c t IH]; simpl; [reflexivity|].
  destruct (p c) eqn:E; [exact IH|]. simpl. now rewrite E.
Qed.

Lemma dropWhile_head (s : str) :
  match dropWhile p s with [] => True | c :: _ => p c = false end.
Proof.
  induction s as [|c t IH]; simpl; [exact I|].
  destruct (p c) eqn:E; [exact IH|exact E].
Qed.

Lemma dropWhile_snoc (s : str) (c : N) :
  p c = false -> exists x, dropWhile p (s ++ [c]) = x ++ [c].
Proof.
  intros Hc. induction s as [|d s [x IH]]; simpl.
  - rewrite Hc. now exists [].
  - destruct (p d); [now exists x|]. now exists (d :: s).
Qed.

End Lists.

Lemma span_ext (p q : N -> bool) (s : str) :
  (forall c, p c = q c) -> span p s = span q s.
Proof.
  intros E. induction s as [|c t IH]; [reflexivity|]. cbn. now rewrite E, IH.
Qed.

Lemma forallb_ext (p q : N -> bool) (l : str) :
  (forall c, p c = q c) -> forallb p l = forallb q l.
Proof. intros E. induction l as [|c l IH]; [reflexivity|]. cbn. now rewrite E, IH. Qed.

Lemma app_same_length (a b x y : str) :
  length a = length b -> a ++ x = b ++ y -> a = b /\ x = y.
Proof.
  revert b. induction a as [|c a IH]; intros [|d b] Hl E; try discriminate; [auto|].
  cbn in *. injection E as -> E. injection Hl as Hl.
  destruct (IH b Hl E) as [-> ->]. auto.
Qed.

Lemma firstn_consumed (w r : str) : firstn (length (w ++ r) - length r) (w ++ r) = w.
Proof.
  rewrite length_app, Nat.add_sub, firstn_app, Nat.sub_diag, firstn_all.
  cbn [firstn]. apply app_nil_r.
Qed.

Lemma firstn_In (A : Type) (n : nat) (l : list A) (a : A) : In a (firstn n l) -> In a l.
Proof.
  revert l. induction n as [|n IH]; intros [|b l]; cbn; try tauto.
  intros [->|H]; auto.
Qed.

Lemma flat_map_map (A B C : Type) (f : B -> list C) (g : A -> B) (l : list A) :
  flat_map f (map g l) = flat_map (fun x => f (g x)) l.
Proof. induction l as [|a l IH]; [reflexivity|]. cbn. now rewrite IH. Qed.

(** *** Trimming *)

Lemma trimStart_fixed (s : str) :
  match s with [] => True | c :: _ => is_space c = false end -> trimStart s = s.
Proof. unfold trimStart. destruct s as [|c s]; simpl; [reflexivity|]. now intros ->. Qed.

Lemma trimEnd_idem (s : str) : trimEnd (trimEnd s) = trimEnd s.
Proof. unfold trimEnd. now rewrite rev_involutive, dropWhile_idem. Qed.

Lemma trimEnd_head (c : N) (s : str) :
  is_space c = false -> exists x, trimEnd (c :: s) = c :: x.
Proof.
  intros Hc. unfold trimEnd. simpl.
  destruct (dropWhile_snoc is_space (rev s) c Hc) as [x ->].
  rewrite rev_app_distr. simpl. now exists (rev x).
Qed.

(** Trimming twice is trimming once. *)
Lemma trim_idem (s : str) : trim (trim s) = trim s.
Proof.
  unfold trim.
  assert (H : trimStart (trimEnd (trimStart s)) = trimEnd (trimStart s)).
  { unfold trimStart at 2 3. assert (Hd := dropWhile_head is_space s).
    destruct (dropWhile is_space s) as [|c t]; [reflexivity|].
    destruct (trimEnd_head c t Hd) as [x ->]. apply trimStart_fixed. exact Hd. }
  rewrite H. apply trimEnd_idem.
Qed.

(** *** Prefixes up to case *)

Lemma prefix_ci_app (a b s : str) :
  prefix_ci (a ++ b) s = prefix_ci a s && prefix_ci b (skipn (length a) s).
Proof.
  revert s. induction a as [|x a IH]; intros s; [reflexivity|].
  destruct s as [|c s]; [reflexivity|]. cbn. rewrite IH. now rewrite andb_assoc.
Qed.

Lemma eqb_ci_prefix (a o r : str) : eqb_ci a o = true -> prefix_ci a (o ++ r) = true.
Proof.
  unfold eqb_ci. intros H. apply andb_prop in H as [_ H]. revert o H.
  induction a as [|x a IH]; intros o H; [reflexivity|].
  destruct o as [|c o]; [discriminate|]. cbn in *.
  apply andb_prop in H as [-> H]. now apply IH.
Qed.

Lemma eqb_ci_length (a o : str) : eqb_ci a o = true -> length o = length a.
Proof.
  unfold eqb_ci. intros H. apply andb_prop in H as [H _].
  now apply Nat.eqb_eq in H.
Qed.

Lemma first_at_skip (A : Type) (f : str -> option A) (p r : str) :
  (forall i, (i < length p)%nat -> f (skipn i (p ++ r)) = None) ->
  first_at f (p ++ r) = first_at f r.
Proof.
  induction p as [|c p IH]; intros H; [reflexivity|].
  assert (H0 := H 0%nat). cbn [skipn length] in H0.
  cbn [app first_at] in *. rewrite H0 by lia.
  apply IH. intros i Hi. apply (H (S i)). cbn. lia.
Qed.

Lemma first_at_none (A : Type) (f : str -> option A) (s : str) :
  (forall i, f (skipn i s) = None) -> first_at f s = None.
Proof.
  induction s as [|c s IH]; intros H; assert (H0 := H 0%nat);
    cbn [skipn] in H0; cbn [first_at]; rewrite H0; [reflexivity|].
  apply IH. intros i. apply (H (S i)).
Qed.

(** *** The array methods *)

Lemma mapM_total (A B : Type) (f : A -> option B) (l : list A) :
  (forall a, f a <> None) -> mapM f l <> None.
Proof.
  intros H. induction l as [|a l IH]; cbn; [discriminate|].
  specialize (H a). destruct (f a); [|congruence].
  destruct (mapM f l); [discriminate|congruence].
Qed.

Lemma mapM_In (A B : Type) (f : A -> option B) (l : list A) (bs : list B) (b : B) :
  mapM f l = Some bs -> In b bs -> exists a, In a l /\ f a = Some b.
Proof.
  revert bs. induction l as [|a l IH]; intros bs; cbn [mapM].
  - intros E. injection E as <-. intros [].
  - destruct (f a) as [b0|] eqn:Ea; [|discriminate].
    destruct (mapM f l) as [bs0|]; [|discriminate].
    intros E. injection E as <-. intros [<-|Hin].
    + exists a. split; [now left|exact Ea].
    + destruct (IH bs0 eq_refl Hin) as (a' & Ha & E'). exists a'. split; [now right|exact E'].
Qed.

Lemma filterSome_keeps (A : Type) (p : A -> bool) (l : list (option A)) (a : A) :
  In a (filterSome p l) -> In (Some a) l /\ p a = true.
Proof.
  induction l as [|[b|] l IH]; cbn; [tauto| |].
  - destruct (p b) eqn:E.
    + intros [->|H]; [auto|]. destruct (IH H). auto.
    + intros H. destruct (IH H). auto.
  - intros H. destruct (IH H). auto.
Qed.

(* ===================================================================== *)
(** ** The characters of the patterns *)
(* ===================================================================== *)

Ltac char_cases c :=
  unfold atom_matches, any_of, none_of, item_matches, canonicalize, is_not,
    is_quote, quotes, gt, lt, dquote, squote; cbn -[N.eqb N.leb N.sub N.add];
  repeat match goal with
         | |- context [N.leb ?a ?b] => destruct (N.leb_spec a b); cbn -[N.eqb N.leb N.sub N.add]
         | |- context [N.eqb ?a ?b] => destruct (N.eqb_spec a b); cbn -[N.eqb N.leb N.sub N.add]
         end; try reflexivity; try lia.

(** The classes of the patterns, with or without the i flag. *)
Lemma none_of_gt (ic : bool) (c : N) : atom_matches ic (none_of [gt]) c = is_not gt c.
Proof. destruct ic; char_cases c. Qed.

Lemma none_of_lt (ic : bool) (c : N) : atom_matches ic (none_of [lt]) c = is_not lt c.
Proof. destruct ic; char_cases c. Qed.

Lemma any_of_quotes (ic : bool) (c : N) : atom_matches ic (any_of quotes) c = is_quote c.
Proof. destruct ic; char_cases c. Qed.

Lemma none_of_quotes (ic : bool) (c : N) :
  atom_matches ic (none_of quotes) c = negb (is_quote c).
Proof. destruct ic; char_cases c. Qed.

Lemma literal_matches (a c : N) :
  atom_matches true (Atom false [CChar a]) c
  = (canonicalize true a =? canonicalize true c)%N.
Proof. unfold atom_matches. simpl. now rewrite orb_false_r. Qed.

Lemma chr_matches (b c : N) :
  (b <? 97)%N = true \/ (122 <? b)%N = true ->
  (b <? 65)%N = true \/ (90 <? b)%N = true ->
  forall ic, atom_matches ic (Atom false [CChar b]) c = (c =? b)%N.
Proof.
  intros H1 H2 ic. apply eq_true_iff_eq.
  unfold atom_matches, item_matches, canonicalize. cbn -[N.eqb N.leb N.sub N.ltb].
  rewrite orb_false_r, N.eqb_eq, N.eqb_eq.
  destruct ic; cbn -[N.eqb N.leb N.sub N.ltb];
    repeat match goal with
           | |- context [N.leb ?a ?b] => destruct (N.leb_spec a b); cbn -[N.eqb N.leb N.sub N.ltb]
           end;
    rewrite ?N.ltb_lt in *; lia.
Qed.

Lemma chr_gt (ic : bool) (c : N) : atom_matches ic (Atom false [CChar gt]) c = (c =? gt)%N.
Proof. apply chr_matches; left; reflexivity. Qed.

Lemma chr_lt (ic : bool) (c : N) : atom_matches ic (Atom false [CChar lt]) c = (c =? lt)%N.
Proof. apply chr_matches; left; reflexivity. Qed.

(** Only a character that is not a letter canonicalizes to itself alone. *)
Lemma canonicalize_not_letter (c x : N) :
  is_alpha x = false -> canonicalize true c = canonicalize true x -> c = x.
Proof.
  unfold is_alpha, canonicalize. cbn -[N.leb N.sub].
  repeat match goal with
         | |- context [N.leb ?a ?b] => destruct (N.leb_spec a b); cbn -[N.leb N.sub]
         end; try discriminate; lia.
Qed.

(** A text equal to a pattern up to case holds a character that is not a
    letter only where the pattern does. *)
Lemma ci_free (x : N) (l s : str) :
  is_alpha x = false ->
  eqb_ci l s = true -> forallb (is_not x) l = true -> forallb (is_not x) s = true.
Proof.
  intros Hx. unfold eqb_ci. revert s.
  induction l as [|a l IH]; intros [|c s] H Hl; try discriminate; [reflexivity|].
  cbn [length Nat.eqb prefix_ci forallb] in *.
  apply andb_prop in H as [Hlen H]. apply andb_prop in H as [Hc H].
  apply andb_prop in Hl as [Ha Hl].
  rewrite (IH s) by (try rewrite Hlen, H; auto). rewrite andb_true_r.
  unfold is_not in *. destruct (N.eqb_spec c x) as [->|]; [|reflexivity].
  apply N.eqb_eq in Hc. apply (canonicalize_not_letter a x Hx) in Hc.
  subst a. now rewrite N.eqb_refl in Ha.
Qed.

Lemma quote_is_not (x q : N) : is_quote x = false -> is_quote q = true -> is_not x q = true.
Proof.
  unfold is_not. destruct (N.eqb_spec q x) as [->|]; [|reflexivity]. now intros ->.
Qed.

(* ===================================================================== *)
(** ** The matcher *)
(* ===================================================================== *)


(** *** On the parts the patterns are made of *)

(** A run of literal characters matches exactly when the text starts with
    it, up to case, and then in one way only. *)
Lemma run_chars (l sn td : str) (gs : list (nat * str)) :
  run true (chars l) (MState sn td gs)
  = if prefix_ci l td
    then [MState (rev (firstn (length l) td) ++ sn) (skipn (length l) td) gs]
    else [].
Proof.
  revert sn td. induction l as [|a l IH]; intros sn td; [reflexivity|].
  cbn [chars run chr todo seen groups]. destruct td as [|c t]; [reflexivity|].
  rewrite literal_matches. cbn [prefix_ci].
  destruct (canonicalize true a =? canonicalize true c)%N; [|reflexivity].
  cbn [flat_map andb]. rewrite IH, app_nil_r.
  destruct (prefix_ci l t); [|reflexivity].
  cbn [length firstn skipn rev]. now rewrite <- app_assoc.
Qed.

Lemma run_word (l : string) (sn td : str) (gs : list (nat * str)) :
  run true (word l) (MState sn td gs)
  = if prefix_ci (lit l) td
    then [MState (rev (firstn (length (lit l)) td) ++ sn) (skipn (length (lit l)) td) gs]
    else [].
Proof. apply run_chars. Qed.

(** A one-character matcher followed by the rest of the pattern. *)
Lemma run_one_seq (ic : bool) (a : atom) (k : regex) (sn td : str) (gs : list (nat * str)) :
  run ic (Seq (One a) k) (MState sn td gs)
  = match td with
    | c :: t => if atom_matches ic a c then run ic k (MState (c :: sn) t gs) else []
    | [] => []
    end.
Proof.
  cbn [run todo seen groups]. destruct td as [|c t]; [reflexivity|].
  destruct (atom_matches ic a c); [|reflexivity]. cbn. apply app_nil_r.
Qed.

(** A repetition followed by something that cannot start with a character
    of the repetition stops exactly where these characters end. *)
Lemma rep_then (X : Type) (ic : bool) (a : atom) (g : bool)
      (K : str -> str -> list X) :
  (forall sn c t, atom_matches ic a c = true -> K sn (c :: t) = []) ->
  forall td mn sn,
    flat_map (fun e => K (fst e) (snd e)) (rep ic a mn None g sn td)
    = if (mn <=? length (fst (span (atom_matches ic a) td)))%nat
      then K (rev (fst (span (atom_matches ic a) td)) ++ sn)
             (snd (span (atom_matches ic a) td))
      else [].
Proof.
  intros HK. induction td as [|c t IH]; intros mn sn.
  - cbn. destruct mn; cbn; [now rewrite app_nil_r|reflexivity].
  - cbn [rep span]. destruct (atom_matches ic a c) eqn:E.
    + destruct (span (atom_matches ic a) t) as [w r] eqn:S.
      cbn [fst snd length rev]. rewrite <- app_assoc. cbn [app].
      specialize (IH (pred mn) (c :: sn)). cbn [fst snd] in IH.
      destruct mn as [|m]; cbn [Nat.eqb pred Nat.leb option_map] in *.
      * destruct g; rewrite flat_map_app, IH; cbn [flat_map fst snd];
          rewrite (HK sn c t E); cbn; now rewrite ?app_nil_r.
      * exact IH.
    + cbn [fst snd length rev app]. destruct mn; cbn; [now rewrite app_nil_r|reflexivity].
Qed.

Lemma rep_no_more (ic : bool) (a : atom) (mn : nat) (g : bool) (sn td : str) :
  rep ic a mn (Some 0%nat) g sn td = if (mn =? 0)%nat then [(sn, td)] else [].
Proof. destruct td; reflexivity. Qed.

(** An unbounded repetition followed by a pattern [k] that cannot start
    with a character of the repetition. *)
Lemma run_rep_seq (ic : bool) (a : atom) (mn : nat) (g : bool) (k : regex) :
  (forall sn c t gs, atom_matches ic a c = true -> run ic k (MState sn (c :: t) gs) = []) ->
  forall sn td gs,
    run ic (Seq (Rep a mn None g) k) (MState sn td gs)
    = if (mn <=? length (fst (span (atom_matches ic a) td)))%nat
      then run ic k (MState (rev (fst (span (atom_matches ic a) td)) ++ sn)
                       (snd (span (atom_matches ic a) td)) gs)
      else [].
Proof.
  intros HK sn td gs. cbn [run todo seen groups]. rewrite flat_map_map.
  apply (rep_then _ ic a g (fun sn' td' => run ic k (MState sn' td' gs))).
  intros. now apply HK.
Qed.

Lemma consumed_span (p : N -> bool) (sn sn' td : str) (gs gs' : list (nat * str)) :
  consumed (MState sn td gs) (MState sn' (snd (span p td)) gs') = fst (span p td).
Proof.
  unfold consumed. cbn [todo].
  rewrite <- (span_app p td) at 1 3. rewrite length_app, Nat.add_sub.
  rewrite firstn_app, Nat.sub_diag, firstn_all. cbn. apply app_nil_r.
Qed.

(** The same inside a capturing group. *)
Lemma run_group_rep_seq (ic : bool) (i : nat) (a : atom) (mn : nat) (g : bool) (k : regex) :
  (forall sn c t gs, atom_matches ic a c = true -> run ic k (MState sn (c :: t) gs) = []) ->
  forall sn td gs,
    run ic (Seq (Group i (Rep a mn None g)) k) (MState sn td gs)
    = if (mn <=? length (fst (span (atom_matches ic a) td)))%nat
      then run ic k (MState (rev (fst (span (atom_matches ic a) td)) ++ sn)
                       (snd (span (atom_matches ic a) td))
                       ((i, fst (span (atom_matches ic a) td)) :: gs))
      else [].
Proof.
  intros HK sn td gs. cbn [run todo seen groups]. rewrite !flat_map_map.
  rewrite (rep_then _ ic a g
            (fun sn' td' =>
               run ic k (set_group i (consumed (MState sn td gs) (MState sn' td' gs))
                           (MState sn' td' gs)))).
  - destruct (mn <=? _)%nat; [|reflexivity].
    unfold set_group. cbn [seen todo groups]. now rewrite consumed_span.
  - intros. unfold set_group. cbn [seen todo groups]. now apply HK.
Qed.

(** The search of a pattern goes through the positions from the left. *)
Lemma search_first_at (A : Type) (ic : bool) (r : regex) (g : result -> A)
      (f : str -> option A) :
  (forall sn td, option_map g (match_at ic r sn td) = f td) ->
  forall td sn, option_map g (search ic r sn td) = first_at f td.
Proof.
  intros H. induction td as [|c t IH]; intros sn; cbn [search first_at];
    rewrite <- (H sn); destruct (match_at ic r sn _); cbn; auto.
Qed.

(** *** What a match looks like *)

Lemma rep_sound (ic : bool) (a : atom) (g : bool) (td : str) :
  forall (mn : nat) (mx : option nat) (sn sn' td' : str),
    In (sn', td') (rep ic a mn mx g sn td) ->
    exists w, td = w ++ td' /\ sn' = rev w ++ sn
      /\ forallb (atom_matches ic a) w = true /\ (mn <= length w)%nat
      /\ match mx with Some k => (length w <= k)%nat | None => True end.
Proof.
  assert (Hstop : forall (mn : nat) (mx : option nat) (sn sn' td0 td' : str),
             In (sn', td') (if (mn =? 0)%nat then [(sn, td0)] else []) ->
             exists w, td0 = w ++ td' /\ sn' = rev w ++ sn
               /\ forallb (atom_matches ic a) w = true /\ (mn <= length w)%nat
               /\ match mx with Some k => (length w <= k)%nat | None => True end).
  { intros mn mx sn sn' td0 td' H. destruct mn; cbn in H; [|tauto].
    destruct H as [H|[]]. injection H as <- <-. exists [].
    repeat split; cbn; auto. destruct mx; [lia|exact I]. }
  induction td as [|c t IH]; intros mn mx sn sn' td' H.
  - apply (Hstop mn mx sn sn' [] td'). destruct mx as [[|k]|]; exact H.
  - cbn [rep] in H.
    assert (Hmore : In (sn', td') (rep ic a (pred mn) (option_map pred mx) g (c :: sn) t) ->
                    atom_matches ic a c = true -> mx <> Some 0%nat ->
                    exists w, c :: t = w ++ td' /\ sn' = rev w ++ sn
                      /\ forallb (atom_matches ic a) w = true /\ (mn <= length w)%nat
                      /\ match mx with Some k => (length w <= k)%nat | None => True end).
    { intros Hin Hc Hmx. destruct (IH _ _ _ _ _ Hin) as (w & -> & -> & Hw & Hmn & Hk).
      exists (c :: w). cbn [app rev length forallb]. rewrite <- app_assoc, Hc, Hw.
      repeat split; [lia|]. destruct mx as [[|k]|]; cbn in *; [congruence|lia|exact I]. }
    assert (Hbody : In (sn', td')
                      (if atom_matches ic a c
                       then if (mn =? 0)%nat
                            then (if g
                                  then rep ic a (pred mn) (option_map pred mx) g (c :: sn) t
                                       ++ (if (mn =? 0)%nat then [(sn, c :: t)] else [])
                                  else (if (mn =? 0)%nat then [(sn, c :: t)] else [])
                                       ++ rep ic a (pred mn) (option_map pred mx) g (c :: sn) t)
                            else rep ic a (pred mn) (option_map pred mx) g (c :: sn) t
                       else if (mn =? 0)%nat then [(sn, c :: t)] else []) ->
                    mx <> Some 0%nat ->
                    exists w, c :: t = w ++ td' /\ sn' = rev w ++ sn
                      /\ forallb (atom_matches ic a) w = true /\ (mn <= length w)%nat
                      /\ match mx with Some k => (length w <= k)%nat | None => True end).
    { intros Hin Hmx. destruct (atom_matches ic a c) eqn:Hc; [|now apply (Hstop mn mx) in Hin].
      destruct mn as [|m]; cbn [Nat.eqb] in Hin.
      - destruct g; apply in_app_or in Hin as [Hin|Hin];
          try (now apply Hmore); now apply (Hstop 0%nat mx) in Hin.
      - now apply Hmore. }
    destruct mx as [[|k]|].
    + now apply (Hstop mn (Some 0%nat)) in H.
    + apply Hbody; [exact H|discriminate].
    + apply Hbody; [exact H|discriminate].
Qed.

(** Every way the matcher finds consumes a text of the language of the
    pattern. *)
Lemma run_sound (ic : bool) (r : regex) :
  forall s s', In s' (run ic r s) ->
    exists w, todo s = w ++ todo s' /\ seen s' = rev w ++ seen s /\ denotes ic r w.
Proof.
  induction r as [|a|a mn mx g|r1 IH1 r2 IH2|r1 IH1 r2 IH2|i r1 IH1| |];
    intros s s' H; cbn [run denotes] in *.
  - destruct H as [<-|[]]. now exists [].
  - destruct (todo s) as [|c t] eqn:E; [destruct H|].
    destruct (atom_matches ic a c) eqn:Hc; [|destruct H].
    destruct H as [<-|[]]. exists [c]. cbn. split; [reflexivity|]. split; [reflexivity|].
    now exists c.
  - apply in_map_iff in H as ([sn' td'] & <- & H). cbn [fst snd todo seen].
    apply rep_sound in H as (w & E & -> & Hw). exists w. auto.
  - apply in_flat_map in H as (s1 & H1 & H2).
    destruct (IH1 _ _ H1) as (w1 & E1 & S1 & D1).
    destruct (IH2 _ _ H2) as (w2 & E2 & S2 & D2).
    exists (w1 ++ w2). rewrite E1, E2, S2, S1, rev_app_distr, !app_assoc.
    split; [reflexivity|]. split; [reflexivity|]. now exists w1, w2.
  - apply in_app_or in H as [H|H].
    + destruct (IH1 _ _ H) as (w & E & S & D). exists w. auto.
    + destruct (IH2 _ _ H) as (w & E & S & D). exists w. auto.
  - apply in_map_iff in H as (s1 & <- & H).
    destruct (IH1 _ _ H) as (w & E & S & D). exists w. auto.
  - destruct (xorb _ _); [|destruct H]. destruct H as [<-|[]]. now exists [].
  - destruct (seen s) eqn:E; [|destruct H]. destruct H as [<-|[]]. exists [].
    rewrite E. auto.
Qed.

Lemma match_at_sound (ic : bool) (r : regex) (sn td : str) (m : result) :
  match_at ic r sn td = Some m ->
  exists rest, td = whole m ++ rest /\ denotes ic r (whole m).
Proof.
  unfold match_at. destruct (run ic r (MState sn td [])) as [|e l] eqn:E; [discriminate|].
  intros H. injection H as <-.
  destruct (run_sound ic r (MState sn td []) e) as (w & Ht & _ & D).
  { rewrite E. now left. }
  cbn [todo] in Ht. exists (todo e). unfold consumed. cbn [whole todo].
  rewrite Ht, firstn_consumed. auto.
Qed.

(** Every match of a global search is a stretch of the text, and belongs to
    the language of the pattern. *)
Lemma scan_sound (ic : bool) (r : regex) (m : str) (td : str) :
  forall (skip : nat) (sn : str),
    In m (scan ic r skip sn td) ->
    exists p rest, td = p ++ m ++ rest /\ denotes ic r m.
Proof.
  induction td as [|c t IH]; intros skip sn H.
  - destruct skip; cbn [scan] in H; [|destruct H].
    destruct (match_at ic r sn []) as [x|] eqn:E; [|destruct H].
    destruct H as [<-|[]]. apply match_at_sound in E as (rest & E & D).
    exists [], rest. auto.
  - assert (Hnext : forall k, In m (scan ic r k (c :: sn) t) ->
                      exists p rest, c :: t = p ++ m ++ rest /\ denotes ic r m).
    { intros k Hk. destruct (IH _ _ Hk) as (p & rest & -> & D).
      exists (c :: p), rest. auto. }
    destruct skip; cbn [scan] in H; [|now apply (Hnext skip)].
    destruct (match_at ic r sn (c :: t)) as [x|] eqn:E; [|now apply (Hnext 0%nat)].
    destruct H as [<-|H]; [|now apply (Hnext (pred (length (whole x))))].
    apply match_at_sound in E as (rest & E & D). exists [], rest. auto.
Qed.

Lemma scan_nothing (ic : bool) (r : regex) (td : str) :
  (forall sn i, match_at ic r sn (skipn i td) = None) ->
  forall sn, scan ic r 0 sn td = [].
Proof.
  induction td as [|c t IH]; intros H sn; cbn [scan];
    assert (H0 := H sn 0%nat); cbn [skipn] in H0; rewrite H0; [reflexivity|].
  apply IH. intros sn' i. apply (H sn' (S i)).
Qed.

Lemma denotes_chars (l w : str) : denotes true (chars l) w -> eqb_ci l w = true.
Proof.
  revert w. induction l as [|a l IH]; intros w; cbn [chars denotes].
  - now intros ->.
  - intros (w1 & w2 & -> & (c & -> & Hc) & D). apply IH in D.
    unfold chr in Hc. rewrite literal_matches in Hc.
    unfold eqb_ci in *. cbn [app length prefix_ci Nat.eqb].
    apply andb_prop in D as [-> ->]. now rewrite Hc.
Qed.

(* ===================================================================== *)
(** ** The patterns of the source *)
(* ===================================================================== *)


(** *** The title pattern *)

(** At any position the title pattern matches exactly when a title element
    with a non-empty, tag-free inner text starts there, and captures this
    inner text. *)
Lemma match_title (sn td : str) :
  option_map (capture 1) (match_at true title_re sn td) = title_element td.
Proof.
  unfold match_at, title_re, title_element. cbn [seqs].
  change (run true (Seq (word "<title") ?k) ?s) with (flat_map (run true k) (run true (word "<title") s)).
  rewrite run_word. destruct (prefix_ci (lit "<title") td); [|reflexivity].
  cbn [flat_map]. rewrite app_nil_r. change (length (lit "<title")) with 6%nat.
  unfold star, plus, chr. rewrite run_rep_seq.
  2:{ intros sn' c t gs Hc. rewrite run_one_seq, chr_gt.
      rewrite none_of_gt in Hc. unfold is_not in Hc.
      now destruct (c =? gt)%N. }
  cbn [Nat.leb]. rewrite (span_ext _ _ (skipn 6 td) (none_of_gt true)).
  assert (Hstop := span_stop (is_not gt) (skipn 6 td)).
  destruct (snd (span (is_not gt) (skipn 6 td))) as [|c inner]; [reflexivity|].
  rewrite run_one_seq, chr_gt. unfold is_not in Hstop.
  destruct (c =? gt)%N; [|discriminate].
  rewrite run_group_rep_seq.
  2:{ intros sn' c' t gs Hc. rewrite none_of_lt in Hc. unfold is_not in Hc.
      change (run true (Seq (word "</title>") Eps) ?s)
        with (flat_map (run true Eps) (run true (word "</title>") s)).
      rewrite run_word. cbn -[N.eqb canonicalize].
      rewrite <- (literal_matches 60 c'). change 60%N with lt. rewrite chr_lt.
      now destruct (c' =? lt)%N. }
  rewrite (span_ext _ _ inner (none_of_lt true)).
  destruct (span (is_not lt) inner) as [t r]. cbn [fst snd].
  destruct t as [|c0 t]; [reflexivity|]. cbn [length Nat.leb truthy andb].
  change (run true (Seq (word "</title>") Eps) ?s)
    with (flat_map (run true Eps) (run true (word "</title>") s)).
  rewrite run_word. destruct (prefix_ci (lit "</title>") r); [|reflexivity].
  reflexivity.
Qed.

(** The title the extractor finds is the one of the first title element, in
    the order of the positions of the document. *)
Lemma extractTitle_first (html : str) :
  extractTitle html
  = match first_at title_element html with
    | Some t => trim t
    | None => lit "Untitled"
    end.
Proof.
  unfold extractTitle, exec.
  rewrite <- (search_first_at _ true title_re (capture 1) title_element match_title html []).
  now destruct (search true title_re [] html).
Qed.

(** A title element whose inner text is empty, or is followed by something
    else than [</title>], is not one the pattern matches. *)
Lemma title_element_rejected (o A T s : str) :
  eqb_ci (lit "<title") o = true ->
  forallb (is_not gt) A = true ->
  forallb (is_not lt) T = true ->
  T = [] \/ prefix_ci (lit "/title>") s = false ->
  title_element (o ++ A ++ [gt] ++ T ++ [lt] ++ s) = None.
Proof.
  intros Ho HA HT Hs. unfold title_element.
  rewrite eqb_ci_prefix by exact Ho.
  replace 6%nat with (length o) by (rewrite (eqb_ci_length _ _ Ho); reflexivity).
  rewrite skipn_app, skipn_all, Nat.sub_diag. cbn [app skipn].
  rewrite (span_unique (is_not gt) A (gt :: T ++ lt :: s) HA eq_refl). cbn [snd app].
  rewrite (span_unique (is_not lt) T (lt :: s) HT eq_refl).
  destruct Hs as [->|Hs]; [reflexivity|].
  change (lit "</title>") with (lt :: lit "/title>"). cbn [prefix_ci].
  rewrite Hs. now rewrite !andb_false_r.
Qed.

(** *** The link pattern *)

(** The texts of the language of the link pattern. *)
Lemma link_re_shape (m : str) : denotes true link_re m -> link_shape m.
Proof.
  unfold link_re. cbn [seqs denotes star plus chr word].
  intros (o & r1 & -> & Do & x & r2 & -> & (Hx & Hxn & _) & h & r3 & -> & Dh
          & q1 & r4 & -> & (q & -> & Hq) & v & r5 & -> & (Hv & Hvn & _)
          & q2 & r6 & -> & (q' & -> & Hq') & y & r7 & -> & (Hy & _ & _)
          & g & r8 & -> & (g0 & -> & Hg) & t & r9 & -> & (Ht & _ & _)
          & e & r10 & -> & De & ->).
  rewrite chr_gt in Hg. apply N.eqb_eq in Hg as ->.
  rewrite any_of_quotes in Hq, Hq'.
  rewrite (forallb_ext _ _ x (none_of_gt true)) in Hx.
  rewrite (forallb_ext _ _ y (none_of_gt true)) in Hy.
  rewrite (forallb_ext _ _ v (none_of_quotes true)) in Hv.
  rewrite (forallb_ext _ _ t (none_of_lt true)) in Ht.
  apply denotes_chars in Do, Dh, De.
  exists o, x, h, q, v, q', y, t, e. rewrite app_nil_r.
  repeat split; auto.
  - intros ->. cbn in Hxn. lia.
  - intros ->. cbn in Hvn. lia.
Qed.

Lemma has_quoted_href_found (x h A' : str) (q : N) :
  eqb_ci (lit "href=") h = true -> is_quote q = true ->
  has_quoted_href (x ++ h ++ q :: A') = true.
Proof.
  intros Hh Hq. induction x as [|c x IH].
  - cbn [app]. assert (Hl := eqb_ci_length _ _ Hh).
    destruct h as [|c h]; [discriminate|]. cbn [app has_quoted_href].
    change (c :: h ++ q :: A') with ((c :: h) ++ q :: A').
    rewrite eqb_ci_prefix by exact Hh.
    replace 5%nat with (length (c :: h)) by exact Hl.
    rewrite skipn_app, skipn_all, Nat.sub_diag. cbn [app skipn]. now rewrite Hq.
  - cbn [app has_quoted_href]. rewrite IH. apply orb_true_r.
Qed.

Lemma hrefs_closed_at (x h A' : str) (q : N) :
  eqb_ci (lit "href=") h = true -> is_quote q = true ->
  hrefs_closed (x ++ h ++ q :: A') = true -> existsb is_quote A' = true.
Proof.
  intros Hh Hq. induction x as [|c x IH].
  - cbn [app]. assert (Hl := eqb_ci_length _ _ Hh).
    destruct h as [|c h]; [discriminate|]. cbn [app hrefs_closed].
    change (c :: h ++ q :: A') with ((c :: h) ++ q :: A').
    rewrite eqb_ci_prefix by exact Hh.
    replace 5%nat with (length (c :: h)) by exact Hl.
    rewrite skipn_app, skipn_all, Nat.sub_diag. cbn [app skipn]. rewrite Hq. cbn [negb orb].
    intros H. now apply andb_prop in H as [H _].
  - cbn [app hrefs_closed]. intros H. apply andb_prop in H as [_ H]. now apply IH.
Qed.

Lemma first_quote (l : str) :
  existsb is_quote l = true ->
  exists v q l', l = v ++ q :: l'
    /\ forallb (fun c => negb (is_quote c)) v = true /\ is_quote q = true.
Proof.
  induction l as [|c l IH]; [discriminate|]. cbn [existsb].
  destruct (is_quote c) eqn:Hc.
  - intros _. exists [], c, l. auto.
  - cbn [orb]. intros H. destruct (IH H) as (v & q & l' & -> & Hv & Hq).
    exists (c :: v), q, l'. cbn [app forallb]. rewrite Hc, Hv. auto.
Qed.

(** A match of the link pattern at an anchor finds its [href=] and the
    opening quote before the first [>]. *)
Lemma match_at_anchor (sn o A r : str) (m : result) :
  eqb_ci (lit "<a") o = true ->
  forallb (is_not gt) A = true ->
  match_at true link_re sn (o ++ A ++ gt :: r) = Some m ->
  exists x h q A' v q' y t e rest,
    A = x ++ h ++ q :: A'
    /\ A' ++ gt :: r = v ++ q' :: y ++ gt :: t ++ e ++ rest
    /\ eqb_ci (lit "href=") h = true /\ is_quote q = true
    /\ forallb (fun c => negb (is_quote c)) v = true /\ is_quote q' = true
    /\ forallb (is_not gt) y = true /\ forallb (is_not lt) t = true
    /\ eqb_ci (lit "</a>") e = true.
Proof.
  intros Ho HA Hm. apply match_at_sound in Hm as (rest & E & D).
  apply link_re_shape in D
    as (o' & x & h & q & v & q' & y & t & e & Em & Ho' & _ & Hx & Hh & Hq & _ & Hv
        & Hq' & Hy & Ht & He).
  rewrite Em in E. rewrite <- !app_assoc in E.
  apply app_same_length in E as [_ E].
  2:{ now rewrite (eqb_ci_length _ _ Ho), (eqb_ci_length _ _ Ho'). }
  assert (Hpre : forallb (is_not gt) (x ++ h ++ [q]) = true).
  { rewrite !forallb_app, Hx. cbn [forallb andb].
    rewrite (ci_free gt (lit "href=") h eq_refl Hh eq_refl).
    now rewrite (quote_is_not gt q eq_refl Hq). }
  assert (E' : (x ++ h ++ [q]) ++ (v ++ [q'] ++ y ++ [gt] ++ t ++ e ++ rest)
               = A ++ gt :: r).
  { rewrite E, <- !app_assoc. reflexivity. }
  destruct (prefix_before_failure (is_not gt) _ _ _ _ _ E' Hpre eq_refl)
    as (A' & EA & ER).
  exists x, h, q, A', v, q', y, t, e, rest.
  split; [rewrite EA, <- !app_assoc; reflexivity|].
  split; [symmetry; exact ER|]. repeat split; assumption.
Qed.

Lemma no_anchor_no_match (sn td : str) :
  prefix_ci (lit "<a") td = false -> match_at true link_re sn td = None.
Proof.
  intros H. unfold match_at, link_re. cbn [seqs].
  change (run true (Seq (word "<a") ?k) ?s)
    with (flat_map (run true k) (run true (word "<a") s)).
  now rewrite run_word, H.
Qed.

(** No match starts at an anchor whose opening tag holds no [href=] directly
    followed by a quote. *)
Lemma anchor_without_quoted_href (sn o A r : str) :
  eqb_ci (lit "<a") o = true ->
  forallb (is_not gt) A = true ->
  has_quoted_href A = false ->
  match_at true link_re sn (o ++ A ++ gt :: r) = None.
Proof.
  intros Ho HA Hq. destruct (match_at true link_re sn (o ++ A ++ gt :: r)) as [m|] eqn:E;
    [exfalso|reflexivity].
  destruct (match_at_anchor sn o A r m Ho HA E)
    as (x & h & q & A' & v & q' & y & t & e & rest & EA & _ & Hh & Hq1 & _).
  rewrite EA, has_quoted_href_found in Hq by assumption. discriminate.
Qed.

(** No match starts at an anchor whose opening tag closes the quoted href
    values it opens and whose inner text is followed by something else than
    [</a>]. *)
Lemma anchor_with_child_tag (sn o A T s : str) :
  eqb_ci (lit "<a") o = true ->
  forallb (is_not gt) A = true ->
  hrefs_closed A = true ->
  forallb (is_not lt) T = true ->
  prefix_ci (lit "/a>") s = false ->
  match_at true link_re sn (o ++ A ++ gt :: T ++ lt :: s) = None.
Proof.
  intros Ho HA Hc HT Hs.
  destruct (match_at true link_re sn (o ++ A ++ gt :: T ++ lt :: s)) as [m|] eqn:E;
    [exfalso|reflexivity].
  destruct (match_at_anchor sn o A _ m Ho HA E)
    as (x & h & q & A' & v & q' & y & t & e & rest & EA & ER & Hh & Hq & Hv & Hq'
        & Hy & Ht & He).
  rewrite EA in Hc. apply hrefs_closed_at in Hc; [|assumption|assumption].
  destruct (first_quote A' Hc) as (v0 & q0 & A'' & EA' & Hv0 & Hq0).
  rewrite EA' in ER. rewrite <- app_assoc in ER. cbn [app] in ER.
  assert (Hnq : forall c, is_quote c = true -> negb (is_quote c) = false)
    by (now intros c ->).
  destruct (first_failure_unique (fun c => negb (is_quote c)) _ _ _ _ _ _ ER Hv0 Hv
              (Hnq _ Hq0) (Hnq _ Hq')) as (_ & _ & ER2).
  assert (HA'' : forallb (is_not gt) A'' = true).
  { rewrite EA, EA' in HA. rewrite !forallb_app in HA. cbn [forallb] in HA.
    rewrite forallb_app in HA. cbn [forallb] in HA.
    repeat (apply andb_prop in HA as [? HA]). exact HA. }
  destruct (first_failure_unique (is_not gt) _ _ _ _ _ _ ER2 HA'' Hy eq_refl eq_refl)
    as (_ & _ & ER3).
  assert (Hl := eqb_ci_length _ _ He).
  destruct e as [|c e]; [discriminate|].
  assert (Hc0 : c = lt).
  { unfold eqb_ci in He. cbn [length Nat.eqb prefix_ci] in He.
    apply andb_prop in He as [_ He]. apply andb_prop in He as [He _].
    apply N.eqb_eq in He. symmetry in He.
    exact (canonicalize_not_letter c lt eq_refl He). }
  subst c. cbn [app] in ER3.
  destruct (first_failure_unique (is_not lt) _ _ _ _ _ _ ER3 HT Ht eq_refl eq_refl)
    as (_ & _ & ER4).
  assert (Hp : prefix_ci (lit "/a>") (e ++ rest) = true).
  { apply eqb_ci_prefix. change (lit "</a>") with (lt :: lit "/a>") in He.
    unfold eqb_ci in *. cbn [length Nat.eqb prefix_ci] in He.
    apply andb_prop in He as [Hlen He]. apply andb_prop in He as [_ He].
    now rewrite Hlen, He. }
  rewrite <- ER4 in Hp. congruence.
Qed.

(** *** The scheme pattern of the client *)

(** The pattern of [normalizeUrl] asks for the start of the text. *)
Lemma scheme_only_at_start (c : N) (sn td : str) :
  search true scheme_re (c :: sn) td = None.
Proof.
  revert c sn. induction td as [|x t IH]; intros c sn; cbn [search];
    unfold match_at, scheme_re; cbn; auto.
Qed.

(** At the start, the pattern matches exactly the texts that begin with one
    of the two schemes. *)
Lemma scheme_at_start (td : str) :
  match match_at true scheme_re [] td with Some _ => true | None => false end
  = has_recognized_scheme td.
Proof.
  unfold match_at, scheme_re, has_recognized_scheme. cbn [seqs].
  change (run true (Seq Bos ?k) ?s) with (flat_map (run true k) (run true Bos s)).
  cbn [run seen flat_map]. rewrite app_nil_r.
  change (run true (Seq (word "http") ?k) ?s)
    with (flat_map (run true k) (run true (word "http") s)).
  rewrite run_word.
  change (lit "http://") with (lit "http" ++ lit "://").
  change (lit "https://") with (lit "http" ++ [115%N] ++ lit "://").
  rewrite !prefix_ci_app.
  destruct (prefix_ci (lit "http") td); [|reflexivity].
  cbn [flat_map andb]. rewrite app_nil_r. change (length (lit "http")) with 4%nat.
  generalize (skipn 4 td) (rev (firstn 4 td) ++ []). intros r sn.
  unfold opt.
  change (run true (Seq (Rep ?a 0 (Some 1%nat) true) ?k) ?s)
    with (flat_map (run true k) (run true (Rep a 0 (Some 1%nat) true) s)).
  change (run true (Seq (word "://") Eps)) with
    (fun s => flat_map (run true Eps) (run true (word "://") s)).
  destruct r as [|c t].
  - reflexivity.
  - cbn [run rep todo seen groups Nat.eqb pred option_map map fst snd].
    rewrite literal_matches. cbn [prefix_ci length skipn].
    destruct (canonicalize true 115 =? canonicalize true c)%N.
    + rewrite rep_no_more. cbn [Nat.eqb app map flat_map fst snd andb]. rewrite !run_word.
      destruct (prefix_ci (lit "://") t), (prefix_ci (lit "://") (c :: t)); reflexivity.
    + cbn [app map flat_map fst snd andb]. rewrite !run_word.
      destruct (prefix_ci (lit "://") (c :: t)); reflexivity.
Qed.

Lemma exec_scheme (s : str) :
  match exec true scheme_re s with Some _ => true | None => false end
  = has_recognized_scheme s.
Proof.
  rewrite <- scheme_at_start. unfold exec.
  destruct s as [|c t]; cbn [search].
  - now destruct (match_at true scheme_re [] []).
  - destruct (match_at true scheme_re [] (c :: t)); [reflexivity|].
    now rewrite scheme_only_at_start.
Qed.

Lemma normalizeUrl_spec (inputUrl : str) :
  normalizeUrl inputUrl
  = if has_recognized_scheme (trim inputUrl) then trim inputUrl
    else lit "https://" ++ trim inputUrl.
Proof.
  unfold normalizeUrl. rewrite <- exec_scheme.
  now destruct (exec true scheme_re (trim inputUrl)).
Qed.

(* ===================================================================== *)
(** ** What the extractor returns *)
(* ===================================================================== *)

Section Extraction.

Variable U : str -> option str -> option URL.

(** The fields of the record are the four extractions. *)
Lemma parseHtml_fields (html base : str) (d : ScrapedData) :
  parseHtml U html base = Some d ->
  title d = extractTitle html /\ content d = extractContent html
  /\ headings d = extractHeadings html /\ extractLinks U html base = Some (links d).
Proof.
  unfold parseHtml. destruct (extractLinks U html base); [|discriminate].
  intros E. injection E as <-. cbn. auto.
Qed.

(** With a base URL the runtime accepts, no callback throws. *)
Lemma parseHtml_returns (html base : str) :
  U base None <> None -> parseHtml U html base <> None.
Proof.
  intros Hb. unfold parseHtml, extractLinks.
  assert (H : mapM (linkOf U base) (matchAll true link_re html) <> None).
  { apply mapM_total. intros m. unfold linkOf.
    destruct (exec true href_re m); [|discriminate].
    destruct (startsWith _ _).
    - destruct (U base None); [discriminate|congruence].
    - destruct (_ || _); [destruct (U _ (Some base))|]; discriminate. }
  destruct (mapM _ _); [discriminate|congruence].
Qed.

Lemma headings_trimmed (html h : str) :
  In h (extractHeadings html) -> h <> [] /\ trim h = h.
Proof.
  unfold extractHeadings. intros H. apply firstn_In in H.
  apply filter_In in H as [H Hl]. apply in_map_iff in H as [m [<- _]].
  split.
  - intros E. rewrite E in Hl. discriminate.
  - unfold headingOf. destruct (exec false heading_text_re m); [apply trim_idem|reflexivity].
Qed.

Lemma content_bound (html : str) : (length (extractContent html) <= maxContent)%nat.
Proof.
  unfold extractContent, substring0.
  match goal with |- context [(maxContent <? length ?c)%nat] => generalize c end.
  intros c. destruct (Nat.ltb_spec maxContent (length c)) as [H|H]; [|exact H].
  rewrite length_firstn. apply Nat.le_min_l.
Qed.

End Extraction.

(** What holds of every link the extractor returns: its text and its URL
    are not empty, the URL does not begin with [javascript:] or [mailto:]. *)
Lemma links_kept (U : str -> option str -> option URL) (html baseUrl : str)
      (d : ScrapedData) (l : Link) :
  parseHtml U html baseUrl = Some d -> In l (links d) ->
  text l <> [] /\ url l <> []
  /\ startsWith (lit "javascript:") (url l) = false
  /\ startsWith (lit "mailto:") (url l) = false.
Proof.
  intros H Hin. apply parseHtml_fields in H as (_ & _ & _ & Hl).
  unfold extractLinks in Hl. destruct (mapM _ _) as [mapped|]; [|discriminate].
  assert (E : firstn maxLinks (filterSome keepLink mapped) = links d) by congruence.
  rewrite <- E in Hin. apply firstn_In in Hin. apply filterSome_keeps in Hin as [_ Hk].
  unfold keepLink in Hk.
  apply andb_prop in Hk as [Hk Hm]. apply andb_prop in Hk as [Hk Hj].
  apply andb_prop in Hk as [Ht Hu].
  repeat split.
  - intros E0. rewrite E0 in Ht. discriminate.
  - intros E0. rewrite E0 in Hu. discriminate.
  - now destruct (startsWith (lit "javascript:") (url l)).
  - now destruct (startsWith (lit "mailto:") (url l)).
Qed.

(** Every link returned comes from a stretch of the document that the link
    pattern matched. *)
Lemma links_come_from_matches (U : str -> option str -> option URL)
      (html baseUrl : str) (d : ScrapedData) (l : Link) :
  parseHtml U html baseUrl = Some d -> In l (links d) ->
  exists p m rest, html = p ++ m ++ rest /\ link_shape m
                   /\ linkOf U baseUrl m = Some (Some l).
Proof.
  intros H Hin. apply parseHtml_fields in H as (_ & _ & _ & Hl).
  unfold extractLinks in Hl.
  destruct (mapM (linkOf U baseUrl) (matchAll true link_re html)) as [mapped|] eqn:Em;
    [|discriminate].
  assert (E : firstn maxLinks (filterSome keepLink mapped) = links d) by congruence.
  rewrite <- E in Hin. apply firstn_In in Hin. apply filterSome_keeps in Hin as [Hin _].
  destruct (mapM_In _ _ _ _ _ _ Em Hin) as (m & Hm & Hf).
  apply scan_sound in Hm as (p & rest & Eh & D).
  exists p, m, rest. split; [exact Eh|]. split; [now apply link_re_shape|exact Hf].
Qed.

(* ===================================================================== *)
(** ** The handler, stage by stage *)
(* ===================================================================== *)

Section Handler.

Variable w : World.
Variables h uid u : str.
Variable target : URL.
Hypothesis Hauth : Authorized w h uid.
Hypothesis Hreq : Requested w u target.

(** An authorized request for a valid URL reaches the fetch of the page. *)
Lemma serve_until_fetch :
  serve w []
  = bind (await (fetchPage w (href target)))
      (fun response =>
         if negb (ok (fst response)) then
           throw (lit "Failed to fetch webpage: " ++ ofNat (fst response))
         else
           bind (match parseHtml (newURL w) (snd response) (href target) with
                 | Some d => ret d
                 | None => throw (lit "Invalid URL")
                 end)
             (fun scrapedData =>
                bind (if key_configured w && truthy (trim (content scrapedData)) then
                        tryCatch
                          (bind (generateAISummary w (content scrapedData) (title scrapedData))
                             (fun aiSummary => ret (aiSummary, lit "completed")))
                          (fun _ => ret ([], lit "failed"))
                      else ret ([], lit "pending"))
                  (fun enriched =>
                     let row :=
                       row_of uid target scrapedData
                         (if truthy (fst enriched) then Some (fst enriched) else None)
                         (snd enriched) in
                     bind (emit (EvInsert row))
                       (fun _ =>
                          match insertRow w row with
                          | inl message => throw (lit "Database error: " ++ message)
                          | inr savedResult =>
                              ret {| statusCode := 200; body := Success savedResult |}
                          end))))
      [EvGetUser (token_of h); EvFetchPage (href target)].
Proof.
  destruct Hauth as [_ Hh Ht Hu He]. destruct Hreq as [Hb Hs Hv].
  unfold serve. rewrite Hh, Ht. unfold bind at 1. unfold ret at 1.
  unfold bind at 1. unfold emit at 1. fold (token_of h).
  unfold bind at 1. rewrite Hu, He. unfold ret at 1.
  unfold bind at 1. rewrite Hb, Hs. unfold ret at 1.
  unfold bind at 1. rewrite Hv. unfold ret at 1.
  unfold bind at 1. unfold emit at 1. reflexivity.
Qed.

Lemma handler_runs : handler w = match serve w [] with
                                 | (Ok r, tr) => (r, tr)
                                 | (Throw message, tr) =>
                                     ({| statusCode := 400;
                                         body := Failure (orElse message (lit "An unexpected error occurred")) |}, tr)
                                 end.
Proof. unfold handler. now rewrite (not_preflight _ _ _ Hauth). Qed.

(** The enricher throws when the call errors, after the call was made. *)
Lemma generateAISummary_throws (content title : str) (tr : list Event) :
  key_configured w = true ->
  call_errors (fetchOpenAI w (prompt_of content title)) = true ->
  exists e, generateAISummary w content title tr
            = (Throw e, tr ++ [EvOpenAI (prompt_of content title)]).
Proof.
  unfold key_configured, generateAISummary, call_errors.
  destruct (OPENAI_API_KEY w) as [k|]; [|discriminate]. intros -> Hc. cbn [negb].
  unfold bind at 1. unfold emit at 1. unfold bind at 1.
  destruct (fetchOpenAI w (prompt_of content title)) as [m|st b]; cbn [await].
  - eexists. reflexivity.
  - unfold ret at 1. cbn [fst snd]. destruct (ok st); cbn [negb orb] in *.
    + destruct b as [m|[[|[|c|] cs]|]]; try discriminate; eexists; reflexivity.
    + eexists. reflexivity.
Qed.

End Handler.

(** The handler rejects a URL the runtime does not accept before it fetches
    anything. *)
Lemma handler_rejects_invalid_url (w : World) (h uid u : str) :
  Authorized w h uid ->
  requestJson w = Some (Some u) -> truthy u = true -> newURL w u None = None ->
  handler w
  = ({| statusCode := 400; body := Failure (lit "Invalid URL format") |},
     [EvGetUser (token_of h)]).
Proof.
  intros Ha Hb Hs Hv. rewrite (handler_runs w h uid Ha).
  destruct Ha as [_ Hh Ht Hu He].
  unfold serve. rewrite Hh, Ht. unfold bind at 1. unfold ret at 1.
  unfold bind at 1. unfold emit at 1. fold (token_of h).
  unfold bind at 1. rewrite Hu, He. unfold ret at 1.
  unfold bind at 1. rewrite Hb, Hs. unfold ret at 1.
  unfold bind at 1. rewrite Hv. reflexivity.
Qed.

(** The requests of the examples pass the first stages. *)
Lemma scenario_request (key : option str) (status : nat) (reply : FetchResult ChatBody) :
  Authorized (world key status reply) (lit "Bearer token-1") (lit "user-1")
  /\ Requested (world key status reply) base target_scenario.
Proof. split; constructor; reflexivity. Qed.

Lemma scenario_extracted (key : option str) (reply : FetchResult ChatBody) :
  Extracted (world key 200 reply) target_scenario 200 doc_scenario data_scenario.
Proof. constructor; [reflexivity|reflexivity|vm_compute; reflexivity]. Qed.

(* ===================================================================== *)
(** ** The properties of the pipeline *)
(* ===================================================================== *)


(** *** Links and bounds of the extractor *)

(** C1.  The code keeps as it is a relative reference that holds [://]: for
    the anchor [<a href='?u=http://b'>Go</a>], whatever the runtime's URL
    class, the link returned has the URL [?u=http://b], which is not
    absolute. *)
Theorem relative_href_kept :
  forall (U : str -> option str -> option URL),
    option_map links (parseHtml U doc_relative_query base)
    = Some [{| text := lit "Go"; url := lit "?u=http://b" |}]
    /\ absolute (lit "?u=http://b") = false.
Proof. intros U. split; vm_compute; reflexivity. Qed.

(** C2.  For every document and base URL, the extractor returns whenever the
    runtime accepts the base URL, and what it returns has at most 20
    headings, at most 50 links and a content of at most 15000 characters;
    every heading is non-empty after trimming. *)
Theorem extractor_output_bounds :
  forall (U : str -> option str -> option URL) (html baseUrl : str),
    (U baseUrl None <> None -> parseHtml U html baseUrl <> None)
    /\ (forall d, parseHtml U html baseUrl = Some d ->
          (length (headings d) <= 20)%nat
          /\ (length (links d) <= 50)%nat
          /\ (length (content d) <= 15000)%nat
          /\ (forall h, In h (headings d) -> trim h <> [])).
Proof.
  intros U html baseUrl. split; [apply parseHtml_returns|].
  intros d H. apply parseHtml_fields in H as (_ & Hc & Hh & Hl).
  repeat split.
  - rewrite Hh. apply firstn_le_length.
  - unfold extractLinks in Hl. destruct (mapM _ _) as [mapped|]; [|discriminate].
    assert (E : firstn maxLinks (filterSome keepLink mapped) = links d) by congruence.
    rewrite <- E. apply firstn_le_length.
  - rewrite Hc. apply content_bound.
  - intros h Hin. rewrite Hh in Hin. apply headings_trimmed in Hin as [Hn Ht].
    now rewrite Ht.
Qed.

(** The document of the scenario, with the runtime of the examples. *)
Lemma extractor_output_bounds_witness :
  Platform.newURL base None <> None
  /\ exists d, parseHtml Platform.newURL doc_scenario base = Some d
       /\ (length (headings d) <= 20)%nat /\ (length (links d) <= 50)%nat
       /\ (length (content d) <= 15000)%nat
       /\ (forall h, In h (headings d) -> trim h <> []).
Proof.
  destruct (extractor_output_bounds Platform.newURL doc_scenario base) as [Hr Hb].
  assert (Hbase : Platform.newURL base None <> None) by (vm_compute; discriminate).
  split; [exact Hbase|].
  destruct (parseHtml Platform.newURL doc_scenario base) as [d|] eqn:E.
  - exists d. split; [reflexivity|]. now apply Hb.
  - exfalso. now apply Hr.
Defined.

(** *** Enrichment and fetch failures *)

(** C3.  When the page is fetched and extracted, a key is configured, the
    content is not blank and the call of the summarization service errors,
    the handler still writes the row, with the status "failed" and no
    summary, after the calls of the identity service, the page and the
    summarization service; when the store accepts the row, the reply is the
    success reply with the saved row. *)
Theorem enrichment_failure_is_absorbed :
  forall (w : World) (h uid u : str) (target : URL) (status : nat) (html : str)
         (d : ScrapedData),
    Authorized w h uid ->
    Requested w u target ->
    Extracted w target status html d ->
    key_configured w = true ->
    truthy (trim (content d)) = true ->
    call_errors (fetchOpenAI w (prompt_of (content d) (title d))) = true ->
    snd (handler w)
    = [EvGetUser (token_of h); EvFetchPage (href target);
       EvOpenAI (prompt_of (content d) (title d));
       EvInsert (row_of uid target d None (lit "failed"))]
    /\ (forall saved,
          insertRow w (row_of uid target d None (lit "failed")) = inr saved ->
          fst (handler w) = {| statusCode := 200; body := Success saved |}).
Proof.
  intros w h uid u target status html d Ha Hr [Hf Hs Hp] Hk Hc He.
  assert (Hh : handler w
               = (match insertRow w (row_of uid target d None (lit "failed")) with
                  | inl message =>
                      {| statusCode := 400;
                         body := Failure (lit "Database error: " ++ message) |}
                  | inr saved => {| statusCode := 200; body := Success saved |}
                  end,
                  [EvGetUser (token_of h); EvFetchPage (href target);
                   EvOpenAI (prompt_of (content d) (title d));
                   EvInsert (row_of uid target d None (lit "failed"))])).
  { rewrite (handler_runs w h uid Ha), (serve_until_fetch w h uid u target Ha Hr), Hf.
    unfold bind at 1. cbn [await]. unfold ret at 1. cbn [fst snd]. rewrite Hs. cbn [negb].
    rewrite Hp. unfold bind at 1. unfold ret at 1.
    rewrite Hk, Hc. cbn [andb].
    destruct (generateAISummary_throws w (content d) (title d)
                [EvGetUser (token_of h); EvFetchPage (href target)] Hk He) as [e Hg].
    unfold bind at 1. unfold tryCatch. unfold bind at 1. rewrite Hg.
    unfold ret at 1. cbn [fst snd truthy app].
    unfold bind at 1. unfold emit at 1. cbn [app].
    now destruct (insertRow w (row_of uid target d None (lit "failed"))). }
  rewrite Hh. cbn [fst snd]. split; [reflexivity|]. now intros saved ->.
Qed.

(** The summarization service answers 500. *)
Lemma enrichment_failure_is_absorbed_witness :
  Authorized world_enrichment_fails (lit "Bearer token-1") (lit "user-1")
  /\ Requested world_enrichment_fails base target_scenario
  /\ Extracted world_enrichment_fails target_scenario 200 doc_scenario data_scenario
  /\ key_configured world_enrichment_fails = true
  /\ truthy (trim (content data_scenario)) = true
  /\ call_errors (fetchOpenAI world_enrichment_fails
                    (prompt_of (content data_scenario) (title data_scenario))) = true
  /\ snd (handler world_enrichment_fails)
     = [EvGetUser (lit "token-1"); EvFetchPage base;
        EvOpenAI (prompt_of (lit "A Go") (lit "Untitled"));
        EvInsert (row_of (lit "user-1") target_scenario data_scenario None (lit "failed"))]
  /\ fst (handler world_enrichment_fails)
     = {| statusCode := 200;
          body := Success (stored (row_of (lit "user-1") target_scenario data_scenario
                                     None (lit "failed"))) |}.
Proof.
  destruct (scenario_request (Some (lit "sk-test")) 200 (Responded 500 (NotJson [])))
    as [Ha Hr].
  assert (He := scenario_extracted (Some (lit "sk-test")) (Responded 500 (NotJson []))).
  destruct (enrichment_failure_is_absorbed world_enrichment_fails (lit "Bearer token-1")
              (lit "user-1") base target_scenario 200 doc_scenario data_scenario
              Ha Hr He eq_refl eq_refl eq_refl) as [Ht Hs].
  split; [exact Ha|]. split; [exact Hr|]. split; [exact He|].
  split; [reflexivity|]. split; [reflexivity|]. split; [reflexivity|].
  split; [exact Ht|]. apply Hs. reflexivity.
Defined.

(** C4.  When the page is fetched and extracted and no key is configured, or
    the content is blank, the summarization service is not called: the
    handler writes the row with the status "pending" and no summary right
    after the calls of the identity service and the page; when the store
    accepts the row, the reply is the success reply with the saved row. *)
Theorem enrichment_is_skipped :
  forall (w : World) (h uid u : str) (target : URL) (status : nat) (html : str)
         (d : ScrapedData),
    Authorized w h uid ->
    Requested w u target ->
    Extracted w target status html d ->
    key_configured w = false \/ truthy (trim (content d)) = false ->
    snd (handler w)
    = [EvGetUser (token_of h); EvFetchPage (href target);
       EvInsert (row_of uid target d None (lit "pending"))]
    /\ (forall saved,
          insertRow w (row_of uid target d None (lit "pending")) = inr saved ->
          fst (handler w) = {| statusCode := 200; body := Success saved |}).
Proof.
  intros w h uid u target status html d Ha Hr [Hf Hs Hp] Hskip.
  assert (Hh : handler w
               = (match insertRow w (row_of uid target d None (lit "pending")) with
                  | inl message =>
                      {| statusCode := 400;
                         body := Failure (lit "Database error: " ++ message) |}
                  | inr saved => {| statusCode := 200; body := Success saved |}
                  end,
                  [EvGetUser (token_of h); EvFetchPage (href target);
                   EvInsert (row_of uid target d None (lit "pending"))])).
  { rewrite (handler_runs w h uid Ha), (serve_until_fetch w h uid u target Ha Hr), Hf.
    unfold bind at 1. cbn [await]. unfold ret at 1. cbn [fst snd]. rewrite Hs. cbn [negb].
    rewrite Hp. unfold bind at 1. unfold ret at 1.
    assert (Hcond : key_configured w && truthy (trim (content d)) = false).
    { destruct Hskip as [-> | ->]; [reflexivity|apply andb_false_r]. }
    rewrite Hcond. unfold bind at 1. unfold ret at 1. cbn [fst snd truthy].
    unfold bind at 1. unfold emit at 1. cbn [app].
    now destruct (insertRow w (row_of uid target d None (lit "pending"))). }
  rewrite Hh. cbn [fst snd]. split; [reflexivity|]. now intros saved ->.
Qed.

(** No key is configured. *)
Lemma enrichment_is_skipped_witness :
  Authorized world_no_key (lit "Bearer token-1") (lit "user-1")
  /\ Requested world_no_key base target_scenario
  /\ Extracted world_no_key target_scenario 200 doc_scenario data_scenario
  /\ key_configured world_no_key = false
  /\ snd (handler world_no_key)
     = [EvGetUser (lit "token-1"); EvFetchPage base;
        EvInsert (row_of (lit "user-1") target_scenario data_scenario None (lit "pending"))]
  /\ fst (handler world_no_key)
     = {| statusCode := 200;
          body := Success (stored (row_of (lit "user-1") target_scenario data_scenario
                                     None (lit "pending"))) |}.
Proof.
  destruct (scenario_request None 200 (Responded 200 (Json (Some [Text (lit "A page.")]))))
    as [Ha Hr].
  assert (He := scenario_extracted None (Responded 200 (Json (Some [Text (lit "A page.")])))).
  destruct (enrichment_is_skipped world_no_key (lit "Bearer token-1")
              (lit "user-1") base target_scenario 200 doc_scenario data_scenario
              Ha Hr He (or_introl eq_refl)) as [Ht Hs].
  split; [exact Ha|]. split; [exact Hr|]. split; [exact He|].
  split; [reflexivity|].
  split; [exact Ht|]. apply Hs. reflexivity.
Defined.

(** C5.  When the page answers with a status that is not a success, the
    handler replies with status 400 and the failure message that carries the
    status of the page; it has called the identity service and the page, and
    nothing else: no row is written. *)
Theorem fetch_failure_is_fatal :
  forall (w : World) (h uid u : str) (target : URL) (status : nat) (page : str),
    Authorized w h uid ->
    Requested w u target ->
    fetchPage w (href target) = Responded status page ->
    ok status = false ->
    handler w
    = ({| statusCode := 400;
          body := Failure (lit "Failed to fetch webpage: " ++ ofNat status) |},
       [EvGetUser (token_of h); EvFetchPage (href target)]).
Proof.
  intros w h uid u target status page Ha Hr Hf Hs.
  rewrite (handler_runs w h uid Ha), (serve_until_fetch w h uid u target Ha Hr), Hf.
  unfold bind at 1. cbn [await]. unfold ret at 1. cbn [fst snd]. rewrite Hs.
  reflexivity.
Qed.

(** The page of the scenario answers 404. *)
Lemma fetch_failure_is_fatal_witness :
  Authorized world_not_found (lit "Bearer token-1") (lit "user-1")
  /\ Requested world_not_found base target_scenario
  /\ fetchPage world_not_found (href target_scenario) = Responded 404 doc_scenario
  /\ ok 404 = false
  /\ handler world_not_found
     = ({| statusCode := 400; body := Failure (lit "Failed to fetch webpage: 404") |},
        [EvGetUser (lit "token-1"); EvFetchPage base]).
Proof.
  assert (Ha : Authorized world_not_found (lit "Bearer token-1") (lit "user-1"))
    by (constructor; reflexivity).
  assert (Hr : Requested world_not_found base target_scenario)
    by (constructor; reflexivity).
  split; [exact Ha|]. split; [exact Hr|]. split; [reflexivity|]. split; [reflexivity|].
  exact (fetch_failure_is_fatal world_not_found (lit "Bearer token-1") (lit "user-1") base
           target_scenario 404 doc_scenario Ha Hr eq_refl eq_refl).
Defined.

(** *** Title, scenario and normalisation *)

(** C6.  The title is the trimmed inner text of the first title element the
    pattern matches, going through the positions of the document from the
    left, and "Untitled" when there is none; a document in which no title
    element starts before its [<title>Foo</title>] has the title "Foo". *)
Theorem extractor_title :
  forall (U : str -> option str -> option URL) (html baseUrl : str) (d : ScrapedData),
    parseHtml U html baseUrl = Some d ->
    title d = match first_at title_element html with
              | Some t => trim t
              | None => lit "Untitled"
              end
    /\ (forall p s,
          html = p ++ lit "<title>Foo</title>" ++ s ->
          (forall i, (i < length p)%nat -> title_element (skipn i html) = None) ->
          title d = lit "Foo").
Proof.
  intros U html baseUrl d H. apply parseHtml_fields in H as (Ht & _).
  rewrite Ht, extractTitle_first. split; [reflexivity|].
  intros p s -> Hp. rewrite (first_at_skip _ title_element p _ Hp). reflexivity.
Qed.

(** A page whose head holds the title element. *)
Lemma extractor_title_witness :
  exists d, parseHtml Platform.newURL doc_title_foo base = Some d
    /\ doc_title_foo = lit "<html><head>" ++ lit "<title>Foo</title>" ++ lit "</head></html>"
    /\ (forall i, (i < length (lit "<html><head>"))%nat ->
          title_element (skipn i doc_title_foo) = None)
    /\ title d = lit "Foo".
Proof.
  assert (Hp : forall i, (i < length (lit "<html><head>"))%nat ->
                 title_element (skipn i doc_title_foo) = None).
  { intros i Hi. do 12 (destruct i as [|i]; [reflexivity|]). cbn in Hi. lia. }
  destruct (parseHtml Platform.newURL doc_title_foo base) as [d|] eqn:E;
    [|vm_compute in E; discriminate].
  exists d. split; [reflexivity|]. split; [reflexivity|]. split; [exact Hp|].
  exact (proj2 (extractor_title Platform.newURL doc_title_foo base d E)
           (lit "<html><head>") (lit "</head></html>") eq_refl Hp).
Defined.

(** C7.  With a runtime that reads the scheme [https:] and the host
    [site.test] in the base URL [https://site.test/page], the document of
    the scenario gives the heading "A" and the link "Go" to
    [https://site.test/x]. *)
Theorem scenario_headings_and_links :
  forall (U : str -> option str -> option URL) (b : URL),
    U base None = Some b ->
    protocol b = lit "https:" ->
    host b = lit "site.test" ->
    exists d, parseHtml U doc_scenario base = Some d
      /\ headings d = [lit "A"]
      /\ links d = [{| text := lit "Go"; url := lit "https://site.test/x" |}].
Proof.
  intros U b Hb Hp Hh.
  assert (Hl : extractLinks U doc_scenario base
               = Some [{| text := lit "Go"; url := lit "https://site.test/x" |}]).
  { unfold extractLinks.
    replace (matchAll true link_re doc_scenario)
      with [lit "<a href=" ++ [dquote] ++ lit "/x" ++ [dquote] ++ lit ">Go</a>"]
      by (vm_compute; reflexivity).
    cbn [mapM]. unfold linkOf.
    match goal with
    | |- context [exec true href_re ?m] =>
        replace (exec true href_re m)
          with (Some (Result (lit "href=" ++ [dquote] ++ lit "/x" ++ [dquote]) [(1%nat, lit "/x")]))
          by (vm_compute; reflexivity)
    end.
    replace (capture 1 _) with (lit "/x") by reflexivity.
    replace (startsWith (lit "/") (lit "/x")) with true by reflexivity.
    rewrite Hb, Hp, Hh.
    vm_compute. reflexivity. }
  unfold parseHtml. rewrite Hl. eexists. split; [reflexivity|].
  split; [vm_compute; reflexivity|reflexivity].
Qed.

(** The runtime of the examples reads the base URL in this way. *)
Lemma scenario_headings_and_links_witness :
  exists b, Platform.newURL base None = Some b
    /\ protocol b = lit "https:" /\ host b = lit "site.test"
    /\ exists d, parseHtml Platform.newURL doc_scenario base = Some d
         /\ headings d = [lit "A"]
         /\ links d = [{| text := lit "Go"; url := lit "https://site.test/x" |}].
Proof.
  destruct (Platform.newURL base None) as [b|] eqn:E; [|vm_compute in E; discriminate].
  assert (Hp : protocol b = lit "https:") by (vm_compute in E; injection E as <-; reflexivity).
  assert (Hh : host b = lit "site.test") by (vm_compute in E; injection E as <-; reflexivity).
  exists b. split; [reflexivity|]. split; [exact Hp|]. split; [exact Hh|].
  exact (scenario_headings_and_links Platform.newURL b E Hp Hh).
Defined.

(** C8.  The client trims the text typed in and, unless it starts with
    [http://] or [https://] in any case, puts [https://] before it;
    "example.com" becomes "https://example.com".  [handleSubmit] validates
    the normalized URL: it posts nothing but a normalized URL the runtime
    accepts, posts every such URL of a signed-in user, and shows the
    validation message exactly for the non-blank inputs whose normalized URL
    the runtime rejects; a blank input, whose normalized form is the bare
    [https://], is refused before that.  The handler, given a URL the
    runtime rejects, replies with the failure "Invalid URL format" and has
    fetched nothing. *)
Theorem client_normalizes_before_validation :
  forall (U : str -> option str -> option URL),
    (forall input,
       normalizeUrl input
       = if has_recognized_scheme (trim input) then trim input
         else lit "https://" ++ trim input)
    /\ normalizeUrl (lit "example.com") = lit "https://example.com"
    /\ (forall session input url,
          handleSubmit U session input = PostScrape url ->
          url = normalizeUrl input /\ validateUrl U url = true)
    /\ (forall input,
          truthy (trim input) = true ->
          validateUrl U (normalizeUrl input) = true ->
          handleSubmit U true input = PostScrape (normalizeUrl input))
    /\ (forall session input,
          handleSubmit U session input = SetError invalid_url_message
          <-> truthy (trim input) = true /\ validateUrl U (normalizeUrl input) = false)
    /\ (forall session input,
          truthy (trim input) = false ->
          handleSubmit U session input = SetError (lit "Please enter a URL")
          /\ normalizeUrl input = lit "https://")
    /\ (forall (w : World) (h uid u : str),
          Authorized w h uid ->
          requestJson w = Some (Some u) -> truthy u = true ->
          newURL w u None = None ->
          handler w
          = ({| statusCode := 400; body := Failure (lit "Invalid URL format") |},
             [EvGetUser (token_of h)])).
Proof.
  intros U. split; [exact normalizeUrl_spec|]. split; [vm_compute; reflexivity|].
  split; [|split; [|split; [|split]]].
  - intros session input url. unfold handleSubmit.
    destruct (truthy (trim input)); cbn [negb]; [|discriminate].
    destruct (validateUrl U (normalizeUrl input)) eqn:Hv; cbn [negb]; [|discriminate].
    destruct session; cbn [negb]; [|discriminate].
    intros E. injection E as <-. auto.
  - intros input Ht Hv. unfold handleSubmit. now rewrite Ht, Hv.
  - intros session input. unfold handleSubmit.
    destruct (truthy (trim input)); cbn [negb].
    + destruct (validateUrl U (normalizeUrl input)); cbn [negb].
      * destruct session; cbn [negb]; split; try discriminate; intros [_ H]; discriminate.
      * split; auto.
    + split; [discriminate|]. intros [H _]. discriminate.
  - intros session input Hb. unfold handleSubmit. rewrite Hb. split; [reflexivity|].
    rewrite normalizeUrl_spec. destruct (trim input); [reflexivity|discriminate].
  - exact handler_rejects_invalid_url.
Qed.

(** A host name typed with blanks around it, and a scheme without a host. *)
Lemma client_normalizes_before_validation_witness :
  has_recognized_scheme (trim (lit " example.com ")) = false
  /\ normalizeUrl (lit " example.com ") = lit "https://example.com"
  /\ validateUrl Platform.newURL (normalizeUrl (lit " example.com ")) = true
  /\ handleSubmit Platform.newURL true (lit " example.com ")
     = PostScrape (lit "https://example.com")
  /\ validateUrl Platform.newURL (normalizeUrl (lit "http://")) = false
  /\ handleSubmit Platform.newURL true (lit "http://") = SetError invalid_url_message.
Proof.
  destruct (client_normalizes_before_validation Platform.newURL)
    as (Hn & _ & _ & Hpost & Hrej & _ & _).
  split; [reflexivity|].
  split; [rewrite Hn; reflexivity|].
  split; [vm_compute; reflexivity|].
  split; [rewrite (Hpost (lit " example.com ")); [rewrite Hn| |]; vm_compute; reflexivity|].
  split; [vm_compute; reflexivity|].
  apply Hrej. split; vm_compute; reflexivity.
Defined.

(** *** Anchors and title elements the patterns leave out *)

(** C9, as the claim states it, fails: the first anchor has an unquoted href
    and is extracted, with the value of its [data-href]; the second one holds
    an image and is extracted, with a text taken from an attribute value. *)
Lemma anchors_let_through :
  option_map links (parseHtml Platform.newURL doc_unquoted_href base)
  = Some [{| text := lit "Go"; url := lit "http://h/y" |}]
  /\ option_map links (parseHtml Platform.newURL doc_child_tag base)
     = Some [{| text := lit "Go"; url := lit "http://h/x" |}].
Proof. split; vm_compute; reflexivity. Qed.

(** C9, amended.  Every link returned comes from a stretch of the document
    of the form [<a], characters other than [>], [href=], a quote, a value
    without quotes, a quote, characters other than [>], [>], a text without
    [<], [</a>].  No match starts at an anchor whose opening tag, up to its
    first [>], holds no [href=] directly followed by a quote, nor at one
    whose opening tag closes the quoted href values it opens and whose inner
    text is followed by something else than [</a>]; when such an anchor is
    the only place of the document that starts with [<a], no link is
    returned. *)
Theorem links_follow_the_pattern :
  forall (U : str -> option str -> option URL) (html baseUrl : str) (d : ScrapedData),
    parseHtml U html baseUrl = Some d ->
    (forall l, In l (links d) ->
       exists p m rest, html = p ++ m ++ rest /\ link_shape m
                        /\ linkOf U baseUrl m = Some (Some l))
    /\ (forall p o A T s,
          html = p ++ o ++ A ++ [gt] ++ T ++ [lt] ++ s ->
          eqb_ci (lit "<a") o = true ->
          forallb (is_not gt) A = true ->
          forallb (is_not lt) T = true ->
          has_quoted_href A = false
          \/ (hrefs_closed A = true /\ prefix_ci (lit "/a>") s = false) ->
          (forall sn, match_at true link_re sn (o ++ A ++ [gt] ++ T ++ [lt] ++ s) = None)
          /\ ((forall i, i <> length p -> prefix_ci (lit "<a") (skipn i html) = false) ->
              links d = [])).
Proof.
  intros U html baseUrl d H. split.
  - intros l Hin. exact (links_come_from_matches U html baseUrl d l H Hin).
  - intros p o A T s Eh Ho HA HT Hcase.
    assert (Hno : forall sn, match_at true link_re sn (o ++ A ++ [gt] ++ T ++ [lt] ++ s) = None).
    { intros sn. destruct Hcase as [Hq|[Hc Hs]].
      - now apply anchor_without_quoted_href.
      - now apply anchor_with_child_tag. }
    split; [exact Hno|]. intros Hothers.
    apply parseHtml_fields in H as (_ & _ & _ & Hl).
    unfold extractLinks, matchAll in Hl. rewrite scan_nothing in Hl.
    + cbn in Hl. congruence.
    + intros sn i. destruct (Nat.eq_dec i (length p)) as [->|Hi].
      * rewrite Eh, skipn_app, skipn_all, Nat.sub_diag. cbn [skipn]. apply Hno.
      * apply no_anchor_no_match. now apply Hothers.
Qed.

(** The link of the scenario, and an anchor around an image. *)
Lemma links_follow_the_pattern_witness :
  (exists d, parseHtml Platform.newURL doc_scenario base = Some d
     /\ In {| text := lit "Go"; url := lit "https://site.test/x" |} (links d)
     /\ exists p m rest, doc_scenario = p ++ m ++ rest /\ link_shape m
          /\ linkOf Platform.newURL base m
             = Some (Some {| text := lit "Go"; url := lit "https://site.test/x" |}))
  /\ (exists d, parseHtml Platform.newURL doc_image_link base = Some d
        /\ doc_image_link
           = [] ++ lit "<a" ++ lit " href='/x'" ++ [gt] ++ [] ++ [lt] ++ lit "img src='i.png'></a>"
        /\ hrefs_closed (lit " href='/x'") = true
        /\ prefix_ci (lit "/a>") (lit "img src='i.png'></a>") = false
        /\ links d = []).
Proof.
  split.
  - destruct (parseHtml Platform.newURL doc_scenario base) as [d|] eqn:E;
      [|vm_compute in E; discriminate].
    assert (Hin : In {| text := lit "Go"; url := lit "https://site.test/x" |} (links d)).
    { vm_compute in E. injection E as <-. now left. }
    exists d. split; [reflexivity|]. split; [exact Hin|].
    exact (proj1 (links_follow_the_pattern Platform.newURL doc_scenario base d E) _ Hin).
  - destruct (parseHtml Platform.newURL doc_image_link base) as [d|] eqn:E;
      [|vm_compute in E; discriminate].
    exists d. split; [reflexivity|]. split; [reflexivity|].
    split; [reflexivity|]. split; [reflexivity|].
    refine (proj2 (proj2 (links_follow_the_pattern Platform.newURL doc_image_link base d E)
                     [] (lit "<a") (lit " href='/x'") [] (lit "img src='i.png'></a>")
                     eq_refl eq_refl eq_refl eq_refl (or_intror (conj eq_refl eq_refl))) _).
    intros i Hi.
    do 36 (destruct i as [|i]; [first [reflexivity | now elim Hi]|]).
    destruct i; reflexivity.
Defined.

(** C10, as the claim states it, fails: the first title element of this
    document is empty, and the title is taken from the next one. *)
Lemma empty_title_is_skipped :
  option_map title (parseHtml Platform.newURL doc_empty_title_then_svg base)
  = Some (lit "Icon").
Proof. vm_compute. reflexivity. Qed.

(** The first position at which [f] finds something is a position before
    which it finds nothing. *)
Lemma first_at_position (A : Type) (f : str -> option A) (a : A) (i : nat) :
  forall s : str,
    f (skipn i s) = Some a ->
    (forall j, (j < i)%nat -> f (skipn j s) = None) ->
    first_at f s = Some a.
Proof.
  induction i as [|i IH]; intros s Hi Hj.
  - cbn [skipn] in Hi. destruct s; cbn [first_at]; now rewrite Hi.
  - assert (H0 : f s = None) by (apply (Hj 0%nat); lia).
    destruct s as [|c s]; [cbn [skipn] in Hi; congruence|].
    cbn [first_at]. rewrite H0. apply IH; [exact Hi|].
    intros j Hlt. apply (Hj (S j)). lia.
Qed.

(** C10, amended.  A title element with an empty inner text, or with an
    inner text followed by something else than its end tag, is not matched
    where it stands.  The title is "Untitled" when no other position of the
    document starts a title element with a non-empty, tag-free inner text;
    otherwise it is the trimmed inner text of the first such element, in the
    order of the positions of the document. *)
Theorem title_of_rejected_element :
  forall (U : str -> option str -> option URL) (p o A T s baseUrl : str) (d : ScrapedData),
    eqb_ci (lit "<title") o = true ->
    forallb (is_not gt) A = true ->
    forallb (is_not lt) T = true ->
    T = [] \/ prefix_ci (lit "/title>") s = false ->
    parseHtml U (p ++ o ++ A ++ [gt] ++ T ++ [lt] ++ s) baseUrl = Some d ->
    (forall sn, match_at true title_re sn (o ++ A ++ [gt] ++ T ++ [lt] ++ s) = None)
    /\ ((forall i, i <> length p ->
           title_element (skipn i (p ++ o ++ A ++ [gt] ++ T ++ [lt] ++ s)) = None) ->
        title d = lit "Untitled")
    /\ (forall i t,
          title_element (skipn i (p ++ o ++ A ++ [gt] ++ T ++ [lt] ++ s)) = Some t ->
          (forall j, (j < i)%nat -> j <> length p ->
             title_element (skipn j (p ++ o ++ A ++ [gt] ++ T ++ [lt] ++ s)) = None) ->
          title d = trim t).
Proof.
  intros U p o A T s baseUrl d Ho HA HT Hs H.
  assert (Hrej : title_element (o ++ A ++ [gt] ++ T ++ [lt] ++ s) = None)
    by now apply title_element_rejected.
  assert (Hat : title_element (skipn (length p) (p ++ o ++ A ++ [gt] ++ T ++ [lt] ++ s))
                = None).
  { rewrite skipn_app, skipn_all, Nat.sub_diag. cbn [app skipn]. exact Hrej. }
  apply parseHtml_fields in H as (Ht & _). rewrite Ht, extractTitle_first.
  split; [|split].
  - intros sn. assert (Hm := match_title sn (o ++ A ++ [gt] ++ T ++ [lt] ++ s)).
    rewrite Hrej in Hm. now destruct (match_at true title_re sn _).
  - intros Hothers. rewrite first_at_none; [reflexivity|].
    intros i. destruct (Nat.eq_dec i (length p)) as [->|Hi]; [exact Hat|now apply Hothers].
  - intros i t Hi Hbefore.
    rewrite (first_at_position _ title_element t i _ Hi); [reflexivity|].
    intros j Hlt. destruct (Nat.eq_dec j (length p)) as [->|Hj]; [exact Hat|].
    now apply Hbefore.
Qed.

(** A page whose only title element is empty, and a page whose empty title
    element is followed by the title of an inline drawing. *)
Lemma title_of_rejected_element_witness :
  (exists d, parseHtml Platform.newURL doc_empty_title base = Some d
     /\ doc_empty_title
        = lit "<html>" ++ lit "<title" ++ [] ++ [gt] ++ [] ++ [lt] ++ lit "/title></html>"
     /\ match_at true title_re [] (lit "<title" ++ [] ++ [gt] ++ [] ++ [lt]
                                     ++ lit "/title></html>") = None
     /\ title d = lit "Untitled")
  /\ (exists d, parseHtml Platform.newURL doc_empty_title_then_svg base = Some d
        /\ doc_empty_title_then_svg
           = [] ++ lit "<title" ++ [] ++ [gt] ++ [] ++ [lt]
             ++ lit "/title><svg><title>Icon</title></svg>"
        /\ title_element (skipn 20 doc_empty_title_then_svg) = Some (lit "Icon")
        /\ title d = lit "Icon").
Proof.
  split.
  - destruct (parseHtml Platform.newURL doc_empty_title base) as [d|] eqn:E;
      [|vm_compute in E; discriminate].
    exists d. split; [reflexivity|]. split; [reflexivity|].
    destruct (title_of_rejected_element Platform.newURL (lit "<html>") (lit "<title") [] []
                (lit "/title></html>") base d eq_refl eq_refl eq_refl (or_introl eq_refl) E)
      as (Hm & Hu & _).
    split; [exact (Hm [])|]. apply Hu.
    intros i Hi.
    do 29 (destruct i as [|i]; [first [reflexivity | now elim Hi]|]).
    destruct i; reflexivity.
  - destruct (parseHtml Platform.newURL doc_empty_title_then_svg base) as [d|] eqn:E;
      [|vm_compute in E; discriminate].
    exists d. split; [reflexivity|]. split; [reflexivity|]. split; [reflexivity|].
    destruct (title_of_rejected_element Platform.newURL [] (lit "<title") [] []
                (lit "/title><svg><title>Icon</title></svg>") base d
                eq_refl eq_refl eq_refl (or_introl eq_refl) E)
      as (_ & _ & Ht).
    apply (Ht 20%nat (lit "Icon")); [reflexivity|].
    intros j Hlt Hj.
    do 20 (destruct j as [|j]; [first [reflexivity | now elim Hj]|]).
    cbn in Hlt. lia.
Defined.

(* ===================================================================== *)
(** * Further properties of the handler, the extractor and the client *)
(* ===================================================================== *)

Import Invariants Cases.

Ltac split_next :=
  match goal with
  | |- context [match ?x with _ => _ end] =>
      lazymatch x with
      | context [match _ with _ => _ end] => fail
      | _ => destruct x eqn:?
      end
  end.

Ltac run_handler :=
  unfold handler, serve, generateAISummary, await, bind, tryCatch, emit, ret, throw;
  repeat (cbn beta iota zeta; cbn [fst snd negb andb truthy body statusCode]; try split_next).

Lemma orElse_set (a b : str) : b <> [] -> orElse a b <> [].
Proof. intros Hb. unfold orElse. destruct a; cbn; [exact Hb|discriminate]. Qed.

Lemma summary_trimmed (c : str) :
  trim c = c -> trim (orElse c summary_fallback) = orElse c summary_fallback.
Proof. intros Hc. unfold orElse. destruct c; [reflexivity|exact Hc]. Qed.

(** X1.  The calls of one run are made in one order: the identity service, the
    page, at most one call of the summarization service, the store.  A run
    stops after any of them, the summarization service is called only when a
    key is configured, and at most one row is written per request. *)
Theorem handler_calls_in_order :
  forall (w : World),
    calls_in_order (snd (handler w)) = true
    /\ (forall prompt, In (EvOpenAI prompt) (snd (handler w)) -> key_configured w = true)
    /\ (length (rows_written (snd (handler w))) <= 1)%nat.
Proof.
  intros w. run_handler.
  all: cbn [app snd In calls_in_order rows_written length]; repeat split; try reflexivity; try lia.
  all: intros prompt Hin; repeat (destruct Hin as [Hin|Hin]; try discriminate); try contradiction.
  all: match goal with H : key_configured _ && _ = true |- _ => apply andb_prop in H; tauto end.
Qed.

Ltac use_context :=
  repeat match goal with
         | H : negb _ = false |- _ => apply negb_false_iff in H
         | H : negb _ = true |- _ => apply negb_true_iff in H
         | H : _ && _ = true |- _ => apply andb_prop in H; destruct H
         end.


(** X3.  A row the handler writes has the status "pending" or "failed" and no
    summary, or the status "completed" and a summary that is not empty and
    has no blank at either end. *)
Theorem row_status_and_summary :
  forall (w : World) (row : Row),
    In row (rows_written (snd (handler w))) ->
    (analysis_status row = lit "pending" /\ ai_summary row = None)
    \/ (analysis_status row = lit "failed" /\ ai_summary row = None)
    \/ (analysis_status row = lit "completed"
        /\ exists summary, ai_summary row = Some summary
             /\ summary <> [] /\ trim summary = summary).
Proof.
  intros w row. run_handler.
  all: cbn [snd app rows_written In]; try tauto.
  all: intros [<-|[]]; cbn [analysis_status ai_summary]; auto.
  all: right; right; split; [reflexivity|].
  all: try (eexists; split; [reflexivity|]; split;
            [apply orElse_set; discriminate
            |first [apply (summary_trimmed []); reflexivity
                   |apply summary_trimmed; apply trim_idem]]).
  all: exfalso;
    match goal with
    | H : truthy (orElse ?c ?d) = false |- _ =>
        assert (Hne : orElse c d <> []) by (apply orElse_set; discriminate);
        destruct (orElse c d); [now apply Hne|discriminate]
    end.
Qed.

(** X4.  A page is fetched only for an authorized request whose URL the runtime
    accepts, at the address the runtime prints for it; a row is written only
    for such a request whose page answered with a success status, and it
    holds the user, this address and what the extractor returned. *)
Theorem calls_are_earned :
  forall (w : World),
    (forall target, In (EvFetchPage target) (snd (handler w)) ->
       exists h uid u t, Authorized w h uid /\ Requested w u t /\ target = href t)
    /\ (forall row, In row (rows_written (snd (handler w))) ->
          exists h u t status html d,
            Authorized w h (user_id row) /\ Requested w u t
            /\ Extracted w t status html d
            /\ row = row_of (user_id row) t d (ai_summary row) (analysis_status row)).
Proof.
  intros w. run_handler.
  all: cbn [snd app rows_written In]; split.
  all: try (intros target Hin; repeat (destruct Hin as [Hin|Hin]; try discriminate);
            try contradiction).
  all: try (intros row Hin; repeat (destruct Hin as [Hin|Hin]; try discriminate);
            try contradiction).
  all: use_context; subst.
  all: try (injection Hin as <-).
  all: try (do 4 eexists; split; [|split]; [constructor; eassumption|constructor; eassumption|reflexivity]).
  all: cbn [user_id ai_summary analysis_status].
  all: do 6 eexists; split; [|split; [|split]];
    [constructor; eassumption|constructor; eassumption|constructor; eassumption|reflexivity].
Qed.

(** X5.  A request that is not a preflight and has no Authorization header, or
    an empty one, is refused before any call; one whose token the identity
    service does not accept is refused right after this call, before the
    body is read. *)
Theorem unauthenticated_is_refused :
  forall (w : World),
    str_eqb (method w) (lit "OPTIONS") = false ->
    (authorization w = None \/ authorization w = Some [] ->
     handler w = (fail (lit "No authorization header"), []))
    /\ (forall h,
          authorization w = Some h -> truthy h = true ->
          user (getUser w (token_of h)) = None \/ authError (getUser w (token_of h)) = true ->
          handler w = (fail (lit "Invalid authentication"), [EvGetUser (token_of h)])).
Proof.
  intros w Hm. unfold handler. rewrite Hm. unfold serve. split.
  - intros [H|H]; rewrite H; reflexivity.
  - intros h Hh Ht Hu. rewrite Hh, Ht. unfold bind at 1. unfold ret at 1.
    unfold bind at 1. unfold emit at 1. fold (token_of h). unfold bind at 1.
    destruct Hu as [Hu|Hu]; rewrite Hu; [reflexivity|].
    destruct (user (getUser w (token_of h))); reflexivity.
Qed.

(** X6.  An authorized request whose body has no url, or an empty one, is
    refused with "URL is required" after the identity check, before anything
    is fetched. *)
Theorem missing_url_is_refused :
  forall (w : World) (h uid : str),
    Authorized w h uid ->
    requestJson w = Some None \/ requestJson w = Some (Some []) ->
    handler w = (fail (lit "URL is required"), [EvGetUser (token_of h)]).
Proof.
  intros w h uid Ha Hb. rewrite (handler_runs w h uid Ha).
  destruct Ha as [_ Hh Ht Hu He].
  unfold serve. rewrite Hh, Ht. unfold bind at 1. unfold ret at 1.
  unfold bind at 1. unfold emit at 1. fold (token_of h).
  unfold bind at 1. rewrite Hu, He. unfold ret at 1.
  unfold bind at 1. destruct Hb as [Hb|Hb]; rewrite Hb; reflexivity.
Qed.

(** X7.  When the fetch of the page is rejected, the handler stops there: the
    reply is the failure with the message of the rejection, or the default
    message when it is empty, and nothing is written. *)
Theorem transport_failure_is_fatal :
  forall (w : World) (h uid u : str) (target : URL) (message : str),
    Authorized w h uid ->
    Requested w u target ->
    fetchPage w (href target) = Rejected message ->
    handler w
    = (fail (if truthy message then message else lit "An unexpected error occurred"),
       [EvGetUser (token_of h); EvFetchPage (href target)]).
Proof.
  intros w h uid u target message Ha Hr Hf.
  rewrite (handler_runs w h uid Ha), (serve_until_fetch w h uid u target Ha Hr), Hf.
  reflexivity.
Qed.

Ltac run_rest :=
  unfold generateAISummary, await, bind, tryCatch, emit, ret, throw;
  repeat (cbn beta iota zeta; cbn [fst snd negb andb truthy body statusCode]; try split_next).

(** X8.  After an extraction the handler always writes one row, as its last
    call, whatever the summarization service did; the reply is the success
    with the saved row when the store accepts it and the failure "Database
    error: " followed by the message of the store otherwise. *)
Theorem store_decides_the_reply :
  forall (w : World) (h uid u : str) (target : URL) (status : nat) (html : str)
         (d : ScrapedData),
    Authorized w h uid ->
    Requested w u target ->
    Extracted w target status html d ->
    exists summary state calls,
      (calls = [] \/ calls = [EvOpenAI (prompt_of (content d) (title d))])
      /\ snd (handler w)
         = [EvGetUser (token_of h); EvFetchPage (href target)] ++ calls
           ++ [EvInsert (row_of uid target d summary state)]
      /\ fst (handler w)
         = match insertRow w (row_of uid target d summary state) with
           | inl message => fail (lit "Database error: " ++ message)
           | inr saved => {| statusCode := 200; body := Success saved |}
           end.
Proof.
  intros w h uid u target status html d Ha Hr [Hf Hs Hp].
  assert (H : forall P : Response * list Event -> Prop,
             (forall summary state calls,
                calls = [] \/ calls = [EvOpenAI (prompt_of (content d) (title d))] ->
                P (match insertRow w (row_of uid target d summary state) with
                   | inl message => fail (lit "Database error: " ++ message)
                   | inr saved => {| statusCode := 200; body := Success saved |}
                   end,
                   [EvGetUser (token_of h); EvFetchPage (href target)] ++ calls
                   ++ [EvInsert (row_of uid target d summary state)])) ->
             P (handler w)).
  { intros P HP.
    rewrite (handler_runs w h uid Ha), (serve_until_fetch w h uid u target Ha Hr), Hf.
    unfold bind at 1. cbn [await]. unfold ret at 1. cbn [fst snd]. rewrite Hs. cbn [negb].
    rewrite Hp. unfold bind at 1. unfold ret at 1.
    run_rest.
    all: cbn [app].
    all: match goal with
         | HP' : forall summary state calls, _ -> _,
           He : insertRow _ (row_of _ _ _ ?s ?st) = _
           |- _ (_, [_; _; EvOpenAI ?p; EvInsert _]) =>
             generalize (HP' s st [EvOpenAI p] (or_intror eq_refl));
             rewrite He; exact (fun x => x)
         | HP' : forall summary state calls, _ -> _,
           He : insertRow _ (row_of _ _ _ ?s ?st) = _
           |- _ (_, [_; _; EvInsert _]) =>
             generalize (HP' s st [] (or_introl eq_refl));
             rewrite He; exact (fun x => x)
         end. }
  apply H. intros summary state calls Hc. exists summary, state, calls. auto.
Qed.

(** X9.  When the summarization service answers with a success status and a JSON
    body with choices, what is recorded follows the content of the first
    choice: a string gives the status "completed" and the trimmed string as
    the summary, or the fallback summary when the trimmed string is empty; a
    missing content gives the status "completed" and the fallback summary; a
    content that is neither missing nor a string makes the enricher throw,
    and gives the status "failed" and no summary. *)
Theorem enrichment_success_is_recorded :
  forall (w : World) (h uid u : str) (target : URL) (status : nat) (html : str)
         (d : ScrapedData) (code : nat) (choices : list Content),
    Authorized w h uid ->
    Requested w u target ->
    Extracted w target status html d ->
    key_configured w = true ->
    truthy (trim (content d)) = true ->
    fetchOpenAI w (prompt_of (content d) (title d)) = Responded code (Json (Some choices)) ->
    ok code = true ->
    snd (handler w)
    = [EvGetUser (token_of h); EvFetchPage (href target);
       EvOpenAI (prompt_of (content d) (title d));
       EvInsert (match choices with
                 | NotText :: _ => row_of uid target d None (lit "failed")
                 | Text c :: _ =>
                     row_of uid target d (Some (orElse (trim c) summary_fallback))
                       (lit "completed")
                 | _ => row_of uid target d (Some summary_fallback) (lit "completed")
                 end)].
Proof.
  intros w h uid u target status html d code choices Ha Hr [Hf Hs Hp] Hk Hc Ho Hok.
  rewrite (handler_runs w h uid Ha), (serve_until_fetch w h uid u target Ha Hr), Hf.
  unfold bind at 1. cbn [await]. unfold ret at 1. cbn [fst snd]. rewrite Hs. cbn [negb].
  rewrite Hp. unfold bind at 1. unfold ret at 1. rewrite Hk, Hc. cbn [andb].
  unfold key_configured in Hk. unfold generateAISummary.
  destruct (OPENAI_API_KEY w) as [k|]; [|discriminate]. rewrite Hk, Ho. cbn [negb].
  unfold await, bind, tryCatch, emit, ret, throw. cbn beta iota zeta. cbn [fst snd].
  rewrite Hok. cbn [negb fst snd]. unfold summary_fallback.
  destruct choices as [|[|c|] cs]; cbn beta iota zeta; cbn [fst snd truthy app].
  - now destruct (insertRow w _).
  - now destruct (insertRow w _).
  - assert (Hne : orElse (trim c) (lit "Summary could not be generated.") <> [])
      by (apply orElse_set; discriminate).
    unfold orElse in *.
    destruct (if truthy (trim c) then trim c else _) as [|c0 s0] eqn:E; [now elim Hne|].
    cbn [truthy app]. now destruct (insertRow w _).
  - now destruct (insertRow w _).
Qed.

Ltac run_enricher :=
  unfold generateAISummary, await, bind, emit, ret, throw;
  repeat (cbn beta iota zeta; cbn [fst snd negb andb]; try split_next).

(** X10.  [generateAISummary] never returns an empty summary, nor one with a
    blank at either end; it returns only after exactly one call of the
    service, with a key configured, and when this call did not error. *)
Theorem summary_is_never_empty :
  forall (w : World) (content title summary : str) (tr tr' : list Event),
    generateAISummary w content title tr = (Ok summary, tr') ->
    summary <> [] /\ trim summary = summary
    /\ tr' = tr ++ [EvOpenAI (prompt_of content title)]
    /\ key_configured w = true
    /\ call_errors (fetchOpenAI w (prompt_of content title)) = false.
Proof.
  intros w content title summary tr tr'. unfold key_configured, call_errors.
  run_enricher; intros E; try discriminate; injection E as <- <-; use_context.
  all: repeat split; try reflexivity; try assumption.
  all: try (apply orElse_set; discriminate).
  all: try (apply (summary_trimmed []); reflexivity).
  all: try (apply summary_trimmed; apply trim_idem).
  all: try (match goal with H : ok _ = true |- _ => rewrite H; reflexivity end).
Qed.

(** X11.  Without a key [generateAISummary] throws before any call.  With a key
    it calls the service once, with the prompt of the content and the title,
    and throws exactly when the call errors: the request is rejected, the
    status is not a success, the body is not JSON or has no choices, or the
    content of the first choice is neither missing nor a string.  A status
    that is not a success is named in the message. *)
Theorem enricher_calls_once :
  forall (w : World) (content title : str) (tr : list Event),
    (key_configured w = false ->
     generateAISummary w content title tr
     = (Throw (lit "OpenAI API key not configured"), tr))
    /\ (key_configured w = true ->
        snd (generateAISummary w content title tr)
        = tr ++ [EvOpenAI (prompt_of content title)]
        /\ ((exists e, fst (generateAISummary w content title tr) = Throw e)
            <-> call_errors (fetchOpenAI w (prompt_of content title)) = true)
        /\ (forall status reply,
              fetchOpenAI w (prompt_of content title) = Responded status reply ->
              ok status = false ->
              fst (generateAISummary w content title tr)
              = Throw (lit "OpenAI API error: " ++ ofNat status))).
Proof.
  intros w content title tr. unfold key_configured, call_errors. split.
  - unfold generateAISummary. destruct (OPENAI_API_KEY w) as [k|]; [|reflexivity].
    now intros ->.
  - unfold generateAISummary. destruct (OPENAI_API_KEY w) as [k|]; [|discriminate].
    intros ->. cbn [negb]. unfold await, bind, emit, ret, throw.
    destruct (fetchOpenAI w (prompt_of content title)) as [m|st b]; cbn [fst snd].
    + split; [reflexivity|]. split; [split; eauto|]. discriminate.
    + destruct (ok st) eqn:Hok; cbn [negb orb fst snd].
      * destruct b as [m|[[|[|c|] cs]|]]; cbn [fst snd];
          (split; [reflexivity|]); (split; [|intros status reply E; injection E as <- <-; congruence]);
          split; try eauto; try discriminate.
        all: intros [e He]; discriminate.
      * split; [reflexivity|]. split; [split; eauto|].
        intros status reply E. injection E as <- <-. reflexivity.
Qed.




(* ===================================================================== *)
(** ** Further facts on lists and matches *)
(* ===================================================================== *)

Lemma dropWhile_In (p : N -> bool) (s : str) (c : N) : In c (dropWhile p s) -> In c s.
Proof.
  induction s as [|a s IH]; cbn [dropWhile]; [tauto|].
  destruct (p a); [right; now apply IH|exact (fun H => H)].
Qed.

Lemma trim_In (s : str) (c : N) : In c (trim s) -> In c s.
Proof.
  unfold trim, trimEnd, trimStart. intros H. apply in_rev in H.
  apply dropWhile_In in H. apply in_rev in H. now apply dropWhile_In in H.
Qed.

Lemma trim_forallb (p : N -> bool) (s : str) :
  forallb p s = true -> forallb p (trim s) = true.
Proof.
  rewrite !forallb_forall. intros H c Hc. apply H. now apply trim_In.
Qed.

Lemma dropWhile_nil (p : N -> bool) (s : str) : dropWhile p s = [] -> forallb p s = true.
Proof.
  induction s as [|a s IH]; cbn [dropWhile forallb]; [reflexivity|].
  destruct (p a); [exact IH|discriminate].
Qed.

Lemma trim_nil (s : str) : trim s = [] -> forallb is_space s = true.
Proof.
  unfold trim, trimEnd, trimStart. intros H.
  assert (Hd : dropWhile is_space (rev (dropWhile is_space s)) = []).
  { rewrite <- (rev_involutive (dropWhile _ (rev _))), H. reflexivity. }
  apply dropWhile_nil in Hd.
  assert (Hs : forallb is_space (dropWhile is_space s) = true).
  { rewrite forallb_forall in *. intros c Hc. apply Hd. now apply in_rev in Hc. }
  assert (Hh := dropWhile_head is_space s).
  destruct (dropWhile is_space s) as [|c r] eqn:E; [now apply dropWhile_nil|].
  cbn [forallb] in Hs. rewrite Hh in Hs. discriminate.
Qed.

Lemma first_at_some (A : Type) (f : str -> option A) (s : str) (a : A) :
  first_at f s = Some a -> exists i, f (skipn i s) = Some a.
Proof.
  induction s as [|c t IH]; cbn [first_at].
  - destruct (f []) eqn:E; [|discriminate]. intros <-. now exists 0%nat.
  - destruct (f (c :: t)) eqn:E.
    + intros <-. now exists 0%nat.
    + intros H. destruct (IH H) as [i Hi]. now exists (S i).
Qed.

Lemma first_at_found (A : Type) (f : str -> option A) (p s : str) :
  f s <> None -> first_at f (p ++ s) <> None.
Proof.
  intros H. induction p as [|c p IH]; cbn [app].
  - destruct s; cbn [first_at]; destruct (f _); congruence.
  - cbn [first_at]. destruct (f (c :: p ++ s)); [discriminate|exact IH].
Qed.

Lemma skipn_In (A : Type) (i : nat) (l : list A) (a : A) : In a (skipn i l) -> In a l.
Proof.
  intros H. rewrite <- (firstn_skipn i l). apply in_or_app. now right.
Qed.

Lemma mapM_None (A B : Type) (f : A -> option B) (l : list A) :
  mapM f l = None <-> exists a, In a l /\ f a = None.
Proof.
  induction l as [|a l IH]; cbn [mapM In].
  - split; [discriminate|]. now intros (a & [] & _).
  - destruct (f a) as [b|] eqn:E.
    + destruct (mapM f l) as [bs|].
      * split; [discriminate|]. intros (x & [<-|Hx] & Hf); [congruence|].
        destruct IH as [_ IH]. discriminate IH. now exists x.
      * split; [|reflexivity]. intros _. destruct IH as [IH _].
        destruct (IH eq_refl) as (x & Hx & Hf). exists x. auto.
    + split; [|reflexivity]. intros _. exists a. auto.
Qed.

(** At any position the patterns [>( [^<]+ )<] and [>( [^<]* )<] match
    exactly when a [>] stands there and a [<] follows later, after enough
    characters, and they capture the text between the two. *)
Lemma match_text (mn : nat) (sn td : str) :
  option_map (capture 1)
    (match_at false (seqs [chr gt; Group 1 (Rep (none_of [lt]) mn None true); chr lt]) sn td)
  = text_after mn td.
Proof.
  unfold match_at, text_after. cbn [seqs]. unfold chr at 1. rewrite run_one_seq.
  destruct td as [|c r]; [reflexivity|]. rewrite chr_gt.
  destruct (c =? gt)%N; [|reflexivity].
  rewrite run_group_rep_seq.
  2:{ intros sn' c' t gs Hc. unfold chr. rewrite run_one_seq, chr_lt.
      rewrite none_of_lt in Hc. unfold is_not in Hc. now destruct (c' =? lt)%N. }
  rewrite (span_ext _ _ r (none_of_lt false)).
  destruct (mn <=? length (fst (span (is_not lt) r)))%nat; [|reflexivity].
  assert (Hstop := span_stop (is_not lt) r).
  unfold chr. rewrite run_one_seq.
  destruct (snd (span (is_not lt) r)) as [|c' r']; [reflexivity|].
  rewrite chr_lt. unfold is_not in Hstop. destruct (c' =? lt)%N; [|discriminate].
  reflexivity.
Qed.

Lemma text_after_clean (mn : nat) (s t : str) :
  text_after mn s = Some t -> forallb (is_not lt) t = true /\ (mn <= length t)%nat.
Proof.
  unfold text_after. destruct s as [|c r]; [discriminate|].
  destruct (c =? gt)%N; [|discriminate].
  destruct (Nat.leb_spec mn (length (fst (span (is_not lt) r)))); [|discriminate].
  destruct (snd (span (is_not lt) r)); [discriminate|].
  intros E. injection E as <-. split; [apply span_all|assumption].
Qed.

Lemma text_after_found (mn : nat) (t r : str) :
  forallb (is_not lt) t = true -> (mn <= length t)%nat ->
  text_after mn (gt :: t ++ lt :: r) = Some t.
Proof.
  intros Ht Hl. unfold text_after. rewrite N.eqb_refl.
  rewrite (span_unique (is_not lt) t (lt :: r) Ht) by reflexivity.
  cbn [fst snd]. now destruct (Nat.leb_spec mn (length t)); [|lia].
Qed.

Lemma exec_text (mn : nat) (m : str) :
  option_map (capture 1)
    (exec false (seqs [chr gt; Group 1 (Rep (none_of [lt]) mn None true); chr lt]) m)
  = first_at (text_after mn) m.
Proof.
  unfold exec. apply search_first_at. intros sn td. apply match_text.
Qed.

Lemma first_text_clean (mn : nat) (m t : str) :
  first_at (text_after mn) m = Some t ->
  forallb (is_not lt) t = true /\ (mn <= length t)%nat.
Proof.
  intros H. apply first_at_some in H as [i Hi]. now apply text_after_clean in Hi.
Qed.

(** The text of a heading is the trimmed text after the first [>] of the
    match that is followed by a [<]. *)
Lemma headingOf_text (m : str) :
  headingOf m = match first_at (text_after 1) m with Some t => trim t | None => [] end.
Proof.
  unfold headingOf. rewrite <- (exec_text 1 m).
  change (seqs [chr gt; Group 1 (Rep (none_of [lt]) 1 None true); chr lt])
    with heading_text_re.
  now destruct (exec false heading_text_re m).
Qed.

Lemma link_text (m : str) :
  option_map (capture 1) (exec false link_text_re m) = first_at (text_after 0) m.
Proof. exact (exec_text 0 m). Qed.

(** A pattern that starts with a literal [<] matches nothing in a text
    without this character. *)
Lemma denotes_lt_first (l : str) (k : regex) (w : str) :
  denotes true (Seq (chars (lt :: l)) k) w -> In lt w.
Proof.
  cbn [denotes chars]. intros (w1 & w2 & -> & (w11 & w12 & -> & (c & -> & Hc) & _) & _).
  unfold chr in Hc. rewrite chr_lt in Hc. apply N.eqb_eq in Hc. subst c.
  cbn [app In]. now left.
Qed.

Lemma no_match_without_lt (r : regex) (sn td : str) :
  (forall w, denotes true r w -> In lt w) ->
  forallb (is_not lt) td = true ->
  match_at true r sn td = None.
Proof.
  intros Hr Htd. destruct (match_at true r sn td) as [m|] eqn:E; [|reflexivity].
  apply match_at_sound in E as (rest & -> & D). apply Hr in D.
  rewrite forallb_forall in Htd.
  assert (H : is_not lt lt = true) by (apply Htd; apply in_or_app; now left).
  discriminate H.
Qed.

Lemma forallb_skipn (p : N -> bool) (i : nat) (s : str) :
  forallb p s = true -> forallb p (skipn i s) = true.
Proof.
  rewrite !forallb_forall. intros H c Hc. apply H. now apply skipn_In in Hc.
Qed.

Lemma linkOf_throws (U : str -> option str -> option URL) (baseUrl m : str) :
  linkOf U baseUrl m = None <-> rooted m = true /\ U baseUrl None = None.
Proof.
  unfold linkOf, rooted. destruct (exec true href_re m) as [hrefMatch|].
  - destruct (startsWith (lit "/") (capture 1 hrefMatch)).
    + destruct (U baseUrl None); split; try discriminate; try tauto. now intros [_ H].
    + split; [|now intros [H _]].
      destruct (_ || _); [destruct (U _ (Some baseUrl))|]; discriminate.
  - split; [discriminate|now intros [H _]].
Qed.

(* ===================================================================== *)
(** ** The extractor: when it throws, and what it returns *)
(* ===================================================================== *)

(** X13.  [parseHtml] throws exactly when the runtime rejects the base URL and
    the document holds a matched anchor whose first quoted [href=] value
    starts with a slash: nothing else in it throws, and a relative value the
    runtime rejects only drops its link. *)
Theorem extraction_throws_exactly :
  forall (U : str -> option str -> option URL) (html baseUrl : str),
    parseHtml U html baseUrl = None
    <-> U baseUrl None = None
        /\ exists m, In m (matchAll true link_re html) /\ rooted m = true.
Proof.
  intros U html baseUrl. unfold parseHtml, extractLinks.
  destruct (mapM (linkOf U baseUrl) (matchAll true link_re html)) as [mapped|] eqn:E.
  - split; [discriminate|]. intros (Hb & m & Hm & Hr).
    assert (H : mapM (linkOf U baseUrl) (matchAll true link_re html) = None).
    { apply mapM_None. exists m. split; [exact Hm|]. now apply linkOf_throws. }
    congruence.
  - split; [|reflexivity]. intros _.
    apply mapM_None in E as (m & Hm & Hf). apply linkOf_throws in Hf as [Hr Hb].
    split; [exact Hb|]. now exists m.
Qed.

(** X14.  A document without the character [<] is extracted by every runtime and
    for every base URL, and gives the title "Untitled", no heading and no
    link. *)
Theorem text_without_tags :
  forall (U : str -> option str -> option URL) (html baseUrl : str),
    forallb (is_not lt) html = true ->
    parseHtml U html baseUrl
    = Some {| title := lit "Untitled"; content := extractContent html;
              headings := []; links := [] |}.
Proof.
  intros U html baseUrl Hh.
  assert (Ht : extractTitle html = lit "Untitled").
  { rewrite extractTitle_first, first_at_none; [reflexivity|].
    intros i. rewrite <- (match_title [] (skipn i html)).
    rewrite no_match_without_lt; [reflexivity| |now apply forallb_skipn].
    intros w. apply (denotes_lt_first (lit "title")). }
  assert (Hg : matchAll true heading_re html = []).
  { apply scan_nothing. intros sn i.
    apply no_match_without_lt; [|now apply forallb_skipn].
    intros w. apply (denotes_lt_first (lit "h")). }
  assert (Hl : matchAll true link_re html = []).
  { apply scan_nothing. intros sn i.
    apply no_match_without_lt; [|now apply forallb_skipn].
    intros w. apply (denotes_lt_first (lit "a")). }
  unfold parseHtml, extractLinks, extractHeadings. rewrite Ht, Hg, Hl. reflexivity.
Qed.

(** X15.  The title returned has no blank at either end and holds no [<]; it is
    empty exactly when the first title element of the document holds blanks
    only: the default "Untitled" is given when no title element is found,
    not when the title found is blank. *)
Theorem title_is_clean :
  forall (html : str),
    trim (extractTitle html) = extractTitle html
    /\ forallb (is_not lt) (extractTitle html) = true
    /\ (extractTitle html = []
        <-> exists t, first_at title_element html = Some t /\ forallb is_space t = true).
Proof.
  intros html. rewrite extractTitle_first.
  destruct (first_at title_element html) as [t|] eqn:E.
  - split; [apply trim_idem|]. split.
    + apply trim_forallb. apply first_at_some in E as [i Hi].
      unfold title_element in Hi.
      destruct (prefix_ci (lit "<title") (skipn i html)); [|discriminate].
      destruct (snd (span (is_not gt) (skipn 6 (skipn i html)))) as [|c inner];
        [discriminate|].
      assert (Ha := span_all (is_not lt) inner).
      destruct (span (is_not lt) inner) as [t' r]. cbn [fst] in Ha.
      destruct (truthy t' && prefix_ci (lit "</title>") r); [|discriminate].
      congruence.
    + split.
      * intros Ht. exists t. split; [reflexivity|now apply trim_nil].
      * intros (t' & Et & Hs). assert (t' = t) by congruence. subst t'.
        unfold trim, trimStart.
        assert (Hd : dropWhile is_space t = []).
        { clear E Et. induction t as [|c t IH]; [reflexivity|].
          cbn [forallb] in Hs. apply andb_prop in Hs as [Hc Hs].
          cbn [dropWhile]. rewrite Hc. now apply IH. }
        rewrite Hd. reflexivity.
  - split; [reflexivity|]. split; [reflexivity|].
    split; [discriminate|]. now intros (t & Et & _).
Qed.

(** X16.  Every heading returned is the text of a match of the heading pattern
    in the document; it is not empty, has no blank at either end and holds
    no [<]. *)
Theorem headings_are_clean :
  forall (U : str -> option str -> option URL) (html baseUrl : str) (d : ScrapedData)
         (h : str),
    parseHtml U html baseUrl = Some d ->
    In h (headings d) ->
    h <> [] /\ trim h = h /\ forallb (is_not lt) h = true
    /\ exists m, In m (matchAll true heading_re html) /\ h = headingOf m.
Proof.
  intros U html baseUrl d h Hp Hin.
  apply parseHtml_fields in Hp as (_ & _ & Hh & _). rewrite Hh in Hin.
  destruct (headings_trimmed html h Hin) as [Hne Htr].
  split; [exact Hne|]. split; [exact Htr|].
  unfold extractHeadings in Hin. apply firstn_In in Hin.
  apply filter_In in Hin as [Hin _]. apply in_map_iff in Hin as (m & <- & Hm).
  split; [|now exists m].
  rewrite headingOf_text. destruct (first_at (text_after 1) m) as [t|] eqn:E; [|reflexivity].
  apply trim_forallb. now apply first_text_clean in E.
Qed.

Lemma link_shape_text (m : str) :
  link_shape m -> first_at (text_after 0) m <> None.
Proof.
  intros (o & x & hh & q & v & q' & y & t & e & -> & _ & _ & _ & _ & _ & _ & _ & _ & _ & Ht & He).
  assert (E : o ++ x ++ hh ++ [q] ++ v ++ [q'] ++ y ++ [gt] ++ t ++ e
              = (o ++ x ++ hh ++ [q] ++ v ++ [q'] ++ y) ++ gt :: t ++ e)
    by (rewrite <- !app_assoc; reflexivity).
  rewrite E. apply first_at_found.
  destruct e as [|c e]; [discriminate|].
  assert (c = lt).
  { unfold eqb_ci in He. apply andb_prop in He as [_ He].
    change (lit "</a>") with (lt :: lit "/a>") in He. cbn [prefix_ci] in He.
    apply andb_prop in He as [He _]. apply N.eqb_eq in He. symmetry in He.
    now apply canonicalize_not_letter in He. }
  subst c. cbn [app]. rewrite (text_after_found 0 t e Ht) by lia. discriminate.
Qed.

(** X17.  Every link returned comes from a match of the link pattern and the
    first quoted [href=] value of this match: a value that starts with a
    slash is put behind the protocol and the host of the base URL; one that
    starts with [./] or holds no [://] is the runtime's resolution against
    the base URL; any other is kept as it is.  The text of the link is its
    URL, or a text that is not empty, has no blank at either end and holds
    no [<]. *)
Theorem links_are_resolved :
  forall (U : str -> option str -> option URL) (html baseUrl : str) (d : ScrapedData)
         (l : Link),
    parseHtml U html baseUrl = Some d ->
    In l (links d) ->
    exists m hrefMatch,
      In m (matchAll true link_re html)
      /\ exec true href_re m = Some hrefMatch
      /\ ((startsWith (lit "/") (capture 1 hrefMatch) = true
           /\ exists base, U baseUrl None = Some base
                /\ url l = protocol base ++ lit "//" ++ host base ++ capture 1 hrefMatch)
          \/ (startsWith (lit "/") (capture 1 hrefMatch) = false
              /\ startsWith (lit "./") (capture 1 hrefMatch)
                 || negb (includes (lit "://") (capture 1 hrefMatch)) = true
              /\ exists u, U (capture 1 hrefMatch) (Some baseUrl) = Some u
                   /\ url l = href u)
          \/ (startsWith (lit "/") (capture 1 hrefMatch) = false
              /\ startsWith (lit "./") (capture 1 hrefMatch) = false
              /\ includes (lit "://") (capture 1 hrefMatch) = true
              /\ url l = capture 1 hrefMatch))
      /\ (text l = url l
          \/ (text l <> [] /\ trim (text l) = text l
              /\ forallb (is_not lt) (text l) = true)).
Proof.
  intros U html baseUrl d l Hp Hin.
  apply parseHtml_fields in Hp as (_ & _ & _ & Hl).
  unfold extractLinks in Hl.
  destruct (mapM (linkOf U baseUrl) (matchAll true link_re html)) as [mapped|] eqn:Em;
    [|discriminate].
  assert (E : firstn maxLinks (filterSome keepLink mapped) = links d) by congruence.
  rewrite <- E in Hin. apply firstn_In in Hin. apply filterSome_keeps in Hin as [Hin _].
  destruct (mapM_In _ _ _ _ _ _ Em Hin) as (m & Hm & Hf).
  assert (Hs : first_at (text_after 0) m <> None).
  { apply link_shape_text. apply scan_sound in Hm as (p & rest & _ & D).
    now apply link_re_shape. }
  unfold linkOf in Hf. destruct (exec true href_re m) as [hrefMatch|] eqn:Eh; [|discriminate].
  exists m, hrefMatch. split; [exact Hm|]. split; [exact Eh|].
  assert (Ht : exists t, forallb (is_not lt) t = true
                 /\ match exec false link_text_re m with
                    | Some textMatch => trim (capture 1 textMatch)
                    | None => capture 1 hrefMatch
                    end = trim t).
  { assert (Hx := link_text m). destruct (exec false link_text_re m) as [tm|].
    - exists (capture 1 tm). split; [|reflexivity]. cbn [option_map] in Hx. symmetry in Hx.
      now apply first_text_clean in Hx.
    - cbn [option_map] in Hx. congruence. }
  destruct Ht as (t & Ht & Et). rewrite Et in Hf. clear Et.
  assert (Hor : forall u0, orElse (trim t) u0 = u0
                  \/ (orElse (trim t) u0 <> [] /\ trim (orElse (trim t) u0) = orElse (trim t) u0
                      /\ forallb (is_not lt) (orElse (trim t) u0) = true)).
  { intros u0. unfold orElse. destruct (trim t) as [|c r] eqn:Et; [now left|].
    right. cbn [truthy]. rewrite <- Et. split; [congruence|].
    split; [apply trim_idem|now apply trim_forallb]. }
  destruct (startsWith (lit "/") (capture 1 hrefMatch)) eqn:Es.
  - destruct (U baseUrl None) as [base|]; [|discriminate].
    injection Hf as <-. cbn [text url]. split; [|apply Hor].
    left. split; [reflexivity|]. now exists base.
  - destruct (startsWith (lit "./") (capture 1 hrefMatch)
              || negb (includes (lit "://") (capture 1 hrefMatch))) eqn:Er.
    + destruct (U (capture 1 hrefMatch) (Some baseUrl)) as [u|] eqn:Eu; [|discriminate].
      injection Hf as <-. cbn [text url]. split; [|apply Hor].
      right. left. split; [reflexivity|]. split; [reflexivity|]. now exists u.
    + injection Hf as <-. cbn [text url]. split; [|apply Hor].
      right. right. apply orb_false_iff in Er as [Er1 Er2]. apply negb_false_iff in Er2.
      auto.
Qed.

(* ===================================================================== *)
(** ** The content: what the replacements leave *)
(* ===================================================================== *)

Lemma replace_scan_In (ic : bool) (r : regex) (by_ : str) (td : str) :
  forall (skip : nat) (sn : str) (c : N),
    In c (replace_scan ic r by_ skip sn td) -> In c by_ \/ In c td.
Proof.
  induction td as [|a t IH]; intros skip sn c; cbn [replace_scan].
  - destruct skip; [|tauto]. destruct (match_at ic r sn []); [|tauto].
    rewrite app_nil_r. tauto.
  - destruct skip as [|k].
    + destruct (match_at ic r sn (a :: t)) as [m|].
      * intros H. apply in_app_or in H as [H|H]; [now left|].
        destruct (length (whole m)).
        -- destruct H as [<-|H]; [right; now left|].
           apply IH in H as [H|H]; [now left|right; now right].
        -- apply IH in H as [H|H]; [now left|right; now right].
      * intros [<-|H]; [right; now left|].
        apply IH in H as [H|H]; [now left|right; now right].
    + intros H. apply IH in H as [H|H]; [now left|right; now right].
Qed.

Lemma replaceAll_In (ic : bool) (r : regex) (by_ s : str) (c : N) :
  In c (replaceAll ic r by_ s) -> In c by_ \/ In c s.
Proof. apply replace_scan_In. Qed.

Lemma space_class (ic : bool) (c : N) : atom_matches ic (Atom false [CSpace]) c = is_space c.
Proof.
  unfold atom_matches. cbn [negated members existsb item_matches].
  rewrite orb_false_r. reflexivity.
Qed.

(** Where a blank stands, the pattern for runs of blanks matches, and the
    match is not empty. *)
Lemma match_spaces (sn t : str) (a : N) :
  match match_at false spaces_re sn (a :: t) with
  | Some m => is_space a = true /\ whole m <> []
  | None => is_space a = false
  end.
Proof.
  unfold match_at, spaces_re, plus. cbn [run seen todo groups rep Nat.eqb pred option_map].
  rewrite space_class. destruct (is_space a); [|reflexivity].
  destruct (rep false (Atom false [CSpace]) 0 None true (a :: sn) t) as [|e l] eqn:E.
  - exfalso. destruct t as [|b t]; cbn [rep Nat.eqb] in E; [discriminate|].
    destruct (atom_matches false (Atom false [CSpace]) b); [|discriminate].
    now destruct (rep _ _ _ _ _ _ _).
  - cbn [map]. split; [reflexivity|]. unfold consumed. cbn [todo].
    assert (Hin : In e (rep false (Atom false [CSpace]) 0 None true (a :: sn) t))
      by (rewrite E; now left).
    destruct e as [sn' td']. apply rep_sound in Hin as (w & -> & _).
    cbn [fst snd length]. rewrite length_app.
    replace (S (length w + length td') - length td')%nat with (S (length w)) by lia.
    cbn [firstn]. discriminate.
Qed.

Lemma spaces_replaced (td : str) :
  forall (skip : nat) (sn : str) (c : N),
    In c (replace_scan false spaces_re (lit " ") skip sn td) ->
    is_space c = true -> c = 32%N.
Proof.
  induction td as [|a t IH]; intros skip sn c; cbn [replace_scan].
  - destruct skip; [|intros []]. destruct (match_at false spaces_re sn []); [|intros []].
    rewrite app_nil_r. intros [<-|[]]. reflexivity.
  - destruct skip as [|k]; [|apply IH].
    assert (Hm := match_spaces sn t a).
    destruct (match_at false spaces_re sn (a :: t)) as [m|].
    + destruct Hm as [_ Hm]. intros H. apply in_app_or in H as [H|H].
      * destruct H as [<-|[]]. reflexivity.
      * destruct (whole m) as [|x y]; [now elim Hm|]. cbn [length] in H.
        exact (IH _ _ _ H).
    + intros [<-|H]; [congruence|]. exact (IH _ _ _ H).
Qed.

(** X18.  The content returned holds no blank other than the plain space: tabs,
    line ends and the other blanks of the document are replaced. *)
Theorem content_has_plain_spaces :
  forall (html : str) (c : N),
    In c (extractContent html) -> is_space c = true -> c = 32%N.
Proof.
  intros html c Hin Hs. unfold extractContent in Hin.
  assert (H : In c (trim (replaceAll false spaces_re (lit " ")
                 (replaceAll false tag_re (lit " ")
                   (replaceAll true (block_re "noscript") []
                     (replaceAll true (block_re "style") []
                       (replaceAll true (block_re "script") [] html))))))).
  { destruct (_ <? _)%nat in Hin; [apply firstn_In in Hin|];
      apply replaceAll_In in Hin as [[]|Hin]; exact Hin. }
  apply trim_In in H. unfold replaceAll in H at 1.
  exact (spaces_replaced _ _ _ _ H Hs).
Qed.




(* ===================================================================== *)
(** ** The client and the handler together *)
(* ===================================================================== *)

Lemma trimEnd_app (p y : str) :
  y <> [] -> trimEnd y = y -> trimEnd (p ++ y) = p ++ y.
Proof.
  unfold trimEnd. intros Hy Ht.
  assert (Hd : dropWhile is_space (rev y) = rev y).
  { rewrite <- (rev_involutive (dropWhile _ _)), Ht. reflexivity. }
  assert (Hh := dropWhile_head is_space (rev y)). rewrite Hd in Hh.
  rewrite rev_app_distr.
  destruct (rev y) as [|c r] eqn:E.
  - exfalso. apply Hy. rewrite <- (rev_involutive y), E. reflexivity.
  - cbn [app dropWhile]. rewrite Hh. rewrite <- rev_involutive.
    change (c :: r ++ rev p) with ((c :: r) ++ rev p).
    rewrite <- E, <- rev_app_distr, !rev_involutive. reflexivity.
Qed.

Lemma trim_with_scheme (y : str) :
  trim y = y -> trim (lit "https://" ++ y) = lit "https://" ++ y.
Proof.
  intros Hy. unfold trim. rewrite trimStart_fixed by reflexivity.
  destruct y as [|c y]; [reflexivity|].
  apply trimEnd_app; [discriminate|].
  rewrite <- Hy. unfold trim. apply trimEnd_idem.
Qed.

Lemma scheme_added (y : str) : has_recognized_scheme (lit "https://" ++ y) = true.
Proof.
  unfold has_recognized_scheme.
  rewrite (eqb_ci_prefix (lit "https://") (lit "https://") y) by reflexivity.
  apply orb_true_r.
Qed.

Lemma normalizeUrl_scheme (input : str) :
  has_recognized_scheme (normalizeUrl input) = true
  /\ trim (normalizeUrl input) = normalizeUrl input.
Proof.
  rewrite normalizeUrl_spec.
  destruct (has_recognized_scheme (trim input)) eqn:E.
  - split; [exact E|apply trim_idem].
  - split; [apply scheme_added|apply trim_with_scheme, trim_idem].
Qed.


Lemma startsWith_app (p s : str) : startsWith p (p ++ s) = true.
Proof.
  induction p as [|a p IH]; [reflexivity|]. cbn [app startsWith].
  rewrite N.eqb_refl. exact IH.
Qed.

Lemma replaceFirst_absent (p by_ s : str) :
  includes p s = false -> replaceFirst p by_ s = s.
Proof.
  induction s as [|c s IH]; cbn [includes replaceFirst]; intros H;
    apply orb_false_iff in H as [H1 H2]; rewrite H1; [reflexivity|].
  now rewrite IH.
Qed.

(** X20.  The handler reads in the header the token the client put there:
    [Bearer ] followed by a token gives this token back, whatever the token
    is, and a header that does not hold [Bearer ] is taken whole as the
    token. *)
Theorem token_round_trip :
  forall (token header : str),
    token_of (lit "Bearer " ++ token) = token
    /\ (includes (lit "Bearer ") header = false -> token_of header = header).
Proof.
  intros token header. unfold token_of. split.
  - unfold replaceFirst. destruct (lit "Bearer " ++ token) as [|c s] eqn:E; [discriminate|].
    rewrite <- E, startsWith_app.
    rewrite skipn_app, skipn_all, Nat.sub_diag. reflexivity.
  - apply replaceFirst_absent.
Qed.

Lemma scheme_not_empty (s : str) : has_recognized_scheme s = true -> truthy s = true.
Proof. destruct s; [discriminate|reflexivity]. Qed.

(** X21.  A URL the client posts passes the checks of the handler, when both run
    the same URL parser: for an authorized request the handler goes on to
    fetch the page, at the address the parser prints for this URL. *)
Theorem posted_url_is_fetched :
  forall (w : World) (h uid : str) (session : bool) (input url : str),
    handleSubmit (newURL w) session input = PostScrape url ->
    Authorized w h uid ->
    requestJson w = Some (Some url) ->
    exists target rest,
      Requested w url target
      /\ snd (handler w) = EvGetUser (token_of h) :: EvFetchPage (href target) :: rest.
Proof.
  intros w h uid session input url Hs Ha Hb.
  unfold handleSubmit in Hs.
  destruct (negb (truthy (trim input))); [discriminate|].
  unfold validateUrl in Hs.
  destruct (newURL w (normalizeUrl input) None) as [target|] eqn:Eu;
    [|discriminate].
  cbn [negb] in Hs. destruct (negb session); [discriminate|].
  injection Hs as <-.
  assert (Hr : Requested w (normalizeUrl input) target).
  { split; [exact Hb| |exact Eu]. apply scheme_not_empty, normalizeUrl_scheme. }
  exists target.
  assert (Ht : exists rest,
             snd (handler w) = EvGetUser (token_of h) :: EvFetchPage (href target) :: rest).
  { rewrite (handler_runs w h uid Ha), (serve_until_fetch w h uid _ target Ha Hr).
    run_rest; cbn [app snd]; eexists; reflexivity. }
  destruct Ht as [rest Ht]. exists rest. split; assumption.
Qed.


(* ===================================================================== *)
(** ** The client: the selection of saved results *)
(* ===================================================================== *)

Lemma str_eqb_eq (a b : str) : str_eqb a b = true <-> a = b.
Proof.
  unfold str_eqb. destruct (list_eq_dec N.eq_dec a b); split; congruence.
Qed.

Lemma str_eqb_neq (a b : str) : str_eqb a b = false <-> a <> b.
Proof.
  unfold str_eqb. destruct (list_eq_dec N.eq_dec a b); split; congruence.
Qed.

Lemma has_In (s : App.StrSet) (x : str) : App.has s x = true <-> In x s.
Proof.
  unfold App.has. rewrite existsb_exists. split.
  - intros (y & Hy & E). apply str_eqb_eq in E. now subst.
  - intros H. exists x. split; [exact H|now apply str_eqb_eq].
Qed.

Lemma has_not_In (s : App.StrSet) (x : str) : App.has s x = false <-> ~ In x s.
Proof.
  rewrite <- has_In. destruct (App.has s x); split; congruence.
Qed.

Lemma delete_In (s : App.StrSet) (x y : str) :
  In y (App.delete s x) <-> In y s /\ y <> x.
Proof.
  unfold App.delete. rewrite filter_In, negb_true_iff, str_eqb_neq.
  split; intros [H1 H2]; split; auto.
Qed.

Lemma delete_NoDup (s : App.StrSet) (x : str) : NoDup s -> NoDup (App.delete s x).
Proof. apply NoDup_filter. Qed.

Lemma add_In (s : App.StrSet) (x y : str) : In y (App.add s x) <-> In y s \/ y = x.
Proof.
  unfold App.add. destruct (App.has s x) eqn:E.
  - apply has_In in E. split; [auto|]. intros [H| ->]; assumption.
  - rewrite in_app_iff. cbn [In]. split; intros [H|H]; auto.
    + destruct H as [H|[]]; auto.
Qed.

Lemma add_NoDup (s : App.StrSet) (x : str) : NoDup s -> NoDup (App.add s x).
Proof.
  intros H. unfold App.add. destruct (App.has s x) eqn:E; [exact H|].
  apply has_not_In in E. apply NoDup_app; [exact H|constructor; [intros []|constructor]|].
  intros a Ha [<-|[]]. now apply E.
Qed.

Lemma newSet_from (l : list str) :
  forall acc, NoDup (acc ++ l) -> fold_left App.add l acc = acc ++ l.
Proof.
  induction l as [|x l IH]; intros acc H; cbn [fold_left].
  - now rewrite app_nil_r.
  - assert (Hx : App.has acc x = false).
    { apply has_not_In. intros Hin. apply NoDup_remove_2 in H. apply H.
      apply in_or_app. now left. }
    unfold App.add at 2. rewrite Hx. rewrite IH; rewrite <- app_assoc; [reflexivity|exact H].
Qed.

(** [new Set] of distinct strings holds them in their order. *)
Lemma newSet_NoDup (l : list str) : NoDup l -> App.newSet l = l.
Proof. intros H. unfold App.newSet. now rewrite newSet_from. Qed.

Lemma delete_length (s : App.StrSet) (x : str) :
  NoDup s -> In x s -> S (length (App.delete s x)) = length s.
Proof.
  induction s as [|a s IH]; intros Hn Hin; [destruct Hin|].
  inversion Hn as [|a' s' Ha Hs]; subst. cbn [App.delete filter length].
  destruct (str_eqb x a) eqn:E; cbn [negb].
  - apply str_eqb_eq in E. subst a. f_equal.
    assert (Hf : filter (fun y => negb (str_eqb x y)) s = s).
    { clear IH Hn Hs Hin. induction s as [|b s IHs]; [reflexivity|]. cbn [filter].
      destruct (str_eqb x b) eqn:Eb.
      - apply str_eqb_eq in Eb. subst b. exfalso. apply Ha. now left.
      - cbn [negb]. f_equal. apply IHs. intros H. apply Ha. now right. }
    now rewrite Hf.
  - cbn [length]. f_equal. apply IH; [exact Hs|].
    destruct Hin as [->|Hin]; [|exact Hin].
    apply str_eqb_neq in E. now elim E.
Qed.

(** X22.  [toggleResultSelection] flips the membership of the identifier it is
    given and of no other; it touches nothing but the selection; and on a
    selection without repetition it keeps it so and moves its size by one. *)
Theorem toggle_flips_one :
  forall (resultId x : str) (st : App.State),
    App.has (App.selectedResults (App.toggleResultSelection resultId st)) x
    = (if str_eqb x resultId then negb (App.has (App.selectedResults st) x)
       else App.has (App.selectedResults st) x)
    /\ App.setSelectedResults (App.selectedResults st) (App.toggleResultSelection resultId st)
       = st
    /\ (NoDup (App.selectedResults st) ->
        NoDup (App.selectedResults (App.toggleResultSelection resultId st))
        /\ App.size (App.selectedResults (App.toggleResultSelection resultId st))
           = if App.has (App.selectedResults st) resultId
             then pred (App.size (App.selectedResults st))
             else S (App.size (App.selectedResults st))).
Proof.
  intros resultId x st. unfold App.toggleResultSelection.
  cbn [App.selectedResults App.setSelectedResults].
  split; [|split].
  - destruct (App.has (App.selectedResults st) resultId) eqn:E.
    + destruct (str_eqb x resultId) eqn:Ex.
      * apply str_eqb_eq in Ex. subst x. rewrite E. cbn [negb].
        apply has_not_In. rewrite delete_In. now intros [_ H].
      * apply str_eqb_neq in Ex.
        destruct (App.has (App.selectedResults st) x) eqn:Eh.
        -- apply has_In. apply delete_In. split; [now apply has_In|exact Ex].
        -- apply has_not_In. rewrite delete_In. intros [H _].
           apply has_not_In in Eh. now apply Eh.
    + destruct (str_eqb x resultId) eqn:Ex.
      * apply str_eqb_eq in Ex. subst x. rewrite E. cbn [negb].
        apply has_In. apply add_In. now right.
      * apply str_eqb_neq in Ex.
        destruct (App.has (App.selectedResults st) x) eqn:Eh.
        -- apply has_In. apply add_In. left. now apply has_In.
        -- apply has_not_In. rewrite add_In. intros [H|H]; [|now apply Ex].
           apply has_not_In in Eh. now apply Eh.
  - now destruct st.
  - intros Hn. destruct (App.has (App.selectedResults st) resultId) eqn:E.
    + split; [now apply delete_NoDup|]. unfold App.size.
      apply has_In in E. rewrite <- (delete_length _ resultId Hn E). reflexivity.
    + split; [now apply add_NoDup|]. unfold App.size, App.add. rewrite E.
      rewrite length_app. cbn [length]. lia.
Qed.

Lemma all_selected_size (ids sel : list str) :
  NoDup ids -> NoDup sel -> incl sel ids ->
  (length sel = length ids <-> incl ids sel).
Proof.
  intros Hi Hs Hincl. split.
  - intros E. apply (NoDup_length_incl Hs); [lia|exact Hincl].
  - intros H. apply Nat.le_antisymm; apply NoDup_incl_length; assumption.
Qed.

(** On a selection that names saved results only, without repetition,
    among saved results with distinct identifiers, [toggleSelectAll] clears
    the selection exactly when every saved result is selected, and selects
    every saved result otherwise. *)
Lemma select_all_or_none_eq :
  forall (st : App.State),
    App.selection_valid st ->
    App.toggleSelectAll st
    = App.setSelectedResults
        (if forallb (fun r => App.has (App.selectedResults st) (App.id r))
              (App.savedResults st)
         then [] else map App.id (App.savedResults st))
        st.
Proof.
  intros st (Hi & Hs & Hincl). unfold App.toggleSelectAll, App.size.
  assert (Ha := all_selected_size _ _ Hi Hs Hincl).
  rewrite <- (length_map App.id (App.savedResults st)).
  destruct (forallb _ (App.savedResults st)) eqn:E.
  - rewrite forallb_forall in E.
    assert (Hl : length (App.selectedResults st) = length (map App.id (App.savedResults st))).
    { apply Ha. intros x Hx. apply in_map_iff in Hx as (r & <- & Hr).
      apply has_In. now apply E. }
    rewrite Hl, Nat.eqb_refl. reflexivity.
  - destruct (Nat.eqb_spec (length (App.selectedResults st))
                (length (map App.id (App.savedResults st)))) as [Hl|Hl].
    + exfalso. apply Ha in Hl.
      assert (Hf : forallb (fun r => App.has (App.selectedResults st) (App.id r))
                     (App.savedResults st) = true).
      { apply forallb_forall. intros r Hr. apply has_In. apply Hl. now apply in_map. }
      congruence.
    + now rewrite newSet_NoDup.
Qed.

(** X23.  On a selection that names saved results only, each once, among saved
    results with distinct identifiers, [toggleSelectAll] clears the
    selection exactly when every saved result is selected, and selects every
    saved result otherwise; a second call then clears the selection. *)
Theorem select_all_or_none :
  forall (st : App.State),
    App.selection_valid st ->
    (App.selectedResults (App.toggleSelectAll st) = []
     <-> App.savedResults st = []
         \/ forall r, In r (App.savedResults st) ->
              App.has (App.selectedResults st) (App.id r) = true)
    /\ (App.selectedResults (App.toggleSelectAll st) <> [] ->
        App.selectedResults (App.toggleSelectAll st) = map App.id (App.savedResults st)
        /\ App.selectedResults (App.toggleSelectAll (App.toggleSelectAll st)) = []).
Proof.
  intros st Hv. rewrite (select_all_or_none_eq st Hv).
  cbn [App.selectedResults App.setSelectedResults].
  destruct (forallb _ (App.savedResults st)) eqn:E.
  - split; [|intros H; now elim H]. split; [|reflexivity].
    intros _. right. intros r Hr. rewrite forallb_forall in E. now apply E.
  - split.
    + split.
      * intros H. left. now apply map_eq_nil in H.
      * intros [H|H].
        -- now rewrite H.
        -- assert (Hf : forallb (fun r => App.has (App.selectedResults st) (App.id r))
                          (App.savedResults st) = true)
             by (apply forallb_forall; exact H).
           congruence.
    + intros Hne. split; [reflexivity|].
      unfold App.toggleSelectAll at 1.
      cbn [App.selectedResults App.savedResults App.setSelectedResults].
      unfold App.size. rewrite length_map, Nat.eqb_refl. reflexivity.
Qed.

(** X24.  That the selection names saved results only, each once, among saved
    results with distinct identifiers, is kept by [toggleResultSelection]
    and [viewSavedResult] on a saved result, by [toggleSelectAll],
    [exitSelectionMode], [toggleSection], [deleteSelectedResults] and
    [deleteIndividualResult].  The three other functions that write the
    saved results do not touch the selection and keep this on a condition
    only: [clearSavedResults] unless the store carries it out while
    something is selected, [loadSavedResults] when it fails or the rows
    loaded have distinct identifiers and hold every selected one,
    [handleSubmit] unless it adds a result whose identifier is already in
    the list. *)
Theorem selection_stays_valid :
  forall (st : App.State),
    App.selection_valid st ->
    (forall r, In r (App.savedResults st) ->
       App.selection_valid (App.toggleResultSelection (App.id r) st)
       /\ App.selection_valid (App.viewSavedResult r st))
    /\ App.selection_valid (App.toggleSelectAll st)
    /\ App.selection_valid (App.exitSelectionMode st)
    /\ (forall section, App.selection_valid (App.toggleSection section st))
    /\ (forall confirmed failed,
          App.selection_valid (fst (App.deleteSelectedResults confirmed failed st)))
    /\ (forall resultId confirmed failed,
          App.selection_valid (fst (App.deleteIndividualResult resultId confirmed failed st)))
    /\ (forall confirmed failed,
          App.selection_valid (fst (App.clearSavedResults confirmed failed st))
          <-> (confirmed = true -> failed = false -> App.selectedResults st = []))
    /\ (forall answer,
          App.selection_valid (App.loadSavedResults answer st)
          <-> (forall data, answer = Some data ->
                 NoDup (map App.item_id data)
                 /\ incl (App.selectedResults st) (map App.item_id data)))
    /\ (forall U session reply,
          App.selection_valid (App.handleSubmit U session reply st)
          <-> (forall posted r,
                 handleSubmit U session (App.url' st) = PostScrape posted ->
                 reply = App.ScrapeSuccess r ->
                 ~ In (App.id r) (map App.id (App.savedResults st))))
    /\ (forall confirmed failed answer U session reply,
          App.selectedResults (fst (App.clearSavedResults confirmed failed st))
          = App.selectedResults st
          /\ App.selectedResults (App.loadSavedResults answer st) = App.selectedResults st
          /\ App.selectedResults (App.handleSubmit U session reply st)
             = App.selectedResults st).
Proof.
  intros st Hv. assert (Hv' := Hv). destruct Hv' as (Hi & Hs & Hincl).
  assert (Ht : forall r, In r (App.savedResults st) ->
                 App.selection_valid (App.toggleResultSelection (App.id r) st)).
  { intros r Hr. unfold App.selection_valid, App.toggleResultSelection.
    cbn [App.savedResults App.selectedResults App.setSelectedResults].
    split; [exact Hi|].
    destruct (App.has (App.selectedResults st) (App.id r)).
    - split; [now apply delete_NoDup|]. intros x Hx. apply delete_In in Hx as [Hx _].
      now apply Hincl.
    - split; [now apply add_NoDup|]. intros x Hx. apply add_In in Hx as [Hx| ->].
      + now apply Hincl.
      + now apply in_map. }
  split; [|split; [|split; [|split; [|split; [|split; [|split; [|split; [|split]]]]]]]].
  - intros r Hr. split; [now apply Ht|].
    unfold App.viewSavedResult. destruct (App.isSelectionMode st); [now apply Ht|].
    exact Hv.
  - rewrite (select_all_or_none_eq st Hv).
    unfold App.selection_valid. cbn [App.savedResults App.selectedResults App.setSelectedResults].
    split; [exact Hi|]. destruct (forallb _ _).
    + split; [constructor|intros x []].
    + split; [exact Hi|apply incl_refl].
  - unfold App.selection_valid. cbn. split; [exact Hi|]. split; [constructor|intros x []].
  - intros section. exact Hv.
  - intros confirmed failed. unfold App.deleteSelectedResults.
    destruct (App.size (App.selectedResults st) =? 0)%nat; [exact Hv|].
    destruct confirmed; cbn [negb]; [|exact Hv].
    destruct failed; cbn [fst]; [exact Hv|].
    unfold App.selection_valid. cbn.
    split; [|split; [constructor|intros x []]].
    clear Hv Ht Hincl Hs. induction (App.savedResults st) as [|r l IH]; [constructor|].
    cbn [map] in Hi. inversion Hi as [|a l' Ha Hl]; subst. cbn [filter].
    destruct (negb (App.has (App.selectedResults st) (App.id r))); [|now apply IH].
    cbn [map]. constructor; [|now apply IH].
    intros Hin. apply Ha. apply in_map_iff in Hin as (r' & E & Hr').
    apply filter_In in Hr' as [Hr' _]. rewrite <- E. now apply in_map.
  - intros resultId confirmed failed. unfold App.deleteIndividualResult.
    destruct confirmed; cbn [negb]; [|exact Hv].
    destruct failed; cbn [fst]; [exact Hv|].
    unfold App.selection_valid. cbn -[App.delete].
    split; [|split].
    + clear Hv Ht Hincl Hs. induction (App.savedResults st) as [|r l IH]; [constructor|].
      cbn [map] in Hi. inversion Hi as [|a l' Ha Hl]; subst. cbn [filter].
      destruct (negb (str_eqb (App.id r) resultId)); [|now apply IH].
      cbn [map]. constructor; [|now apply IH].
      intros Hin. apply Ha. apply in_map_iff in Hin as (r' & E & Hr').
      apply filter_In in Hr' as [Hr' _]. rewrite <- E. now apply in_map.
    + now apply delete_NoDup.
    + intros x Hx. apply delete_In in Hx as [Hx Hne]. apply Hincl in Hx.
      apply in_map_iff in Hx as (r & <- & Hr). apply in_map. apply filter_In.
      split; [exact Hr|]. apply negb_true_iff. now apply str_eqb_neq.
  - intros confirmed failed. unfold App.clearSavedResults.
    destruct confirmed; cbn [negb].
    + destruct failed; cbn [fst].
      * split; [discriminate|intros _; exact Hv].
      * unfold App.selection_valid. cbn. split.
        -- intros (_ & _ & H) _ _. destruct (App.selectedResults st) as [|x s]; [reflexivity|].
           destruct (H x). now left.
        -- intros H. rewrite (H eq_refl eq_refl).
           split; [constructor|]. split; [constructor|intros x []].
    + split; [discriminate|intros _; exact Hv].
  - intros [data|]; unfold App.loadSavedResults, App.selection_valid; cbn.
    + rewrite map_map. cbn. split.
      * intros (Hd & _ & Hin) data' E. injection E as <-. split; assumption.
      * intros H. destruct (H data eq_refl) as [Hd Hin]. split; [exact Hd|]. split; assumption.
    + split; [discriminate|intros _; split; [exact Hi|split; assumption]].
  - intros U session reply. unfold App.handleSubmit, handleSubmit.
    destruct (negb (truthy (trim (App.url' st)))); [split; [discriminate|intros _; exact Hv]|].
    destruct (negb (validateUrl U (normalizeUrl (App.url' st))));
      [split; [discriminate|intros _; exact Hv]|].
    destruct (negb session); [split; [discriminate|intros _; exact Hv]|].
    destruct reply as [message|error|r];
      [split; [discriminate|intros _; exact Hv]..|].
    unfold App.selection_valid. cbn. split.
    + intros (Hd & _ & _) posted r' _ E. injection E as <-. now inversion Hd.
    + intros H. split; [|split; [exact Hs|]].
      * constructor; [|exact Hi]. exact (H _ r eq_refl eq_refl).
      * intros x Hx. right. now apply Hincl.
  - intros confirmed failed answer U session reply. split; [|split].
    + unfold App.clearSavedResults. now destruct confirmed, failed.
    + unfold App.loadSavedResults. now destruct answer.
    + unfold App.handleSubmit.
      destruct (negb (truthy (trim (App.url' st)))); [reflexivity|].
      destruct (negb (validateUrl U (normalizeUrl (App.url' st)))); [reflexivity|].
      destruct (negb session); [reflexivity|]. now destruct reply.
Qed.

Lemma filter_same (A : Type) (p q : A -> bool) (l : list A) :
  (forall a, In a l -> p a = q a) -> filter p l = filter q l.
Proof.
  induction l as [|a l IH]; intros H; [reflexivity|]. cbn [filter].
  rewrite (H a (or_introl eq_refl)), IH; [reflexivity|].
  intros b Hb. apply H. now right.
Qed.

(** X25.  The three deletions keep the list of saved results in step with the
    store: the list left is the old one without the results named by a
    deletion that the store carried out.  When nothing is asked of the store
    the state is left as it was, and nothing is asked without the
    confirmation of the user; a deletion that fails changes neither the list
    nor the selection. *)
Theorem deletions_follow_the_store :
  forall (st : App.State) (resultId : str) (confirmed failed : bool),
    let runs :=
      [App.clearSavedResults confirmed failed st;
       App.deleteSelectedResults confirmed failed st;
       App.deleteIndividualResult resultId confirmed failed st] in
    forall run, In run runs ->
      App.savedResults (fst run)
      = filter (fun r => negb (App.removed failed (snd run) r)) (App.savedResults st)
      /\ (snd run = [] -> fst run = st)
      /\ (snd run <> [] -> confirmed = true)
      /\ (failed = true ->
          App.savedResults (fst run) = App.savedResults st
          /\ App.selectedResults (fst run) = App.selectedResults st).
Proof.
  intros st resultId confirmed failed runs run Hin.
  assert (Hid : forall l : list App.ScrapedResult, filter (fun _ => true) l = l).
  { induction l as [|a l IH]; [reflexivity|]. cbn [filter]. now rewrite IH. }
  assert (Hno : forall l : list App.ScrapedResult, filter (fun _ => false) l = []).
  { induction l as [|a l IH]; [reflexivity|]. exact IH. }
  destruct Hin as [<-|[<-|[<-|[]]]].
  - unfold App.clearSavedResults, App.removed.
    destruct confirmed, failed; cbn; rewrite ?Hid, ?Hno; repeat split; intros;
      congruence.
  - unfold App.deleteSelectedResults, App.removed.
    destruct (App.size (App.selectedResults st) =? 0)%nat eqn:Ez.
    + cbn. rewrite andb_false_r. cbn. rewrite Hid. repeat split; intros; congruence.
    + destruct confirmed, failed; cbn -[App.has]; rewrite ?Hid; repeat split; intros;
        try congruence.
      apply filter_same. intros r _. now rewrite orb_false_r.
  - unfold App.deleteIndividualResult, App.removed.
    destruct confirmed, failed; cbn -[str_eqb]; rewrite ?Hid; repeat split; intros;
      try congruence.
    apply filter_same. intros r _. now rewrite orb_false_r.
Qed.

(** X26.  No mark of a running deletion is left when a confirmed deletion ends,
    whether the store carried it out or not, and whatever was marked before. *)
Theorem deletion_marks_are_cleared :
  forall (st : App.State) (resultId : str) (failed : bool),
    App.deletingResults (fst (App.deleteIndividualResult resultId true failed st)) = []
    /\ (App.selectedResults st <> [] ->
        App.deletingResults (fst (App.deleteSelectedResults true failed st)) = []).
Proof.
  intros st resultId failed. split.
  - unfold App.deleteIndividualResult. cbn [negb fst].
    assert (Hd : App.delete (App.newSet [resultId]) resultId = []).
    { cbn. destruct (str_eqb resultId resultId) eqn:E; [reflexivity|].
      apply str_eqb_neq in E. now elim E. }
    destruct failed; cbn -[App.delete App.newSet]; exact Hd.
  - intros Hne. unfold App.deleteSelectedResults, App.size.
    destruct (App.selectedResults st) as [|x s]; [now elim Hne|].
    cbn [length Nat.eqb negb fst]. now destruct failed.
Qed.




(* ===================================================================== *)
(** ** The two versions of the handler *)
(* ===================================================================== *)

(** X27.  The later version of the handler makes the calls of the earlier one,
    in the same order and with the same arguments, besides its call of the
    summarization service, and it writes the row of the earlier one with the
    content, the summary and the status added.  When the two stores answer
    alike, the two versions reply with the same status and the same error. *)
Theorem later_handler_extends_the_earlier :
  forall (w : World) (insertRow : Legacy.Row -> str + Legacy.SavedRow),
    snd (Legacy.handler w insertRow) = Legacy.earlier_calls (snd (handler w))
    /\ (Legacy.stores_agree w insertRow ->
        Legacy.statusCode (fst (Legacy.handler w insertRow)) = statusCode (fst (handler w))
        /\ Legacy.error_of (fst (Legacy.handler w insertRow))
           = Legacy.later_error_of (fst (handler w))).
Proof.
  intros w insertRow.
  unfold Legacy.handler, Legacy.caught, Legacy.parseHtml, Legacy.error_of,
    Legacy.later_error_of, handler, serve, parseHtml,
    generateAISummary, await, bind, tryCatch, emit, ret, throw.
  repeat (cbn beta iota zeta;
          cbn [fst snd negb andb truthy body statusCode Legacy.body Legacy.statusCode];
          try split_next).
  all: cbn [fst snd app Legacy.earlier_calls Legacy.statusCode Legacy.body statusCode body
              title headings links content Legacy.title Legacy.headings Legacy.links
              Legacy.earlier_row user_id row_url row_title row_headings row_links].
  all: split; [reflexivity|intros Hag; try (split; reflexivity)].
  all: cbn [title headings links content Legacy.title Legacy.headings Legacy.links] in *.
  all: match goal with
       | Hs : Legacy.stores_agree _ _,
         H1 : Pipeline.insertRow _ ?row = _,
         H2 : @eq (str + Legacy.SavedRow)%type _ _ |- _ =>
           assert (H := Hs row);
           unfold Legacy.earlier_row in H;
           cbn [user_id row_url row_title row_headings row_links] in H;
           rewrite H1, H2 in H
       end.
  all: try contradiction.
  all: subst; split; reflexivity.
Qed.

(* ===================================================================== *)
(** ** The further properties on the examples *)
(* ===================================================================== *)

Lemma summarized_request :
  Authorized world_summarized (lit "Bearer token-1") (lit "user-1")
  /\ Requested world_summarized base target_scenario
  /\ Extracted world_summarized target_scenario 200 doc_scenario data_scenario.
Proof.
  destruct (scenario_request (Some (lit "sk-test")) 200
              (Responded 200 (Json (Some [Text (lit " A page. ")])))) as [Ha Hr].
  split; [exact Ha|]. split; [exact Hr|]. apply scenario_extracted.
Qed.

Lemma row_status_and_summary_witness :
  In (row_of (lit "user-1") target_scenario data_scenario (Some (lit "A page."))
        (lit "completed"))
     (rows_written (snd (handler world_summarized)))
  /\ ((analysis_status (row_of (lit "user-1") target_scenario data_scenario
                          (Some (lit "A page.")) (lit "completed")) = lit "pending"
       /\ ai_summary (row_of (lit "user-1") target_scenario data_scenario
                        (Some (lit "A page.")) (lit "completed")) = None)
      \/ (analysis_status (row_of (lit "user-1") target_scenario data_scenario
                             (Some (lit "A page.")) (lit "completed")) = lit "failed"
          /\ ai_summary (row_of (lit "user-1") target_scenario data_scenario
                           (Some (lit "A page.")) (lit "completed")) = None)
      \/ (analysis_status (row_of (lit "user-1") target_scenario data_scenario
                             (Some (lit "A page.")) (lit "completed")) = lit "completed"
          /\ exists summary,
               ai_summary (row_of (lit "user-1") target_scenario data_scenario
                             (Some (lit "A page.")) (lit "completed")) = Some summary
               /\ summary <> [] /\ trim summary = summary)).
Proof.
  assert (Hin : In (row_of (lit "user-1") target_scenario data_scenario
                      (Some (lit "A page.")) (lit "completed"))
                   (rows_written (snd (handler world_summarized))))
    by (vm_compute; left; reflexivity).
  split; [exact Hin|].
  exact (row_status_and_summary world_summarized _ Hin).
Defined.

Lemma unauthenticated_is_refused_witness :
  str_eqb (method world_without_header) (lit "OPTIONS") = false
  /\ handler world_without_header = (fail (lit "No authorization header"), []).
Proof.
  split; [reflexivity|].
  destruct (unauthenticated_is_refused world_without_header eq_refl) as [H _].
  apply H. left. reflexivity.
Defined.

Lemma missing_url_is_refused_witness :
  Authorized world_without_url (lit "Bearer token-1") (lit "user-1")
  /\ requestJson world_without_url = Some None
  /\ handler world_without_url
     = (fail (lit "URL is required"), [EvGetUser (token_of (lit "Bearer token-1"))]).
Proof.
  assert (Ha : Authorized world_without_url (lit "Bearer token-1") (lit "user-1"))
    by (constructor; reflexivity).
  split; [exact Ha|]. split; [reflexivity|].
  apply (missing_url_is_refused world_without_url _ _ Ha). left. reflexivity.
Defined.

Lemma transport_failure_is_fatal_witness :
  Authorized world_unreachable (lit "Bearer token-1") (lit "user-1")
  /\ Requested world_unreachable base target_scenario
  /\ fetchPage world_unreachable (href target_scenario)
     = Rejected (lit "connection refused")
  /\ handler world_unreachable
     = (fail (lit "connection refused"),
        [EvGetUser (token_of (lit "Bearer token-1")); EvFetchPage (href target_scenario)]).
Proof.
  assert (Ha : Authorized world_unreachable (lit "Bearer token-1") (lit "user-1"))
    by (constructor; reflexivity).
  assert (Hr : Requested world_unreachable base target_scenario)
    by (constructor; reflexivity).
  split; [exact Ha|]. split; [exact Hr|]. split; [reflexivity|].
  exact (transport_failure_is_fatal world_unreachable _ _ _ _ _ Ha Hr eq_refl).
Defined.

Lemma store_decides_the_reply_witness :
  Authorized world_summarized (lit "Bearer token-1") (lit "user-1")
  /\ Requested world_summarized base target_scenario
  /\ Extracted world_summarized target_scenario 200 doc_scenario data_scenario
  /\ exists summary state calls,
       (calls = []
        \/ calls = [EvOpenAI (prompt_of (content data_scenario) (title data_scenario))])
       /\ snd (handler world_summarized)
          = [EvGetUser (token_of (lit "Bearer token-1")); EvFetchPage (href target_scenario)]
            ++ calls
            ++ [EvInsert (row_of (lit "user-1") target_scenario data_scenario summary state)]
       /\ fst (handler world_summarized)
          = match insertRow world_summarized
                    (row_of (lit "user-1") target_scenario data_scenario summary state) with
            | inl message => fail (lit "Database error: " ++ message)
            | inr saved => {| statusCode := 200; body := Success saved |}
            end.
Proof.
  destruct summarized_request as (Ha & Hr & He).
  split; [exact Ha|]. split; [exact Hr|]. split; [exact He|].
  exact (store_decides_the_reply world_summarized _ _ _ _ _ _ _ Ha Hr He).
Defined.

Lemma enrichment_success_is_recorded_witness :
  Authorized world_summarized (lit "Bearer token-1") (lit "user-1")
  /\ Requested world_summarized base target_scenario
  /\ Extracted world_summarized target_scenario 200 doc_scenario data_scenario
  /\ key_configured world_summarized = true
  /\ truthy (trim (content data_scenario)) = true
  /\ fetchOpenAI world_summarized (prompt_of (content data_scenario) (title data_scenario))
     = Responded 200 (Json (Some [Text (lit " A page. ")]))
  /\ ok 200 = true
  /\ snd (handler world_summarized)
     = [EvGetUser (token_of (lit "Bearer token-1")); EvFetchPage (href target_scenario);
        EvOpenAI (prompt_of (content data_scenario) (title data_scenario));
        EvInsert (row_of (lit "user-1") target_scenario data_scenario
                    (Some (orElse (trim (lit " A page. ")) summary_fallback))
                    (lit "completed"))].
Proof.
  destruct summarized_request as (Ha & Hr & He).
  split; [exact Ha|]. split; [exact Hr|]. split; [exact He|].
  split; [reflexivity|]. split; [reflexivity|]. split; [reflexivity|].
  split; [reflexivity|].
  exact (enrichment_success_is_recorded world_summarized _ _ _ _ _ _ _ 200
           [Text (lit " A page. ")] Ha Hr He eq_refl eq_refl eq_refl eq_refl).
Defined.

Lemma summary_is_never_empty_witness :
  generateAISummary world_summarized (lit "A Go") (lit "Untitled") []
  = (Ok (lit "A page."), [EvOpenAI (prompt_of (lit "A Go") (lit "Untitled"))])
  /\ lit "A page." <> []
  /\ trim (lit "A page.") = lit "A page."
  /\ [EvOpenAI (prompt_of (lit "A Go") (lit "Untitled"))]
     = [] ++ [EvOpenAI (prompt_of (lit "A Go") (lit "Untitled"))]
  /\ key_configured world_summarized = true
  /\ call_errors (fetchOpenAI world_summarized (prompt_of (lit "A Go") (lit "Untitled")))
     = false.
Proof.
  assert (E : generateAISummary world_summarized (lit "A Go") (lit "Untitled") []
              = (Ok (lit "A page."), [EvOpenAI (prompt_of (lit "A Go") (lit "Untitled"))]))
    by (vm_compute; reflexivity).
  split; [exact E|].
  exact (summary_is_never_empty world_summarized _ _ _ _ _ E).
Defined.

Lemma text_without_tags_witness :
  forallb (is_not lt) doc_plain = true
  /\ parseHtml Platform.newURL doc_plain base
     = Some {| title := lit "Untitled"; content := extractContent doc_plain;
               headings := []; links := [] |}.
Proof.
  split; [reflexivity|].
  exact (text_without_tags Platform.newURL doc_plain base eq_refl).
Defined.

Lemma scenario_parsed : parseHtml Platform.newURL doc_scenario base = Some data_scenario.
Proof.
  exact (page_parsed _ _ _ _ _ (scenario_extracted None (Rejected []))).
Qed.

Lemma headings_are_clean_witness :
  parseHtml Platform.newURL doc_scenario base = Some data_scenario
  /\ In (lit "A") (headings data_scenario)
  /\ lit "A" <> []
  /\ trim (lit "A") = lit "A"
  /\ forallb (is_not lt) (lit "A") = true
  /\ exists m, In m (matchAll true heading_re doc_scenario) /\ lit "A" = headingOf m.
Proof.
  assert (Hin : In (lit "A") (headings data_scenario)) by (left; reflexivity).
  split; [exact scenario_parsed|]. split; [exact Hin|].
  exact (headings_are_clean Platform.newURL doc_scenario base data_scenario (lit "A")
           scenario_parsed Hin).
Defined.

Lemma links_are_resolved_witness :
  parseHtml Platform.newURL doc_scenario base = Some data_scenario
  /\ In {| text := lit "Go"; url := lit "https://site.test/x" |} (links data_scenario)
  /\ exists m hrefMatch,
       In m (matchAll true link_re doc_scenario)
       /\ exec true href_re m = Some hrefMatch
       /\ ((startsWith (lit "/") (capture 1 hrefMatch) = true
            /\ exists b, Platform.newURL base None = Some b
                 /\ lit "https://site.test/x"
                    = protocol b ++ lit "//" ++ host b ++ capture 1 hrefMatch)
           \/ (startsWith (lit "/") (capture 1 hrefMatch) = false
               /\ startsWith (lit "./") (capture 1 hrefMatch)
                  || negb (includes (lit "://") (capture 1 hrefMatch)) = true
               /\ exists u, Platform.newURL (capture 1 hrefMatch) (Some base) = Some u
                    /\ lit "https://site.test/x" = href u)
           \/ (startsWith (lit "/") (capture 1 hrefMatch) = false
               /\ startsWith (lit "./") (capture 1 hrefMatch) = false
               /\ includes (lit "://") (capture 1 hrefMatch) = true
               /\ lit "https://site.test/x" = capture 1 hrefMatch))
       /\ (lit "Go" = lit "https://site.test/x"
           \/ (lit "Go" <> [] /\ trim (lit "Go") = lit "Go"
               /\ forallb (is_not lt) (lit "Go") = true)).
Proof.
  assert (Hin : In {| text := lit "Go"; url := lit "https://site.test/x" |}
                  (links data_scenario)) by (left; reflexivity).
  split; [exact scenario_parsed|]. split; [exact Hin|].
  exact (links_are_resolved Platform.newURL doc_scenario base data_scenario _
           scenario_parsed Hin).
Defined.

Lemma content_has_plain_spaces_witness :
  In 32%N (extractContent doc_plain) /\ is_space 32 = true /\ 32%N = 32%N.
Proof.
  assert (Hin : In 32%N (extractContent doc_plain))
    by (vm_compute; do 5 right; left; reflexivity).
  split; [exact Hin|]. split; [reflexivity|].
  exact (content_has_plain_spaces doc_plain 32%N Hin eq_refl).
Defined.

Lemma posted_url_is_fetched_witness :
  handleSubmit (newURL world_no_key) true (lit " site.test/page ")
  = PostScrape base
  /\ Authorized world_no_key (lit "Bearer token-1") (lit "user-1")
  /\ requestJson world_no_key = Some (Some base)
  /\ exists target rest,
       Requested world_no_key base target
       /\ snd (handler world_no_key)
          = EvGetUser (token_of (lit "Bearer token-1")) :: EvFetchPage (href target) :: rest.
Proof.
  assert (Hs : handleSubmit (newURL world_no_key) true (lit " site.test/page ")
               = PostScrape base) by (vm_compute; reflexivity).
  destruct (scenario_request None 200 (Responded 200 (Json (Some [Text (lit "A page.")]))))
    as [Ha _].
  split; [exact Hs|]. split; [exact Ha|]. split; [reflexivity|].
  exact (posted_url_is_fetched world_no_key _ _ true _ _ Hs Ha eq_refl).
Defined.

Lemma state_one_selected_valid : App.selection_valid state_one_selected.
Proof.
  unfold App.selection_valid. cbn -[lit]. split; [|split].
  - constructor; [|constructor; [intros []|constructor]].
    intros [H|[]]. discriminate H.
  - constructor; [intros []|constructor].
  - intros x [<-|[]]. left. reflexivity.
Qed.

Lemma select_all_or_none_witness :
  App.selection_valid state_one_selected
  /\ (App.selectedResults (App.toggleSelectAll state_one_selected) = []
      <-> App.savedResults state_one_selected = []
          \/ forall r, In r (App.savedResults state_one_selected) ->
               App.has (App.selectedResults state_one_selected) (App.id r) = true)
  /\ (App.selectedResults (App.toggleSelectAll state_one_selected) <> [] ->
      App.selectedResults (App.toggleSelectAll state_one_selected)
      = map App.id (App.savedResults state_one_selected)
      /\ App.selectedResults (App.toggleSelectAll (App.toggleSelectAll state_one_selected))
         = []).
Proof.
  split; [exact state_one_selected_valid|].
  exact (select_all_or_none state_one_selected state_one_selected_valid).
Defined.

Lemma selection_stays_valid_witness :
  App.selection_valid state_one_selected
  /\ (forall r, In r (App.savedResults state_one_selected) ->
        App.selection_valid (App.toggleResultSelection (App.id r) state_one_selected)
        /\ App.selection_valid (App.viewSavedResult r state_one_selected))
  /\ App.selection_valid (App.toggleSelectAll state_one_selected)
  /\ App.selection_valid (App.exitSelectionMode state_one_selected)
  /\ (forall section, App.selection_valid (App.toggleSection section state_one_selected))
  /\ (forall confirmed failed,
        App.selection_valid
          (fst (App.deleteSelectedResults confirmed failed state_one_selected)))
  /\ (forall resultId confirmed failed,
        App.selection_valid
          (fst (App.deleteIndividualResult resultId confirmed failed state_one_selected)))
  /\ (forall confirmed failed,
        App.selection_valid (fst (App.clearSavedResults confirmed failed state_one_selected))
        <-> (confirmed = true -> failed = false ->
             App.selectedResults state_one_selected = []))
  /\ (forall answer,
        App.selection_valid (App.loadSavedResults answer state_one_selected)
        <-> (forall data, answer = Some data ->
               NoDup (map App.item_id data)
               /\ incl (App.selectedResults state_one_selected) (map App.item_id data)))
  /\ (forall U session reply,
        App.selection_valid (App.handleSubmit U session reply state_one_selected)
        <-> (forall posted r,
               handleSubmit U session (App.url' state_one_selected) = PostScrape posted ->
               reply = App.ScrapeSuccess r ->
               ~ In (App.id r) (map App.id (App.savedResults state_one_selected))))
  /\ (forall confirmed failed answer U session reply,
        App.selectedResults (fst (App.clearSavedResults confirmed failed state_one_selected))
        = App.selectedResults state_one_selected
        /\ App.selectedResults (App.loadSavedResults answer state_one_selected)
           = App.selectedResults state_one_selected
        /\ App.selectedResults (App.handleSubmit U session reply state_one_selected)
           = App.selectedResults state_one_selected).
Proof.
  split; [exact state_one_selected_valid|].
  exact (selection_stays_valid state_one_selected state_one_selected_valid).
Defined.

Lemma deletions_follow_the_store_witness :
  In (App.deleteSelectedResults true false state_one_selected)
     [App.clearSavedResults true false state_one_selected;
      App.deleteSelectedResults true false state_one_selected;
      App.deleteIndividualResult (lit "r2") true false state_one_selected]
  /\ App.savedResults (fst (App.deleteSelectedResults true false state_one_selected))
     = filter (fun r => negb (App.removed false
                                (snd (App.deleteSelectedResults true false state_one_selected))
                                r))
         (App.savedResults state_one_selected)
  /\ (snd (App.deleteSelectedResults true false state_one_selected) = [] ->
      fst (App.deleteSelectedResults true false state_one_selected) = state_one_selected)
  /\ (snd (App.deleteSelectedResults true false state_one_selected) <> [] -> true = true)
  /\ (false = true ->
      App.savedResults (fst (App.deleteSelectedResults true false state_one_selected))
      = App.savedResults state_one_selected
      /\ App.selectedResults (fst (App.deleteSelectedResults true false state_one_selected))
         = App.selectedResults state_one_selected).
Proof.
  assert (Hin : In (App.deleteSelectedResults true false state_one_selected)
                  [App.clearSavedResults true false state_one_selected;
                   App.deleteSelectedResults true false state_one_selected;
                   App.deleteIndividualResult (lit "r2") true false state_one_selected])
    by (right; left; reflexivity).
  split; [exact Hin|].
  exact (deletions_follow_the_store state_one_selected (lit "r2") true false _ Hin).
Defined.
